(** * NVT: page reconstruction and export pipeline

    A shallow embedding of the TypeScript sources of the repository:
    - [services/fileProcessing.ts]  ([cropImageFromBase64]),
    - the Gemini service              ([transcribeImage]),
    - the clipboard exporter          ([copyToClipboard]),
    - the word-processor exporter     ([generateDocx]).

    Conventions of the embedding.
    - A JavaScript string is a list of UTF-16 code units ([jsstring]).
    - A JavaScript regular expression is a term of [regex], run by a
      backtracking matcher with the priorities of ECMAScript (greedy
      and lazy quantifiers, captures, negative lookahead, anchors).
    - A JavaScript number is an exact rational ([number]); rounding and
      overflow of IEEE doubles are not modelled.
    - Promises are modelled by their final state ([promise]). *)

#[local] Set Warnings "-register-all".
From Stdlib Require Import List NArith ZArith QArith Qabs Qpower Bool String Ascii Lia Lqa.
Import ListNotations.

Local Open Scope list_scope.
Local Open Scope nat_scope.

(* ================================================================== *)
(** ** Strings *)
(* ================================================================== *)

Module JS.

(** One UTF-16 code unit, and a string of them. *)
Abbreviation char := N (only parsing).
Abbreviation jsstring := (list N) (only parsing).

(** A string literal of the source, given by its (ASCII) characters. *)
Definition str (s : string) : jsstring :=
  map N_of_ascii (list_ascii_of_string s).

Definition ch (a : ascii) : char := N_of_ascii a.

Definition dquote : char := 34%N.
Definition newline : char := 10%N.
Definition backslash : char := 92%N.

Definition char_eqb (a b : char) : bool := N.eqb a b.

Fixpoint jsstring_eqb (a b : jsstring) : bool :=
  match a, b with
  | [], [] => true
  | x :: a', y :: b' => char_eqb x y && jsstring_eqb a' b'
  | _, _ => false
  end.

(** ECMAScript [WhiteSpace] and [LineTerminator] code units: the class
    [\s] of regular expressions and the characters removed by [trim]. *)
Definition is_space (c : char) : bool :=
  ((9 <=? c) && (c <=? 13) || (c =? 32) || (c =? 160) || (c =? 5760)
   || ((8192 <=? c) && (c <=? 8202)) || (c =? 8232) || (c =? 8233)
   || (c =? 8239) || (c =? 8287) || (c =? 12288) || (c =? 65279))%N.

(** [LineTerminator]: the code units the regular-expression dot rejects. *)
Definition is_line_terminator (c : char) : bool :=
  ((c =? 10) || (c =? 13) || (c =? 8232) || (c =? 8233))%N.

Fixpoint drop_space (s : jsstring) : jsstring :=
  match s with
  | c :: s' => if is_space c then drop_space s' else s
  | [] => []
  end.

(** [String.prototype.trim]. *)
Definition trim (s : jsstring) : jsstring :=
  rev (drop_space (rev (drop_space s))).

(** [s.split(sep)] for a separator of one code unit. *)
Fixpoint split (sep : char) (s : jsstring) : list jsstring :=
  match s with
  | [] => [[]]
  | c :: s' =>
      if char_eqb c sep then [] :: split sep s'
      else match split sep s' with
           | l :: ls => (c :: l) :: ls
           | [] => [[c]]
           end
  end.

(** [a.join(sep)] on an array of strings. *)
Fixpoint join (sep : jsstring) (a : list jsstring) : jsstring :=
  match a with
  | [] => []
  | [x] => x
  | x :: rest => x ++ sep ++ join sep rest
  end.

(** Truthiness of a string: non-empty. *)
Definition truthy_string (s : jsstring) : bool :=
  match s with [] => false | _ => true end.

End JS.
Import JS.

(* ================================================================== *)
(** ** Regular expressions *)
(* ================================================================== *)

Module RegExp.

Definition cclass := char -> bool.

(** The fragment of ECMAScript patterns used by the sources.  Quantifiers
    only ever apply to a single character class there. *)
Inductive regex : Type :=
| Eps
| Cls (p : cclass)               (* one code unit of the class *)
| Seq (r1 r2 : regex)
| StarG (p : cclass)             (* p*   greedy *)
| StarL (p : cclass)             (* p*?  lazy *)
| OptG (p : cclass)              (* p?   greedy *)
| Grp (n : nat) (r : regex)      (* capturing group number n *)
| NotAhead (p : cclass)          (* (?!p) *)
| Bol                            (* ^ *)
| Eol.                           (* $ *)

Definition captures := list (nat * jsstring).

(** End index, remaining input and captures of a successful match. *)
Definition result : Type := nat * jsstring * captures.

Definition cont := nat -> jsstring -> captures -> option result.

Definition accept : cont := fun i s caps => Some (i, s, caps).

Definition orelse (a b : option result) : option result :=
  match a with Some r => Some r | None => b end.

Fixpoint starG (p : cclass) (k : nat -> jsstring -> option result)
         (i : nat) (s : jsstring) : option result :=
  match s with
  | c :: s' => if p c then orelse (starG p k (S i) s') (k i s) else k i s
  | [] => k i s
  end.

Fixpoint starL (p : cclass) (k : nat -> jsstring -> option result)
         (i : nat) (s : jsstring) : option result :=
  orelse (k i s)
         (match s with
          | c :: s' => if p c then starL p k (S i) s' else None
          | [] => None
          end).

(** The backtracking matcher, in continuation-passing style: [i] is the
    index of the current position in the whole input, [s] the input from
    there on. *)
Fixpoint rmatch (r : regex) (i : nat) (s : jsstring) (caps : captures)
         (k : cont) : option result :=
  match r with
  | Eps => k i s caps
  | Cls p =>
      match s with
      | c :: s' => if p c then k (S i) s' caps else None
      | [] => None
      end
  | Seq r1 r2 =>
      rmatch r1 i s caps (fun i' s' caps' => rmatch r2 i' s' caps' k)
  | StarG p => starG p (fun i' s' => k i' s' caps) i s
  | StarL p => starL p (fun i' s' => k i' s' caps) i s
  | OptG p =>
      match s with
      | c :: s' =>
          if p c then orelse (k (S i) s' caps) (k i s caps) else k i s caps
      | [] => k i s caps
      end
  | Grp n r' =>
      rmatch r' i s caps
             (fun i' s' caps' => k i' s' ((n, firstn (i' - i) s) :: caps'))
  | NotAhead p =>
      match s with
      | c :: _ => if p c then None else k i s caps
      | [] => k i s caps
      end
  | Bol => if Nat.eqb i 0 then k i s caps else None
  | Eol => match s with [] => k i s caps | _ :: _ => None end
  end.

(** A match attempt at the current position. *)
Definition match_at (r : regex) (i : nat) (s : jsstring) : option result :=
  rmatch r i s [] accept.

Fixpoint capture (n : nat) (caps : captures) : option jsstring :=
  match caps with
  | [] => None
  | (m, v) :: rest => if Nat.eqb m n then Some v else capture n rest
  end.

Fixpoint ngroups (r : regex) : nat :=
  match r with
  | Seq r1 r2 => Nat.max (ngroups r1) (ngroups r2)
  | Grp n r' => Nat.max n (ngroups r')
  | _ => 0
  end.

(** The match object of [s.match(re)] for a pattern without the [g]
    flag: index of the match, matched text and captures. *)
Record match_object : Type := {
  m_index : nat;
  m_text : jsstring;
  m_caps : captures
}.

(** [imageMatch[n]]: [None] is [undefined]. *)
Definition group (m : match_object) (n : nat) : option jsstring :=
  match n with
  | O => Some (m_text m)
  | _ => capture n (m_caps m)
  end.

Fixpoint exec (r : regex) (i : nat) (s : jsstring) : option match_object :=
  match match_at r i s with
  | Some (e, _, caps) =>
      Some {| m_index := i; m_text := firstn (e - i) s; m_caps := caps |}
  | None =>
      match s with
      | [] => None
      | _ :: s' => exec r (S i) s'
      end
  end.

(** [s.match(re)], [None] being [null]. *)
Definition String_match (s : jsstring) (r : regex) : option match_object :=
  exec r 0 s.

(** *** Replacement strings *)

Inductive titem : Type :=
| TLit (c : char)
| TRef (n : nat)       (* $n *)
| TWhole.              (* $& *)

Definition digit_of (c : char) : option nat :=
  if ((49 <=? c) && (c <=? 57))%N then Some (N.to_nat (c - 48)) else None.

(** The replacement patterns of [String.prototype.replace] for a pattern
    of [m] groups ([m < 10]): [$$], [$&] and the one-digit [$n] for
    [1 <= n <= m]; a dollar sign in front of anything else stands for
    itself.  The other patterns of ECMAScript (two-digit and named
    references, the text before and after the match) do not occur in the
    sources and are not modelled. *)
Fixpoint template (m : nat) (t : jsstring) : list titem :=
  match t with
  | [] => []
  | c :: t' =>
      if (c =? 36)%N then
        match t' with
        | d :: t'' =>
            if (d =? 36)%N then TLit 36%N :: template m t''
            else if (d =? 38)%N then TWhole :: template m t''
            else match digit_of d with
                 | Some n =>
                     if Nat.leb n m then TRef n :: template m t''
                     else TLit c :: template m t'
                 | None => TLit c :: template m t'
                 end
        | [] => [TLit c]
        end
      else TLit c :: template m t'
  end.

Fixpoint expand (t : list titem) (whole : jsstring) (caps : captures)
  : jsstring :=
  match t with
  | [] => []
  | TLit c :: t' => c :: expand t' whole caps
  | TRef n :: t' =>
      match capture n caps with
      | Some v => v ++ expand t' whole caps
      | None => expand t' whole caps
      end
  | TWhole :: t' => whole ++ expand t' whole caps
  end.

Definition substitution (r : regex) (repl : jsstring) (whole : jsstring)
           (caps : captures) : jsstring :=
  expand (template (ngroups r) repl) whole caps.

(** [s.replace(re, repl)] for a pattern without the [g] flag: the first
    match only. *)
Fixpoint replace_first (r : regex) (repl : jsstring) (i : nat)
         (s : jsstring) : jsstring :=
  match match_at r i s with
  | Some (e, rest, caps) =>
      substitution r repl (firstn (e - i) s) caps ++ rest
  | None =>
      match s with
      | [] => []
      | c :: s' => c :: replace_first r repl (S i) s'
      end
  end.

Definition String_replace (s : jsstring) (r : regex) (repl : jsstring)
  : jsstring :=
  replace_first r repl 0 s.

(** [s.replace(re, repl)] for a pattern with the [g] flag: every match,
    left to right, the search resuming where the previous match ended
    (one code unit further after an empty match). *)
Fixpoint replace_all (fuel : nat) (r : regex) (repl : jsstring) (i : nat)
         (s : jsstring) : jsstring :=
  match fuel with
  | O => s
  | S fuel' =>
      match match_at r i s with
      | Some (e, rest, caps) =>
          substitution r repl (firstn (e - i) s) caps ++
          (if Nat.ltb i e then replace_all fuel' r repl e rest
           else match s with
                | [] => []
                | c :: s' => c :: replace_all fuel' r repl (S i) s'
                end)
      | None =>
          match s with
          | [] => []
          | c :: s' => c :: replace_all fuel' r repl (S i) s'
          end
      end
  end.

Definition String_replaceAll (s : jsstring) (r : regex) (repl : jsstring)
  : jsstring :=
  replace_all (S (List.length s)) r repl 0 s.

(** *** Building patterns *)

Definition only (a : ascii) : cclass := fun c => char_eqb c (ch a).
Definition any : cclass := fun _ => true.                 (* [\s\S] *)
Definition dot : cclass := fun c => negb (is_line_terminator c).
Definition space : cclass := is_space.                    (* \s *)
Definition upper : cclass := fun c => ((65 <=? c) && (c <=? 90))%N.

(** A literal run of characters. *)
Fixpoint lit_chars (l : list ascii) : regex :=
  match l with
  | [] => Eps
  | [a] => Cls (only a)
  | a :: l' => Seq (Cls (only a)) (lit_chars l')
  end.

Definition lit (s : string) : regex := lit_chars (list_ascii_of_string s).

Fixpoint seq (l : list regex) : regex :=
  match l with
  | [] => Eps
  | [r] => r
  | r :: l' => Seq r (seq l')
  end.

End RegExp.
Import RegExp.

(* ================================================================== *)
(** ** The LaTeX normalizer (post-processing of [transcribeImage]) *)
(* ================================================================== *)

Module Normalizer.

(** [/\\\(([\s\S]*?)\\\)/g] *)
Definition re_inline : regex :=
  seq [lit "\("; Grp 1 (StarL any); lit "\)"].

(** [/\\\[([\s\S]*?)\\\]/g] *)
Definition re_display : regex :=
  seq [lit "\["; Grp 1 (StarL any); lit "\]"].

(** [/\\angle\s*\{?([A-Z]{3})\}?/g] *)
Definition re_angle3 : regex :=
  seq [lit "\angle"; StarG space; OptG (only "{");
       Grp 1 (seq [Cls upper; Cls upper; Cls upper]); OptG (only "}")].

(** [/\\angle\s*\{?([A-Z])\}?(?![A-Z])/g] *)
Definition re_angle1 : regex :=
  seq [lit "\angle"; StarG space; OptG (only "{");
       Grp 1 (Cls upper); OptG (only "}"); NotAhead upper].

Definition rule1 (s : jsstring) : jsstring :=
  String_replaceAll s re_inline (str "$$$1$$").
Definition rule2 (s : jsstring) : jsstring :=
  String_replaceAll s re_display (str "$$$$$1$$$$").
Definition rule3 (s : jsstring) : jsstring :=
  String_replaceAll s re_angle3 (str "\widehat{$1}").
Definition rule4 (s : jsstring) : jsstring :=
  String_replaceAll s re_angle1 (str "\hat{$1}").

(** The four rewrites applied to [part.content], in source order. *)
Definition normalize (textContent : jsstring) : jsstring :=
  let textContent := rule1 textContent in
  let textContent := rule2 textContent in
  let textContent := rule3 textContent in
  let textContent := rule4 textContent in
  textContent.

End Normalizer.
Import Normalizer.

(* ================================================================== *)
(** ** JSON values and [JSON.parse] *)
(* ================================================================== *)

Module JSON.

Definition number := Q.

Inductive json : Type :=
| JNull
| JBool (b : bool)
| JNumber (v : number)
| JString (s : jsstring)
| JArray (items : list json)
| JObject (props : list (jsstring * json)).

(** JSON white space: space, tab, line feed, carriage return. *)
Definition is_ws (c : char) : bool :=
  ((c =? 32) || (c =? 9) || (c =? 10) || (c =? 13))%N.

Fixpoint skip_ws (s : jsstring) : jsstring :=
  match s with
  | c :: s' => if is_ws c then skip_ws s' else s
  | [] => []
  end.

Fixpoint strip_prefix (p s : jsstring) : option jsstring :=
  match p, s with
  | [], _ => Some s
  | a :: p', b :: s' => if char_eqb a b then strip_prefix p' s' else None
  | _ :: _, [] => None
  end.

Definition is_digit (c : char) : bool := ((48 <=? c) && (c <=? 57))%N.

Definition hex_val (c : char) : option N :=
  if ((48 <=? c) && (c <=? 57))%N then Some (c - 48)%N
  else if ((65 <=? c) && (c <=? 70))%N then Some (c - 55)%N
  else if ((97 <=? c) && (c <=? 102))%N then Some (c - 87)%N
  else None.

Definition hex4 (a b c d : char) : option char :=
  match hex_val a, hex_val b, hex_val c, hex_val d with
  | Some x, Some y, Some z, Some w => Some (((x * 16 + y) * 16 + z) * 16 + w)%N
  | _, _, _, _ => None
  end.

(** The character an escape letter stands for. *)
Definition escape (e : char) : option char :=
  if (e =? 34)%N then Some 34%N            (* escaped quote *)
  else if (e =? 92)%N then Some 92%N       (* escaped backslash *)
  else if (e =? 47)%N then Some 47%N       (* escaped slash *)
  else if (e =? 98)%N then Some 8%N        (* escape b *)
  else if (e =? 102)%N then Some 12%N      (* escape f *)
  else if (e =? 110)%N then Some 10%N      (* escape n *)
  else if (e =? 114)%N then Some 13%N      (* escape r *)
  else if (e =? 116)%N then Some 9%N       (* escape t *)
  else None.

(** The characters of a string literal, after its opening quote, up to
    and including its closing quote. *)
Fixpoint parse_chars (s : jsstring) : option (jsstring * jsstring) :=
  match s with
  | [] => None
  | c :: s' =>
      if (c =? 34)%N then Some ([], s')
      else if (c =? 92)%N then
        match s' with
        | e :: s'' =>
            if (e =? 117)%N then
              match s'' with
              | h1 :: h2 :: h3 :: h4 :: s3 =>
                  match hex4 h1 h2 h3 h4 with
                  | Some u =>
                      match parse_chars s3 with
                      | Some (v, r) => Some (u :: v, r)
                      | None => None
                      end
                  | None => None
                  end
              | _ => None
              end
            else
              match escape e with
              | Some x =>
                  match parse_chars s'' with
                  | Some (v, r) => Some (x :: v, r)
                  | None => None
                  end
              | None => None
              end
        | [] => None
        end
      else if (c <? 32)%N then None
      else match parse_chars s' with
           | Some (v, r) => Some (c :: v, r)
           | None => None
           end
  end.

(** A run of decimal digits: its value, its length and the rest. *)
Fixpoint digits (acc : Z) (n : Z) (s : jsstring) : Z * Z * jsstring :=
  match s with
  | c :: s' =>
      if is_digit c then digits (acc * 10 + Z.of_N (c - 48)) (n + 1) s'
      else (acc, n, s)
  | [] => (acc, n, s)
  end.

(** The integer part: [0], or a run of digits that does not start
    at [0]. *)
Definition int_part (s : jsstring) : option (Z * jsstring) :=
  match s with
  | d :: s' =>
      if is_digit d then
        if (d =? 48)%N then Some (0%Z, s')
        else let '(m, _, r) := digits 0 0 s in Some (m, r)
      else None
  | [] => None
  end.

(** The fraction [. digit+] after the mantissa [m]: the mantissa
    extended by the fraction digits and their number. *)
Definition frac_part (m : Z) (s : jsstring) : Z * Z * jsstring :=
  match s with
  | dot :: d1 :: _ =>
      if ((dot =? 46)%N && is_digit d1) then digits m 0 (tl s)
      else (m, 0%Z, s)
  | _ => (m, 0%Z, s)
  end.

(** The exponent [[eE] [+-]? digit+]; [None] when an exponent mark is
    not followed by digits. *)
Definition exp_part (s : jsstring) : option (Z * jsstring) :=
  match s with
  | e :: s' =>
      if ((e =? 101) || (e =? 69))%N then
        let (eneg, s'') :=
          match s' with
          | sg :: t =>
              if (sg =? 45)%N then (true, t)
              else if (sg =? 43)%N then (false, t)
              else (false, s')
          | [] => (false, s')
          end in
        match s'' with
        | d1 :: _ =>
            if is_digit d1 then
              let '(x, _, r) := digits 0 0 s'' in
              Some (if eneg then (- x)%Z else x, r)
            else None
        | [] => None
        end
      else Some (0%Z, s)
  | [] => Some (0%Z, s)
  end.

(** [-? int frac? exp?]; the value is kept exactly. *)
Definition parse_number (s : jsstring) : option (number * jsstring) :=
  let (neg, s1) :=
    match s with
    | c :: s' => if (c =? 45)%N then (true, s') else (false, s)
    | [] => (false, s)
    end in
  match int_part s1 with
  | Some (m, s3) =>
      let '(m, fl, s4) := frac_part m s3 in
      match exp_part s4 with
      | Some (x, s5) =>
          let v := (inject_Z m * Qpower 10 (x - fl))%Q in
          Some (if neg then Qopp v else v, s5)
      | None => None
      end
  | None => None
  end.

Fixpoint parse_value (fuel : nat) (s : jsstring) {struct fuel}
  : option (json * jsstring) :=
  match fuel with
  | O => None
  | S f =>
      match s with
      | [] => None
      | c :: s' =>
          if (c =? 123)%N then                       (* { *)
            match skip_ws s' with
            | d :: r =>
                if (d =? 125)%N then Some (JObject [], r)
                else match parse_members f (d :: r) with
                     | Some (ps, r') => Some (JObject ps, r')
                     | None => None
                     end
            | [] => None
            end
          else if (c =? 91)%N then                   (* [ *)
            match skip_ws s' with
            | d :: r =>
                if (d =? 93)%N then Some (JArray [], r)
                else match parse_elements f (d :: r) with
                     | Some (vs, r') => Some (JArray vs, r')
                     | None => None
                     end
            | [] => None
            end
          else if (c =? 34)%N then                   (* string *)
            match parse_chars s' with
            | Some (v, r) => Some (JString v, r)
            | None => None
            end
          else if (c =? 116)%N then
            match strip_prefix (str "true") s with
            | Some r => Some (JBool true, r)
            | None => None
            end
          else if (c =? 102)%N then
            match strip_prefix (str "false") s with
            | Some r => Some (JBool false, r)
            | None => None
            end
          else if (c =? 110)%N then
            match strip_prefix (str "null") s with
            | Some r => Some (JNull, r)
            | None => None
            end
          else
            match parse_number s with
            | Some (v, r) => Some (JNumber v, r)
            | None => None
            end
      end
  end

(** The elements of an array from the first one on, up to and including
    the closing bracket. *)
with parse_elements (fuel : nat) (s : jsstring) {struct fuel}
  : option (list json * jsstring) :=
  match fuel with
  | O => None
  | S f =>
      match parse_value f s with
      | Some (v, r) =>
          match skip_ws r with
          | c :: r' =>
              if (c =? 44)%N then
                match parse_elements f (skip_ws r') with
                | Some (vs, r'') => Some (v :: vs, r'')
                | None => None
                end
              else if (c =? 93)%N then Some ([v], r')
              else None
          | [] => None
          end
      | None => None
      end
  end

(** The members of an object from the first one on, up to and including
    the closing brace. *)
with parse_members (fuel : nat) (s : jsstring) {struct fuel}
  : option (list (jsstring * json) * jsstring) :=
  match fuel with
  | O => None
  | S f =>
      match s with
      | q :: s' =>
          if (q =? 34)%N then
            match parse_chars s' with
            | Some (key, r) =>
                match skip_ws r with
                | c :: r' =>
                    if (c =? 58)%N then
                      match parse_value f (skip_ws r') with
                      | Some (v, r'') =>
                          match skip_ws r'' with
                          | d :: r3 =>
                              if (d =? 44)%N then
                                match parse_members f (skip_ws r3) with
                                | Some (ps, r4) => Some ((key, v) :: ps, r4)
                                | None => None
                                end
                              else if (d =? 125)%N then Some ([(key, v)], r3)
                              else None
                          | [] => None
                          end
                      | None => None
                      end
                    else None
                | [] => None
                end
            | None => None
            end
          else None
      | [] => None
      end
  end.

(** [JSON.parse(text)]; [None] is the [SyntaxError]. *)
Definition JSON_parse (text : jsstring) : option json :=
  match parse_value (S (List.length text)) (skip_ws text) with
  | Some (v, r) =>
      match skip_ws r with
      | [] => Some v
      | _ :: _ => None
      end
  | None => None
  end.

(** *** Reading parsed data *)

(** An own property of an object; a later duplicate key wins. *)
Fixpoint lookup (name : jsstring) (props : list (jsstring * json))
  : option json :=
  match props with
  | [] => None
  | (k, v) :: rest =>
      match lookup name rest with
      | Some v' => Some v'
      | None => if jsstring_eqb k name then Some v else None
      end
  end.

(** [v.name] for [v] other than [null]: [None] is [undefined].  None of
    the names read by the sources is a property of the prototypes of
    arrays, strings, numbers or booleans. *)
Definition get (v : json) (name : jsstring) : option json :=
  match v with
  | JObject props => lookup name props
  | _ => None
  end.

(** The double nearest to a number is zero exactly when its magnitude
    is at most half the least positive double. *)
Definition rounds_to_zero (v : number) : bool :=
  Qle_bool (Qabs v) (Qpower 2 (-1075)).

(** Truthiness of a value read from parsed data. *)
Definition truthy (v : option json) : bool :=
  match v with
  | None => false
  | Some JNull => false
  | Some (JBool b) => b
  | Some (JNumber q) => negb (rounds_to_zero q)
  | Some (JString s) => truthy_string s
  | Some (JArray _) => true
  | Some (JObject _) => true
  end.

(** [v === "..."] against a string literal. *)
Definition is_string (v : option json) (lit : jsstring) : bool :=
  match v with
  | Some (JString s) => jsstring_eqb s lit
  | _ => false
  end.

Definition Array_isArray (v : option json) : bool :=
  match v with
  | Some (JArray _) => true
  | _ => false
  end.

End JSON.
Import JSON.

(* ================================================================== *)
(** ** Promises and exceptions *)
(* ================================================================== *)

Module Async.

Inductive exn : Type :=
| Error (message : jsstring)     (* new Error(message) *)
| TypeError                      (* raised by the engine itself *)
| ErrorEvent                     (* the event handed to [img.onerror] *)
| ProcessError (cause : exn).    (* new Error(`Failed to process image: ${cause.message}`) *)

(** The final state of a promise; [Pending] is a promise that is never
    settled. *)
Inductive promise (A : Type) : Type :=
| Fulfilled (a : A)
| Rejected (e : exn)
| Pending.

Arguments Fulfilled {A} a.
Arguments Rejected {A} e.
Arguments Pending {A}.

(** [await p] followed by the rest of an async function. *)
Definition await {A B : Type} (p : promise A) (k : A -> promise B)
  : promise B :=
  match p with
  | Fulfilled a => k a
  | Rejected e => Rejected e
  | Pending => Pending
  end.

End Async.
Import Async.

(* ================================================================== *)
(** ** The browser: images and canvases *)
(* ================================================================== *)

Module DOM.

(** A decoded image: [img.width] and [img.height]. *)
Record Image : Type := {
  img_width : number;
  img_height : number
}.

(** The arguments of [ctx.drawImage(img, sx, sy, sw, sh, dx, dy, dw, dh)]. *)
Record DrawCall : Type := {
  sx : number; sy : number; sw : number; sh : number;
  dx : number; dy : number; dw : number; dh : number
}.

(** A canvas: the dimensions assigned to it (which the browser then
    converts to integers) and the calls drawn on it. *)
Record Canvas : Type := {
  canvas_width : number;
  canvas_height : number;
  drawn : list DrawCall
}.

(** What the sources take from the browser. *)
Record Browser : Type := {
  (** loading [img.src = url]: the decoded image, or [None] when the
      error event fires *)
  load : jsstring -> option Image;
  (** whether [canvas.getContext('2d')] yields a context *)
  getContext : Canvas -> bool;
  (** [canvas.toDataURL('image/jpeg', 1.0)] *)
  toDataURL : Canvas -> jsstring;
  (** [atob(data)], [None] when it throws *)
  atob : jsstring -> option jsstring
}.

Definition jpeg_url (base64 : jsstring) : jsstring :=
  str "data:image/jpeg;base64," ++ base64.

End DOM.
Import DOM.

(* ================================================================== *)
(** ** The region cropper ([cropImageFromBase64]) *)
(* ================================================================== *)

Module Cropper.

Local Open Scope Q_scope.

(** [box : number[]], destructured as [[ymin, xmin, ymax, xmax]]: the
    four numbers of a bounding box.  An array of fewer than four numbers
    destructures to [undefined] entries and is not a box of the model. *)
Record BoundingBox : Type := {
  ymin : number;
  xmin : number;
  ymax : number;
  xmax : number
}.

(** A run of the cropper: how its promise settles and the canvas it
    created, if any. *)
Record crop_run : Type := {
  settled : promise (option jsstring);
  canvas : option Canvas
}.

(** [a <= 0] *)
Definition nonpositive (a : number) : bool := Qle_bool a 0.

Definition cropImageFromBase64 (B : Browser) (originalBase64 : jsstring)
           (box : BoundingBox) : crop_run :=
  match load B (jpeg_url originalBase64) with
  | None => {| settled := Rejected ErrorEvent; canvas := None |}
  | Some img =>
      let realWidth := img_width img in
      let realHeight := img_height img in
      (* Convert 0-1000 scale to pixels *)
      let y1 := (ymin box / 1000) * realHeight in
      let x1 := (xmin box / 1000) * realWidth in
      let y2 := (ymax box / 1000) * realHeight in
      let x2 := (xmax box / 1000) * realWidth in
      let width := x2 - x1 in
      let height := y2 - y1 in
      if nonpositive width || nonpositive height then
        (* Fallback if box is invalid *)
        {| settled := Fulfilled (Some []); canvas := None |}
      else
        let blank := {| canvas_width := width; canvas_height := height;
                        drawn := [] |} in
        if negb (getContext B blank) then
          {| settled := Rejected (Error (str "Could not get canvas context"));
             canvas := Some blank |}
        else
          (* Draw the specific slice *)
          let painted :=
            {| canvas_width := width; canvas_height := height;
               drawn := [ {| sx := x1; sy := y1; sw := width; sh := height;
                             dx := 0; dy := 0; dw := width; dh := height |} ]
            |} in
          let croppedDataUrl := toDataURL B painted in
          {| settled := Fulfilled (nth_error (split (ch ",") croppedDataUrl) 1);
             canvas := Some painted |}
  end.



End Cropper.
Import Cropper.

(* ================================================================== *)
(** ** The response parser and assembler ([transcribeImage]) *)
(* ================================================================== *)

Module Gemini.

(** [/^```json\s*/] *)
Definition re_fence_open : regex :=
  seq [Bol; lit "```json"; StarG space].

(** [/\s*```$/] *)
Definition re_fence_close : regex :=
  seq [StarG space; lit "```"; Eol].

(** Clean potential markdown code fences. *)
Definition strip_fences (jsonText : jsstring) : jsstring :=
  String_replace (String_replace jsonText re_fence_open []) re_fence_close [].

(** [response.text || "{}"]; [None] is a response without text. *)
Definition text_or_default (text : option jsstring) : jsstring :=
  match text with
  | Some t => if truthy_string t then t else str "{}"
  | None => str "{}"
  end.

(** Truthiness of the value a crop resolves to; [None] is [undefined]. *)
Definition truthy_result (v : option jsstring) : bool :=
  match v with
  | Some s => truthy_string s
  | None => false
  end.

Definition figure_markdown (croppedBase64 : option jsstring) : jsstring :=
  str "![Figure](data:image/jpeg;base64,"
  ++ match croppedBase64 with Some b => b | None => str "undefined" end
  ++ str ")" ++ [newline; newline].

Section Parser.

(** The browser the page runs in. *)
Variable B : Browser.

(** The cropper on a [box_2d] that is not an array starting with four
    numbers: what the coercions of JavaScript make of such a value is
    left open. *)
Variable crop_untyped : jsstring -> json -> promise (option jsstring).

(** [cropImageFromBase64(base64Image, part.box_2d)] *)
Definition crop (base64Image : jsstring) (box_2d : json)
  : promise (option jsstring) :=
  match box_2d with
  | JArray (JNumber a :: JNumber b :: JNumber c :: JNumber d :: _) =>
      settled (cropImageFromBase64 B base64Image
                 {| ymin := a; xmin := b; ymax := c; xmax := d |})
  | _ => crop_untyped base64Image box_2d
  end.

(** One iteration of the loop over [data.parts]. *)
Definition part_step (base64Image : jsstring) (part : json)
           (finalMarkdown : jsstring) : promise jsstring :=
  match part with
  | JNull => Rejected TypeError            (* part.type on null *)
  | _ =>
      if is_string (get part (str "type")) (str "text")
         && truthy (get part (str "content"))
      then
        match get part (str "content") with
        | Some (JString textContent) =>
            Fulfilled (finalMarkdown ++ normalize textContent
                                     ++ [newline; newline])
        | _ => Rejected TypeError          (* textContent.replace is not a function *)
        end
      else if is_string (get part (str "type")) (str "figure")
              && truthy (get part (str "box_2d"))
      then
        match get part (str "box_2d") with
        | Some box_2d =>
            match crop base64Image box_2d with
            | Fulfilled croppedBase64 =>
                if truthy_result croppedBase64
                then Fulfilled (finalMarkdown ++ figure_markdown croppedBase64)
                else Fulfilled finalMarkdown
            | Rejected cropErr => Fulfilled finalMarkdown   (* console.warn *)
            | Pending => Pending
            end
        | None => Fulfilled finalMarkdown
        end
      else Fulfilled finalMarkdown
  end.

(** [for (const part of data.parts) { ... }] *)
Fixpoint parts_loop (base64Image : jsstring) (parts : list json)
         (finalMarkdown : jsstring) : promise jsstring :=
  match parts with
  | [] => Fulfilled finalMarkdown
  | part :: rest =>
      await (part_step base64Image part finalMarkdown)
            (parts_loop base64Image rest)
  end.

(** Reconstruction from parsed data. *)
Definition reconstruct (base64Image : jsstring) (data : json)
  : promise jsstring :=
  match data with
  | JNull => Rejected TypeError            (* data.parts on null *)
  | _ =>
      if negb (truthy (get data (str "parts")))
         || negb (Array_isArray (get data (str "parts")))
      then Fulfilled []
      else
        match get data (str "parts") with
        | Some (JArray parts) => parts_loop base64Image parts []
        | _ => Fulfilled []
        end
  end.

(** The parser step: everything [transcribeImage] does with the text
    of the response, inside its [try] block. *)
Definition parse_response (base64Image : jsstring) (text : option jsstring)
  : promise jsstring :=
  let jsonText := text_or_default text in
  let jsonText := strip_fences jsonText in
  match JSON_parse jsonText with
  | None => Fulfilled jsonText                     (* Fallback *)
  | Some data => reconstruct base64Image data
  end.

(** The environment variable and the model call. *)
Variable API_KEY : option jsstring.
Variable generateContent : jsstring -> jsstring -> promise (option jsstring).

Definition transcribeImage (base64Image mimeType : jsstring)
  : promise jsstring :=
  if negb (truthy_result API_KEY) then
    Rejected (Error (str "API Key is missing. Please set the API_KEY environment variable."))
  else
    match await (generateContent base64Image mimeType)
                (parse_response base64Image) with
    | Rejected error => Rejected (ProcessError error)
    | settled => settled
    end.

End Parser.

End Gemini.
Import Gemini.


(* ================================================================== *)
(** ** Processed pages and the image reference of the exporters *)
(* ================================================================== *)

Module Pages.

Record ProcessedPage : Type := {
  pageNumber : number;
  imageUrl : jsstring;
  markdown : jsstring
}.

(** [/!\[.*?\]\((data:image\/.*?;base64,(.*?))\)/] *)
Definition re_image : regex :=
  seq [lit "!["; StarL dot; lit "]("; 
       Grp 1 (seq [lit "data:image/"; StarL dot; lit ";base64,";
                   Grp 2 (StarL dot)]);
       lit ")"].

(** [imageMatch && imageMatch[n]] *)
Definition matched_group (imageMatch : option match_object) (n : nat)
  : option jsstring :=
  match imageMatch with
  | Some m =>
      match group m n with
      | Some g => if truthy_string g then Some g else None
      | None => None
      end
  | None => None
  end.

End Pages.
Import Pages.

(* ================================================================== *)
(** ** The clipboard exporter ([copyToClipboard]) *)
(* ================================================================== *)

Module Clipboard.

Definition re_amp : regex := Cls (only "&").
Definition re_lt : regex := Cls (only "<").
Definition re_gt : regex := Cls (only ">").

(** Escape HTML entities for the text content. *)
Definition escape_html (line : jsstring) : jsstring :=
  String_replaceAll
    (String_replaceAll
       (String_replaceAll line re_amp (str "&amp;"))
       re_lt (str "&lt;"))
    re_gt (str "&gt;").

Definition img_element (url : jsstring) : jsstring :=
  str "<p align=" ++ [dquote] ++ str "center" ++ [dquote]
  ++ str "><img src=" ++ [dquote] ++ url ++ [dquote]
  ++ str " style=" ++ [dquote] ++ str "max-width: 400px;" ++ [dquote]
  ++ str " /></p>".

Definition text_element (safeText : jsstring) : jsstring :=
  str "<p style=" ++ [dquote]
  ++ str "font-family: 'Times New Roman', serif; font-size: 12pt; margin-bottom: 8px;"
  ++ [dquote] ++ str ">" ++ safeText ++ str "</p>".

(** What one line of Markdown adds to [htmlContent]. *)
Definition html_of_line (line : jsstring) : jsstring :=
  let imageMatch := String_match line re_image in
  match matched_group imageMatch 1 with
  | Some url => img_element url
  | None =>
      let safeText := escape_html line in
      if truthy_string (trim safeText) then text_element safeText else []
  end.

Definition html_of_page (page : ProcessedPage) : jsstring :=
  List.concat (map html_of_line (split newline (markdown page)))
  ++ str "<br/><hr/><br/>".

Definition htmlContent (pages : list ProcessedPage) : jsstring :=
  List.concat (map html_of_page pages).

(** Wrap in full HTML structure. *)
Definition fullHtml (pages : list ProcessedPage) : jsstring :=
  [newline] ++ str "      <!DOCTYPE html>" ++
  [newline] ++ str "      <html>" ++
  [newline] ++ str "      <body>" ++
  [newline] ++ str "        " ++ htmlContent pages ++
  [newline] ++ str "      </body>" ++
  [newline] ++ str "      </html>" ++
  [newline] ++ str "    ".

Definition plainText (pages : list ProcessedPage) : jsstring :=
  join [newline; newline] (map markdown pages).

(** The item handed to [navigator.clipboard.write]. *)
Record ClipboardItem : Type := {
  text_plain : jsstring;
  text_html : jsstring
}.

(** What the user observes: the item written, if the write went through,
    and the alert shown. *)
Record clipboard_run : Type := {
  written : option ClipboardItem;
  alert : jsstring
}.

(** [write_ok] tells whether building the item and writing it succeed. *)
Definition copyToClipboard (write_ok : bool) (pages : list ProcessedPage)
  : clipboard_run :=
  let item := {| text_plain := plainText pages;
                 text_html := fullHtml pages |} in
  if write_ok then
    {| written := Some item;
       alert := str "Copied to clipboard! Paste into Word and use MathType > Toggle TeX." |}
  else
    {| written := None;
       alert := str "Failed to copy to clipboard. Permission denied or browser not supported." |}.

End Clipboard.
Import Clipboard.

(* ================================================================== *)
(** ** The word-processor exporter ([generateDocx]) *)
(* ================================================================== *)

Module Docx.

Local Open Scope Q_scope.

Inductive Run : Type :=
| TextRun (text : jsstring) (font : jsstring) (size : N)
| ImageRun (data : jsstring) (width height : number).

Inductive Paragraph : Type :=
| ParagraphText (text : jsstring)           (* new Paragraph({ text }) *)
| ParagraphChildren (children : list Run)   (* new Paragraph({ children }) *)
| ParagraphPageBreak.                       (* new Paragraph({ pageBreakBefore: true }) *)

(** Helper to get image dimensions; 400 by 300 is the fallback default. *)
Definition getImageDimensions (B : Browser) (base64 : jsstring) : Image :=
  match load B (jpeg_url base64) with
  | Some img => {| img_width := img_width img; img_height := img_height img |}
  | None => {| img_width := 400; img_height := 300 |}
  end.

Definition MAX_WIDTH : number := 600.

(** [a > b] *)
Definition greater (a b : number) : bool := negb (Qle_bool a b).

(** Scale down if too large, maintain aspect ratio. *)
Definition final_size (dims : Image) : number * number :=
  let finalWidth := img_width dims in
  let finalHeight := img_height dims in
  if greater finalWidth MAX_WIDTH then
    let ratio := MAX_WIDTH / finalWidth in
    (MAX_WIDTH, finalHeight * ratio)
  else (finalWidth, finalHeight).

(** The body of the [try] block for an image line, with its [catch]. *)
Definition image_paragraph (B : Browser) (base64Data : jsstring) : Paragraph :=
  let dims := getImageDimensions B base64Data in
  let (finalWidth, finalHeight) := final_size dims in
  match atob B base64Data with
  | Some imageBuffer =>
      ParagraphChildren [ImageRun imageBuffer finalWidth finalHeight]
  | None => ParagraphText (str "[Image Error]")
  end.

(** Standard text paragraph: Times New Roman, 12pt. *)
Definition text_paragraph (line : jsstring) : Paragraph :=
  ParagraphChildren [TextRun line (str "Times New Roman") 24].

Definition paragraph_of_line (B : Browser) (line : jsstring) : Paragraph :=
  if negb (truthy_string (trim line)) then ParagraphText []
  else
    let imageMatch := String_match line re_image in
    match matched_group imageMatch 2 with
    | Some base64Data => image_paragraph B base64Data
    | None => text_paragraph line
    end.

Definition paragraphs_of_page (B : Browser) (page : ProcessedPage)
  : list Paragraph :=
  map (paragraph_of_line B) (split newline (markdown page))
  ++ [ParagraphPageBreak].

(** The children of the single section of the document. *)
Definition generateDocx (B : Browser) (pages : list ProcessedPage)
  : list Paragraph :=
  List.concat (map (paragraphs_of_page B) pages).

End Docx.
Import Docx.

(* ================================================================== *)
(** ** Reading files ([blobToBase64], [getPreviewUrl], [convertPdfToImages]) *)
(* ================================================================== *)

Module Files.

(** A page of a PDF document as PDF.js and the canvas present it:
    whether the canvas of the page yields a 2d context, and the data URL
    of that canvas once the page is rendered on it (or the failure of
    the rendering). *)
Record PdfPage : Type := {
  page_context : bool;
  page_render : promise jsstring
}.

(** A file as the browser presents it: its media type, what a
    [FileReader] reads from it as a data URL ([None]: the reader fails)
    and what PDF.js makes of its bytes. *)
Record File : Type := {
  file_type : jsstring;
  read_result : option jsstring;
  pdf_document : promise (list PdfPage)
}.

(** [result.split(',')[1]]; [None] is [undefined]. *)
Definition after_comma (result : jsstring) : option jsstring :=
  nth_error (split (ch ",") result) 1.

(** Helper to convert Blob to Base64. *)
Definition blobToBase64 (blob : File) : promise (option jsstring) :=
  match read_result blob with
  | Some result => Fulfilled (after_comma result)
  | None => Rejected ErrorEvent
  end.

(** The reader of [getPreviewUrl] has no error handler. *)
Definition getPreviewUrl (file : File) : promise jsstring :=
  match read_result file with
  | Some result => Fulfilled result
  | None => Pending
  end.

(** [for (let i = 1; i <= pdf.numPages; i++) { ... }] *)
Fixpoint render_pages (pages : list PdfPage) (images : list (option jsstring))
  : promise (list (option jsstring)) :=
  match pages with
  | [] => Fulfilled images
  | page :: rest =>
      if page_context page then
        await (page_render page)
              (fun dataUrl =>
                 render_pages rest (images ++ [after_comma dataUrl]))
      else render_pages rest images
  end.

(** Helper to render PDF pages to Images using PDF.js. *)
Definition convertPdfToImages (file : File)
  : promise (list (option jsstring)) :=
  await (pdf_document file) (fun pages => render_pages pages []).

End Files.
Import Files.

(* ================================================================== *)
(** ** The application state ([handleProcess], [handleUpdateMarkdown]) *)
(* ================================================================== *)

Module App.

(** [error] holds the message of an error; it is kept here as the error
    the message belongs to. *)
Record AppState : Type := {
  isProcessing : bool;
  files : list File;
  processedPages : list ProcessedPage;
  error : option exn
}.

(** [i + 1] for an index [i]. *)
Definition page_number (i : nat) : number := inject_Z (Z.of_nat (S i)).

(** The images to process: the pages of a PDF, or the one image that
    the file is; [None] is [undefined]. *)
Definition images_of (file : File) : promise (list (option jsstring)) :=
  if jsstring_eqb (file_type file) (str "application/pdf")
  then convertPdfToImages file
  else await (blobToBase64 file) (fun base64 => Fulfilled [base64]).

Section Processing.

Variable B : Browser.
Variable crop_untyped : jsstring -> json -> promise (option jsstring).
Variable API_KEY : option jsstring.
Variable generateContent : jsstring -> jsstring -> promise (option jsstring).

(** The loop over [images] from index [i] on: the pages the state holds
    when the loop is left, and how it is left.  What the transcription
    of an image that is [undefined] does is outside the model ([None]). *)
Fixpoint process_images (i : nat) (images : list (option jsstring))
         (results : list ProcessedPage)
  : option (list ProcessedPage * promise unit) :=
  match images with
  | [] => Some (results, Fulfilled tt)
  | None :: _ => None
  | Some image :: rest =>
      match transcribeImage B crop_untyped API_KEY generateContent
                            image (str "image/jpeg") with
      | Fulfilled markdown =>
          process_images (S i) rest
            (results ++ [ {| pageNumber := page_number i;
                             imageUrl := image;
                             markdown := markdown |} ])
      | Rejected e => Some (results, Rejected e)
      | Pending => Some (results, Pending)
      end
  end.

(** The state once [handleProcess] has run as far as it gets. *)
Definition handleProcess (state : AppState) : option AppState :=
  match files state with
  | [] => Some state
  | file :: _ =>
      match images_of file with
      | Fulfilled images =>
          match process_images 0 images [] with
          | Some (pages, Fulfilled _) =>
              Some {| isProcessing := false; files := files state;
                      processedPages := pages; error := None |}
          | Some (pages, Rejected e) =>
              Some {| isProcessing := false; files := files state;
                      processedPages := pages; error := Some e |}
          | Some (pages, Pending) =>
              Some {| isProcessing := true; files := files state;
                      processedPages := pages; error := None |}
          | None => None
          end
      | Rejected e =>
          Some {| isProcessing := false; files := files state;
                  processedPages := []; error := Some e |}
      | Pending =>
          Some {| isProcessing := true; files := files state;
                  processedPages := []; error := None |}
      end
  end.

End Processing.

(** [newPages[index] = { ...newPages[index], markdown: newMarkdown }]
    for an index of the list. *)
Fixpoint update_markdown (index : nat) (newMarkdown : jsstring)
         (pages : list ProcessedPage) : list ProcessedPage :=
  match pages, index with
  | [], _ => []
  | page :: rest, O =>
      {| pageNumber := pageNumber page; imageUrl := imageUrl page;
         markdown := newMarkdown |} :: rest
  | page :: rest, S index' => page :: update_markdown index' newMarkdown rest
  end.

(** [handleUpdateMarkdown]; beyond the end of the list the assignment
    leaves entries that are not pages, and the state is outside the
    model ([None]). *)
Definition handleUpdateMarkdown (index : nat) (newMarkdown : jsstring)
           (state : AppState) : option AppState :=
  if Nat.ltb index (List.length (processedPages state)) then
    Some {| isProcessing := isProcessing state; files := files state;
            processedPages :=
              update_markdown index newMarkdown (processedPages state);
            error := error state |}
  else None.

(** [clearAll] *)
Definition clearAll : AppState :=
  {| isProcessing := false; files := []; processedPages := []; error := None |}.

End App.
Import App.

(* ================================================================== *)
(** ** Vocabulary of the statements *)
(* ================================================================== *)

Module Matching.

(** [steps r] relates the position before a run of [r] to a position
    after it: the declarative reading of the pattern. *)
Fixpoint steps (r : regex) (i : nat) (s : jsstring) (caps : captures)
         (i' : nat) (s' : jsstring) (caps' : captures) : Prop :=
  match r with
  | Eps => i' = i /\ s' = s /\ caps' = caps
  | Cls p => exists c, s = c :: s' /\ p c = true /\ i' = S i /\ caps' = caps
  | Seq r1 r2 =>
      exists i1 s1 caps1,
        steps r1 i s caps i1 s1 caps1 /\ steps r2 i1 s1 caps1 i' s' caps'
  | StarG p | StarL p =>
      exists w, s = w ++ s' /\ forallb p w = true /\
                i' = i + List.length w /\ caps' = caps
  | OptG p =>
      (i' = i /\ s' = s /\ caps' = caps) \/
      (exists c, s = c :: s' /\ p c = true /\ i' = S i /\ caps' = caps)
  | Grp n r' =>
      exists caps1,
        steps r' i s caps i' s' caps1 /\
        caps' = (n, firstn (i' - i) s) :: caps1
  | NotAhead p =>
      i' = i /\ s' = s /\ caps' = caps /\
      match s with [] => True | c :: _ => p c = false end
  | Bol => i = 0 /\ i' = i /\ s' = s /\ caps' = caps
  | Eol => s = [] /\ i' = i /\ s' = s /\ caps' = caps
  end.

Definition succeeds (o : option result) : bool :=
  match o with Some _ => true | None => false end.

(** The text before the first backslash. *)
Fixpoint stem (s : jsstring) : jsstring :=
  match s with
  | [] => []
  | c :: s' => if (c =? 92)%N then [] else c :: stem s'
  end.

(** At the end of the text or in front of a backslash. *)
Definition blocked (s : jsstring) : Prop :=
  match s with [] => True | c :: _ => c = 92%N end.

(** Patterns without anchors whose classes all reject the backslash
    (a negative lookahead on such a class lets the backslash through,
    as it lets the end of the text through). *)
Fixpoint plain (r : regex) : Prop :=
  match r with
  | Eps => True
  | Cls p | StarG p | StarL p | OptG p | NotAhead p => p 92%N = false
  | Seq r1 r2 => plain r1 /\ plain r2
  | Grp _ r' => plain r'
  | Bol | Eol => False
  end.

Definition stem_blind (k1 k2 : nat -> jsstring -> option result) : Prop :=
  forall j1 j2 t1 t2,
    stem t1 = stem t2 -> succeeds (k1 j1 t1) = succeeds (k2 j2 t2).

(** A pattern that only matches at a backslash. *)
Definition headed (q : regex) : Prop :=
  forall i s, (forall t, s <> 92%N :: t) -> match_at q i s = None.

(** A pattern whose success at a backslash depends on the stem of what
    follows only. *)
Definition stable (q : regex) : Prop :=
  forall i1 i2 s1 s2,
    stem s1 = stem s2 ->
    succeeds (match_at q i1 (92%N :: s1)) = succeeds (match_at q i2 (92%N :: s2)).

(** No suffix of the text is matched. *)
Fixpoint nomatch (q : regex) (s : jsstring) : Prop :=
  (forall j, match_at q j s = None) /\
  match s with [] => True | _ :: s' => nomatch q s' end.

(** The pattern [q] only matches where the pattern [r] matches. *)
Fixpoint dominated (r q : regex) (s : jsstring) : Prop :=
  (forall i j, match_at r i s = None -> match_at q j s = None) /\
  match s with [] => True | _ :: s' => dominated r q s' end.

(** [\\] followed by [a] and then [b]. *)
Definition led (a b : regex) : regex := Seq (Seq (Cls (only "\")) a) b.

(** What follows [\\angle] in the two angle patterns. *)
Definition angle3_rest : regex :=
  seq [StarG space; OptG (only "{");
       Grp 1 (seq [Cls upper; Cls upper; Cls upper]); OptG (only "}")].

Definition angle1_rest : regex :=
  seq [StarG space; OptG (only "{");
       Grp 1 (Cls upper); OptG (only "}"); NotAhead upper].

(** Patterns without the anchor of the start: their matches do not
    depend on the index. *)
Fixpoint unanchored (r : regex) : Prop :=
  match r with
  | Bol => False
  | Seq r1 r2 => unanchored r1 /\ unanchored r2
  | Grp _ r' => unanchored r'
  | _ => True
  end.

(** A result moved [d] code units to the right. *)
Definition shifted (d : nat) (o : option result) : option result :=
  match o with
  | Some (e, rest, caps) => Some (e + d, rest, caps)
  | None => None
  end.

(** The text begins with a code unit of the class. *)
Definition begins (p : cclass) (s : jsstring) : bool :=
  match s with c :: _ => p c | [] => false end.

(** An optional brace. *)
Definition brace (present : bool) (b : string) : jsstring :=
  if present then str b else [].

End Matching.
Import Matching.

Module Parsing.

(** With fuel [n] a successful parse leaves a shorter text, and it is
    found again with any fuel that covers the text consumed. *)
Definition settled_value (n : nat) : Prop :=
  forall s v r,
    parse_value n s = Some (v, r) ->
    List.length r < List.length s /\
    forall m, List.length s - List.length r <= m -> parse_value m s = Some (v, r).

Definition settled_elements (n : nat) : Prop :=
  forall s v r,
    parse_elements n s = Some (v, r) ->
    List.length r < List.length s /\
    forall m, List.length s - List.length r <= m ->
              parse_elements m s = Some (v, r).

Definition settled_members (n : nat) : Prop :=
  forall s v r,
    parse_members n s = Some (v, r) ->
    List.length r < List.length s /\
    forall m, List.length s - List.length r <= m ->
              parse_members m s = Some (v, r).

End Parsing.
Import Parsing.

Module Fixtures.

Local Open Scope Q_scope.

(** A response text wrapped in code fences around text that is not JSON. *)
Definition fenced_hello : jsstring :=
  str "```json" ++ [newline] ++ str "hello" ++ [newline] ++ str "```".

(** A browser in which a 100 by 100 page image loads, a context is
    available and the encoder answers with a JPEG data URL. *)
Definition page_image : Image := {| img_width := 100; img_height := 100 |}.

Definition page_browser : Browser :=
  {| load := fun _ => Some page_image;
     getContext := fun _ => true;
     toDataURL := fun _ => str "data:image/jpeg;base64,QUJD";
     atob := fun s => Some s |}.

(** A browser in which every image measures 1200 by 800. *)
Definition wide_browser : Browser :=
  {| load := fun _ => Some {| img_width := 1200; img_height := 800 |};
     getContext := fun _ => true;
     toDataURL := fun _ => str "data:image/jpeg;base64,QUJD";
     atob := fun s => Some s |}.


(** Upside down: its lower edge lies above its upper edge. *)
Definition inverted_box : BoundingBox :=
  {| ymin := 700; xmin := 100; ymax := 300; xmax := 900 |}.

(** A figure in the upper left part of the page. *)
Definition figure_box : BoundingBox :=
  {| ymin := 100; xmin := 200; ymax := 500; xmax := 800 |}.

(** The data URL of an image reference. *)
Definition data_url (mime payload : jsstring) : jsstring :=
  str "data:image/" ++ mime ++ str ";base64," ++ payload.

(** The image reference [![alt](data:image/mime;base64,payload)]. *)
Definition image_reference (alt mime payload : jsstring) : jsstring :=
  str "![" ++ alt ++ str "](" ++ data_url mime payload ++ str ")".


(** A PNG image as a reader presents it. *)
Definition png_file : File :=
  {| file_type := str "image/png";
     read_result := Some (str "data:image/png;base64,iVBORw0KGgo=");
     pdf_document := Rejected (Error (str "Invalid PDF structure")) |}.

(** A PDF of three pages, the second of which gets no canvas context. *)
Definition three_pages : list PdfPage :=
  [ {| page_context := true;
       page_render := Fulfilled (str "data:image/jpeg;base64,UDE=") |};
    {| page_context := false;
       page_render := Fulfilled (str "data:image/jpeg;base64,UDI=") |};
    {| page_context := true;
       page_render := Fulfilled (str "data:image/jpeg;base64,UDM=") |} ].

Definition three_page_pdf : File :=
  {| file_type := str "application/pdf";
     read_result := Some (str "data:application/pdf;base64,JVBERi0=");
     pdf_document := Fulfilled three_pages |}.

(** A model call that fails. *)
Definition failing_backend : jsstring -> jsstring -> promise (option jsstring) :=
  fun _ _ => Rejected (Error (str "503 Service Unavailable")).

(** A browser in which no image loads. *)
Definition blind_browser : Browser :=
  {| load := fun _ => None;
     getContext := fun _ => true;
     toDataURL := fun _ => str "data:image/jpeg;base64,QUJD";
     atob := fun s => Some s |}.


(** Parts of a response: a text, a text without content, a figure. *)
Definition angle_part : json :=
  JObject [(str "type", JString (str "text"));
           (str "content", JString (str "\angle A"))].

Definition empty_text_part : json :=
  JObject [(str "type", JString (str "text")); (str "content", JString [])].

Definition figure_part : json :=
  JObject [(str "type", JString (str "figure"));
           (str "box_2d", JArray [JNumber 100; JNumber 200;
                                  JNumber 500; JNumber 800])].

(** A string literal of JSON. *)
Definition quoted (s : string) : jsstring := [dquote] ++ str s ++ [dquote].

(** A response with a text part and a figure part whose box is upside
    down. *)
Definition response_with_bad_figure : jsstring :=
  str "{" ++ quoted "parts" ++ str ":[{" ++ quoted "type" ++ str ":"
  ++ quoted "text" ++ str "," ++ quoted "content" ++ str ":"
  ++ quoted "In \\angle ABC, \\( x^2 \\)" ++ str "},{" ++ quoted "type" ++ str ":"
  ++ quoted "figure" ++ str "," ++ quoted "box_2d"
  ++ str ":[700,100,300,900]}]}".

(** The same response with the box of a figure of the page. *)
Definition response_with_figure : jsstring :=
  str "{" ++ quoted "parts" ++ str ":[{" ++ quoted "type" ++ str ":"
  ++ quoted "text" ++ str "," ++ quoted "content" ++ str ":"
  ++ quoted "In \\angle ABC, \\( x^2 \\)" ++ str "},{" ++ quoted "type" ++ str ":"
  ++ quoted "figure" ++ str "," ++ quoted "box_2d"
  ++ str ":[100,200,500,800]}]}".

(** A PDF whose second page fails to render. *)
Definition torn_pdf : File :=
  {| file_type := str "application/pdf";
     read_result := Some (str "data:application/pdf;base64,JVBERi0=");
     pdf_document :=
       Fulfilled
         [ {| page_context := true;
              page_render := Fulfilled (str "data:image/jpeg;base64,UDE=") |};
           {| page_context := true;
              page_render := Rejected (Error (str "Invalid page")) |};
           {| page_context := true;
              page_render := Fulfilled (str "data:image/jpeg;base64,UDM=") |} ]
  |}.

(** A model call that answers every image with one text part, and one
    that fails on the image [UDM=]. *)
Definition text_backend : jsstring -> jsstring -> promise (option jsstring) :=
  fun _ _ =>
    Fulfilled (Some (str "{" ++ quoted "parts" ++ str ":[{" ++ quoted "type"
                     ++ str ":" ++ quoted "text" ++ str "," ++ quoted "content"
                     ++ str ":" ++ quoted "page" ++ str "}]}")).

Definition flaky_backend : jsstring -> jsstring -> promise (option jsstring) :=
  fun image mimeType =>
    if jsstring_eqb image (str "UDM=")
    then Rejected (Error (str "503 Service Unavailable"))
    else text_backend image mimeType.

(** The state after a file was dropped. *)
Definition loaded (file : File) : AppState :=
  {| isProcessing := false; files := [file]; processedPages := [];
     error := None |}.

(** A state with two pages. *)
Definition two_pages : AppState :=
  {| isProcessing := false; files := [three_page_pdf];
     processedPages :=
       [ {| pageNumber := 1; imageUrl := str "UDE="; markdown := str "one" |};
         {| pageNumber := 2; imageUrl := str "UDM="; markdown := str "two" |} ];
     error := None |}.

End Fixtures.
Import Fixtures.

Module Shapes.

(** The segments of a well-formed response: a text with its content, a
    figure with the four numbers of its box. *)
Inductive segment : Type :=
| TextSegment (content : jsstring)
| FigureSegment (box : BoundingBox).

(** The part of the response that carries a segment. *)
Definition part_of (seg : segment) : json :=
  match seg with
  | TextSegment content =>
      JObject [(str "type", JString (str "text"));
               (str "content", JString content)]
  | FigureSegment box =>
      JObject [(str "type", JString (str "figure"));
               (str "box_2d", JArray [JNumber (ymin box); JNumber (xmin box);
                                      JNumber (ymax box); JNumber (xmax box)])]
  end.

(** What a segment adds to the Markdown of the page: the normalized
    text, or the reference to the cropped image when the crop gives one. *)
Definition rendering (B : Browser) (base64Image : jsstring) (seg : segment)
  : jsstring :=
  match seg with
  | TextSegment content => normalize content ++ [newline; newline]
  | FigureSegment box =>
      match settled (cropImageFromBase64 B base64Image box) with
      | Fulfilled croppedBase64 =>
          if truthy_result croppedBase64 then figure_markdown croppedBase64
          else []
      | _ => []
      end
  end.

(** A text segment has something to say. *)
Definition speaks (seg : segment) : Prop :=
  match seg with
  | TextSegment content => content <> []
  | FigureSegment _ => True
  end.

(** A part that is [null], or a text part whose content is truthy and
    not a string. *)
Definition broken_part (part : json) : Prop :=
  part = JNull \/
  (get part (str "type") = Some (JString (str "text")) /\
   truthy (get part (str "content")) = true /\
   forall s, get part (str "content") <> Some (JString s)).

(** A payload in code fences. *)
Definition fenced (body : jsstring) : jsstring :=
  str "```json" ++ [newline] ++ body ++ [newline] ++ str "```".

(** The line the assembler writes for a cropped image. *)
Definition figure_line (croppedBase64 : jsstring) : jsstring :=
  str "![Figure](data:image/jpeg;base64," ++ croppedBase64 ++ str ")".

(** The entity of a character in HTML text. *)
Definition escape_char (c : N) : jsstring :=
  if (c =? 38)%N then str "&amp;"
  else if (c =? 60)%N then str "&lt;"
  else if (c =? 62)%N then str "&gt;"
  else [c].

Definition is_page_break (p : Paragraph) : bool :=
  match p with ParagraphPageBreak => true | _ => false end.

(** The number of occurrences of a code unit. *)
Definition occurrences (c : N) (s : jsstring) : nat :=
  List.length (filter (N.eqb c) s).

(** The paragraph of a line that holds no image reference. *)
Definition plain_paragraph (line : jsstring) : Paragraph :=
  if forallb is_space line then ParagraphText [] else text_paragraph line.

(** The pages of the images [images], numbered from [i + 1] on, when
    the transcription of an image [img] is [md img]. *)
Fixpoint numbered (md : jsstring -> jsstring) (i : nat)
         (images : list jsstring) : list ProcessedPage :=
  match images with
  | [] => []
  | image :: rest =>
      {| pageNumber := page_number i; imageUrl := image;
         markdown := md image |} :: numbered md (S i) rest
  end.

End Shapes.
Import Shapes.


(* ================================================================== *)
(** * Properties *)
(* ================================================================== *)

(** ** What a successful match looks like *)

Module RegExpFacts.

Lemma starG_sound (p : cclass) (k : nat -> jsstring -> option result) :
  forall s i res,
    starG p k i s = Some res ->
    exists w s', s = w ++ s' /\ forallb p w = true /\
                 k (i + List.length w) s' = Some res.
Proof.
  induction s as [|c s IH]; intros i res H; simpl in H.
  - exists [], []. simpl. rewrite Nat.add_0_r. auto.
  - destruct (p c) eqn:Hc.
    + destruct (starG p k (S i) s) eqn:Hrec; simpl in H.
      * inversion H; subst. destruct (IH _ _ Hrec) as (w & s' & -> & Hw & Hk).
        exists (c :: w), s'. simpl. rewrite Hc, Hw.
        replace (i + S (List.length w)) with (S i + List.length w) by lia.
        auto.
      * exists [], (c :: s). simpl. rewrite Nat.add_0_r. auto.
    + exists [], (c :: s). simpl. rewrite Nat.add_0_r. auto.
Qed.

Lemma starL_sound (p : cclass) (k : nat -> jsstring -> option result) :
  forall s i res,
    starL p k i s = Some res ->
    exists w s', s = w ++ s' /\ forallb p w = true /\
                 k (i + List.length w) s' = Some res.
Proof.
  induction s as [|c s IH]; intros i res H; simpl in H.
  - destruct (k i []) eqn:Hk; simpl in H; [|discriminate].
    inversion H; subst. exists [], []. simpl. rewrite Nat.add_0_r. auto.
  - destruct (k i (c :: s)) eqn:Hk; simpl in H.
    + inversion H; subst. exists [], (c :: s). simpl.
      rewrite Nat.add_0_r. auto.
    + destruct (p c) eqn:Hc; [|discriminate].
      destruct (IH _ _ H) as (w & s' & -> & Hw & Hk').
      exists (c :: w), s'. simpl. rewrite Hc, Hw.
      replace (i + S (List.length w)) with (S i + List.length w) by lia.
      auto.
Qed.

(** The matcher only reports runs of the pattern. *)
Lemma rmatch_sound :
  forall r i s caps k res,
    rmatch r i s caps k = Some res ->
    exists i' s' caps', steps r i s caps i' s' caps' /\ k i' s' caps' = Some res.
Proof.
  induction r as [|p|r1 IH1 r2 IH2|p|p|p|n r' IH|p| |];
    intros i s caps k res H; simpl in H.
  - exists i, s, caps. simpl. auto.
  - destruct s as [|c s']; [discriminate|].
    destruct (p c) eqn:Hc; [|discriminate].
    exists (S i), s', caps. simpl. split; [exists c; auto|auto].
  - apply IH1 in H. destruct H as (i1 & s1 & c1 & Hs1 & H).
    apply IH2 in H. destruct H as (i2 & s2 & c2 & Hs2 & H).
    exists i2, s2, c2. split; [|exact H]. simpl. exists i1, s1, c1. auto.
  - apply starG_sound in H. destruct H as (w & s' & -> & Hw & Hk).
    exists (i + List.length w), s', caps. split; [|exact Hk].
    simpl. exists w. auto.
  - apply starL_sound in H. destruct H as (w & s' & -> & Hw & Hk).
    exists (i + List.length w), s', caps. split; [|exact Hk].
    simpl. exists w. auto.
  - destruct s as [|c s'].
    + exists i, [], caps. simpl. auto.
    + destruct (p c) eqn:Hc.
      * destruct (k (S i) s' caps) eqn:Hk; simpl in H.
        -- inversion H; subst. exists (S i), s', caps. split; [|exact Hk].
           simpl. right. exists c. auto.
        -- exists i, (c :: s'), caps. simpl. auto.
      * exists i, (c :: s'), caps. simpl. auto.
  - apply IH in H. destruct H as (i' & s' & c' & Hs & H).
    exists i', s', ((n, firstn (i' - i) s) :: c'). split; [|exact H].
    simpl. exists c'. auto.
  - destruct s as [|c s'].
    + exists i, [], caps. simpl. auto.
    + destruct (p c) eqn:Hc; [discriminate|].
      exists i, (c :: s'), caps. simpl. auto.
  - destruct (Nat.eqb i 0) eqn:Hi; [|discriminate].
    apply Nat.eqb_eq in Hi. exists i, s, caps. simpl. auto.
  - destruct s as [|c s']; [|discriminate].
    exists i, [], caps. simpl. auto.
Qed.

(** A run consumes a prefix of the input and counts it. *)
Lemma steps_consumes :
  forall r i s caps i' s' caps',
    steps r i s caps i' s' caps' ->
    exists w, s = w ++ s' /\ i' = i + List.length w.
Proof.
  induction r as [|p|r1 IH1 r2 IH2|p|p|p|n r' IH|p| |];
    intros i s caps i' s' caps' H; simpl in H.
  - destruct H as (-> & -> & _). exists []. simpl. auto.
  - destruct H as (c & -> & _ & -> & _). exists [c]. simpl. split; [auto|lia].
  - destruct H as (i1 & s1 & c1 & H1 & H2).
    apply IH1 in H1. apply IH2 in H2.
    destruct H1 as (w1 & -> & ->). destruct H2 as (w2 & -> & ->).
    exists (w1 ++ w2). rewrite <- app_assoc, length_app. split; [auto|lia].
  - destruct H as (w & -> & _ & -> & _). exists w. auto.
  - destruct H as (w & -> & _ & -> & _). exists w. auto.
  - destruct H as [(-> & -> & _)|(c & -> & _ & -> & _)].
    + exists []. simpl. auto.
    + exists [c]. simpl. split; [auto|lia].
  - destruct H as (c1 & H & _). apply IH in H. exact H.
  - destruct H as (-> & -> & _). exists []. simpl. auto.
  - destruct H as (_ & -> & -> & _). exists []. simpl. auto.
  - destruct H as (_ & -> & -> & _). exists []. simpl. auto.
Qed.

Lemma match_at_sound (r : regex) (i : nat) (s : jsstring) e rest caps :
  match_at r i s = Some (e, rest, caps) ->
  steps r i s [] e rest caps.
Proof.
  unfold match_at. intros H. apply rmatch_sound in H.
  destruct H as (i' & s' & c' & Hs & Hk). unfold accept in Hk.
  inversion Hk; subst. exact Hs.
Qed.

Lemma match_at_consumes (r : regex) (i : nat) (s : jsstring) e rest caps :
  match_at r i s = Some (e, rest, caps) ->
  exists w, s = w ++ rest /\ e = i + List.length w.
Proof.
  intros H. apply match_at_sound in H. eapply steps_consumes; eauto.
Qed.

End RegExpFacts.
Import RegExpFacts.

(** ** Rewriting with rules that start at a backslash *)

Module Rewriting.

Lemma succeeds_orelse (a b : option result) :
  succeeds (orelse a b) = succeeds a || succeeds b.
Proof. destruct a; reflexivity. Qed.

Lemma succeeds_false (o : option result) : succeeds o = false -> o = None.
Proof. destruct o; [discriminate|reflexivity]. Qed.

Lemma stem_inv (s1 s2 : jsstring) :
  stem s1 = stem s2 ->
  (blocked s1 /\ blocked s2) \/
  (exists c t1 t2, s1 = c :: t1 /\ s2 = c :: t2 /\ c <> 92%N /\
                   stem t1 = stem t2).
Proof.
  destruct s1 as [|a t1], s2 as [|b t2]; simpl.
  - left. auto.
  - destruct (N.eqb_spec b 92); [left; auto|discriminate].
  - destruct (N.eqb_spec a 92); [left; auto|discriminate].
  - destruct (N.eqb_spec a 92), (N.eqb_spec b 92); try discriminate.
    + left. auto.
    + intros H. inversion H; subst. right. exists b, t1, t2. auto.
Qed.

Lemma starG_stem (p : cclass) (k1 k2 : nat -> jsstring -> option result) :
  p 92%N = false -> stem_blind k1 k2 ->
  forall s1 s2 i1 i2,
    stem s1 = stem s2 ->
    succeeds (starG p k1 i1 s1) = succeeds (starG p k2 i2 s2).
Proof.
  intros Hp Hk. induction s1 as [|a t1 IH]; intros s2 i1 i2 Hs.
  - destruct (stem_inv [] s2 Hs) as [[_ Hb]|(c & u1 & u2 & Hc & _)];
      [|discriminate].
    destruct s2 as [|b t2]; simpl in *.
    + apply Hk. reflexivity.
    + subst b. rewrite Hp. apply Hk. exact Hs.
  - destruct (stem_inv _ _ Hs) as [[Ha Hb]|(c & u1 & u2 & Hc & -> & Hn & Hu)].
    + simpl in Ha. subst a. simpl. rewrite Hp.
      destruct s2 as [|b t2]; simpl in *.
      * apply Hk. exact Hs.
      * subst b. rewrite Hp. apply Hk. exact Hs.
    + inversion Hc; subst. simpl. destruct (p c).
      * rewrite !succeeds_orelse. f_equal; [apply IH; exact Hu|].
        apply Hk. exact Hs.
      * apply Hk. exact Hs.
Qed.

Lemma starL_stem (p : cclass) (k1 k2 : nat -> jsstring -> option result) :
  p 92%N = false -> stem_blind k1 k2 ->
  forall s1 s2 i1 i2,
    stem s1 = stem s2 ->
    succeeds (starL p k1 i1 s1) = succeeds (starL p k2 i2 s2).
Proof.
  intros Hp Hk. induction s1 as [|a t1 IH]; intros s2 i1 i2 Hs.
  - destruct (stem_inv [] s2 Hs) as [[_ Hb]|(c & u1 & u2 & Hc & _)];
      [|discriminate].
    destruct s2 as [|b t2]; simpl in *.
    + rewrite !succeeds_orelse. f_equal. apply Hk. reflexivity.
    + subst b. rewrite Hp, !succeeds_orelse. f_equal. apply Hk. exact Hs.
  - destruct (stem_inv _ _ Hs) as [[Ha Hb]|(c & u1 & u2 & Hc & -> & Hn & Hu)].
    + simpl in Ha. subst a. simpl. rewrite Hp.
      destruct s2 as [|b t2]; simpl in *.
      * rewrite !succeeds_orelse. f_equal. apply Hk. exact Hs.
      * subst b. rewrite Hp, !succeeds_orelse. f_equal. apply Hk. exact Hs.
    + inversion Hc; subst. simpl. rewrite !succeeds_orelse.
      f_equal; [apply Hk; exact Hs|].
      destruct (p c); [apply IH; exact Hu|reflexivity].
Qed.

(** Whether a plain pattern matches depends on the stem of the input
    only, whatever the index and the captures. *)
Lemma rmatch_stem :
  forall r, plain r ->
  forall (k1 k2 : cont),
    (forall c1 c2, stem_blind (fun j t => k1 j t c1) (fun j t => k2 j t c2)) ->
  forall s1 s2 i1 i2 c1 c2,
    stem s1 = stem s2 ->
    succeeds (rmatch r i1 s1 c1 k1) = succeeds (rmatch r i2 s2 c2 k2).
Proof.
  induction r as [|p|r1 IH1 r2 IH2|p|p|p|n r' IH|p| |];
    intros Hr k1 k2 Hk s1 s2 i1 i2 c1 c2 Hs; simpl in Hr; simpl.
  - apply Hk. exact Hs.
  - destruct (stem_inv _ _ Hs) as [[Ha Hb]|(c & u1 & u2 & -> & -> & Hn & Hu)].
    + destruct s1 as [|a t1], s2 as [|b t2]; simpl in Ha, Hb; subst;
        rewrite ?Hr; reflexivity.
    + destruct (p c); [apply Hk; exact Hu|reflexivity].
  - destruct Hr as [Hr1 Hr2]. apply IH1; [exact Hr1| |exact Hs].
    intros d1 d2 j1 j2 t1 t2 Ht. apply IH2; [exact Hr2|exact Hk|exact Ht].
  - apply starG_stem; [exact Hr|apply Hk|exact Hs].
  - apply starL_stem; [exact Hr|apply Hk|exact Hs].
  - destruct (stem_inv _ _ Hs) as [[Ha Hb]|(c & u1 & u2 & -> & -> & Hn & Hu)].
    + destruct s1 as [|a t1], s2 as [|b t2]; simpl in Ha, Hb; subst;
        rewrite ?Hr; apply Hk; exact Hs.
    + destruct (p c).
      * rewrite !succeeds_orelse. f_equal; apply Hk; [exact Hu|exact Hs].
      * apply Hk. exact Hs.
  - apply IH; [exact Hr| |exact Hs].
    intros d1 d2 j1 j2 t1 t2 Ht. apply Hk. exact Ht.
  - destruct (stem_inv _ _ Hs) as [[Ha Hb]|(c & u1 & u2 & -> & -> & Hn & Hu)].
    + destruct s1 as [|a t1], s2 as [|b t2]; simpl in Ha, Hb; subst;
        rewrite ?Hr; apply Hk; exact Hs.
    + destruct (p c); [reflexivity|apply Hk; exact Hs].
  - contradiction.
  - contradiction.
Qed.

Lemma nomatch_skip (q : regex) (w s : jsstring) :
  nomatch q (w ++ s) -> nomatch q s.
Proof.
  induction w as [|c w IH]; simpl; [auto|]. intros [_ H]. auto.
Qed.

Lemma headed_nil (q : regex) : headed q -> forall i, match_at q i [] = None.
Proof. intros H i. apply H. intros t Ht. discriminate. Qed.

Lemma headed_other (q : regex) :
  headed q -> forall i c s, c <> 92%N -> match_at q i (c :: s) = None.
Proof. intros H i c s Hc. apply H. intros t Ht. inversion Ht. contradiction. Qed.

(** A text without backslash in front of an unmatched text. *)
Lemma nomatch_stem_app (q : regex) (body rest : jsstring) :
  headed q -> stem body = body -> nomatch q rest -> nomatch q (body ++ rest).
Proof.
  intros Hq. induction body as [|c body IH]; simpl; intros Hb Hrest; [auto|].
  destruct (N.eqb_spec c 92) as [->|Hc]; [discriminate|].
  inversion Hb as [Hb']. rewrite Hb'. split; [|auto].
  intros j. apply headed_other; assumption.
Qed.

Lemma nomatch_replace_first (q : regex) (repl : jsstring) :
  forall s i, nomatch q s -> replace_first q repl i s = s.
Proof.
  induction s as [|c s IH]; intros i [H0 H1]; simpl; rewrite H0;
    [reflexivity|]. rewrite IH by assumption. reflexivity.
Qed.

(** A pattern whose matches all contain the code unit [c] matches
    nowhere in a text without [c]. *)
Lemma nomatch_without (q : regex) (c : N) :
  (forall j t e rest caps, match_at q j t = Some (e, rest, caps) -> In c t) ->
  forall s, ~ In c s -> nomatch q s.
Proof.
  intros Hq. induction s as [|a s IH]; intros Hs; simpl.
  - split; [|exact I]. intros j.
    destruct (match_at q j []) as [[[e rest] caps]|] eqn:Hm; [|reflexivity].
    exfalso. apply Hs. eapply Hq. exact Hm.
  - split.
    + intros j.
      destruct (match_at q j (a :: s)) as [[[e rest] caps]|] eqn:Hm;
        [|reflexivity].
      exfalso. apply Hs. eapply Hq. exact Hm.
    + apply IH. intros H. apply Hs. right. exact H.
Qed.

Section Rule.

Variable r : regex.
Variable repl : jsstring.

Hypothesis r_headed : headed r.

(** Matches are not empty. *)
Hypothesis r_progress :
  forall i s e rest caps, match_at r i s = Some (e, rest, caps) -> i < e.

(** Replacements start with a backslash. *)
Hypothesis r_mark :
  forall i s e rest caps,
    match_at r i s = Some (e, rest, caps) ->
    exists body, substitution r repl (firstn (e - i) s) caps = 92%N :: body.

Lemma stem_replace_all :
  forall fuel i s, stem (replace_all fuel r repl i s) = stem s.
Proof.
  induction fuel as [|f IH]; intros i s; simpl; [reflexivity|].
  destruct (match_at r i s) as [[[e rest] caps]|] eqn:Hm.
  - destruct (r_mark _ _ _ _ _ Hm) as (body & ->).
    destruct s as [|c s'].
    + rewrite headed_nil in Hm by assumption. discriminate.
    + destruct (N.eqb_spec c 92) as [->|Hc]; [reflexivity|].
      rewrite headed_other in Hm by assumption. discriminate.
  - destruct s as [|c s']; [reflexivity|]. simpl. rewrite IH. reflexivity.
Qed.

Lemma nomatch_replace_all :
  forall s fuel i, nomatch r s -> replace_all fuel r repl i s = s.
Proof.
  induction s as [|c s IH]; intros fuel i H; destruct fuel as [|f];
    simpl; try reflexivity; destruct H as [H0 H1]; rewrite H0;
    [reflexivity|]. rewrite IH by assumption. reflexivity.
Qed.

Lemma dominated_skip (q : regex) (w s : jsstring) :
  dominated r q (w ++ s) -> dominated r q s.
Proof.
  induction w as [|c w IH]; simpl; [auto|]. intros [_ H]. auto.
Qed.

Lemma nomatch_dominated (q : regex) (s : jsstring) :
  nomatch q s -> dominated r q s.
Proof.
  induction s as [|c s IH]; simpl; intros [H0 H1]; split; auto.
Qed.

Lemma stable_index (q : regex) :
  headed q -> stable q ->
  forall i j s, match_at q i s = None -> match_at q j s = None.
Proof.
  intros Hh Hs i j s H. destruct s as [|c s'].
  - apply headed_nil. assumption.
  - destruct (N.eq_dec c 92) as [->|Hc].
    + apply succeeds_false. rewrite (Hs j i s' s' eq_refl), H. reflexivity.
    + apply headed_other; assumption.
Qed.

Lemma dominated_self (s : jsstring) : stable r -> dominated r r s.
Proof.
  intros Hs. induction s as [|c s IH]; simpl; split; auto;
    intros i j H; eapply stable_index; eauto.
Qed.

(** After one pass of the rule [r], a pattern [q] that [r] dominates
    and that the replacements of [r] do not feed matches nowhere. *)
Lemma replace_all_nomatch (q : regex) :
  headed q -> stable q ->
  (forall i s e rest caps,
      match_at r i s = Some (e, rest, caps) ->
      exists body,
        substitution r repl (firstn (e - i) s) caps = 92%N :: body /\
        stem body = body /\
        forall j tail, match_at q j (92%N :: body ++ tail) = None) ->
  forall fuel i s,
    List.length s < fuel -> dominated r q s ->
    nomatch q (replace_all fuel r repl i s).
Proof.
  intros Hqh Hqs Hinert.
  induction fuel as [|f IH]; intros i s Hlen Hdom; [lia|]. simpl.
  destruct (match_at r i s) as [[[e rest] caps]|] eqn:Hm.
  - destruct (Hinert _ _ _ _ _ Hm) as (body & -> & Hbody & Hfail).
    pose proof (r_progress _ _ _ _ _ Hm) as Hlt.
    destruct (match_at_consumes _ _ _ _ _ _ Hm) as (w & Hw & He).
    apply Nat.ltb_lt in Hlt. rewrite Hlt. apply Nat.ltb_lt in Hlt.
    assert (Hrest : nomatch q (replace_all f r repl e rest)).
    { apply IH.
      - rewrite Hw, length_app in Hlen. lia.
      - rewrite Hw in Hdom. eapply dominated_skip; eauto. }
    simpl. split; [intros j; apply Hfail|].
    apply nomatch_stem_app; assumption.
  - destruct s as [|c s']; simpl.
    + split; [|exact I]. intros j. apply headed_nil. assumption.
    + destruct Hdom as [Hd0 Hd1]. simpl in Hlen. split.
      * intros j. destruct (N.eq_dec c 92) as [->|Hc].
        -- apply succeeds_false.
           rewrite (Hqs j j _ s' (stem_replace_all f (S i) s')).
           rewrite (Hd0 i j Hm). reflexivity.
        -- apply headed_other; assumption.
      * apply IH; [lia|assumption].
Qed.

End Rule.

(** *** Patterns that start with a literal backslash *)

Lemma match_at_led (a b : regex) (i : nat) (s : jsstring) :
  match_at (led a b) i s =
  match s with
  | [] => None
  | c :: s' => if (c =? 92)%N then rmatch (Seq a b) (S i) s' [] accept else None
  end.
Proof. destruct s; reflexivity. Qed.

Lemma led_headed (a b : regex) : headed (led a b).
Proof.
  intros i s Hs. rewrite match_at_led. destruct s as [|c s']; [reflexivity|].
  destruct (N.eqb_spec c 92) as [->|Hc]; [|reflexivity].
  exfalso. eapply Hs. reflexivity.
Qed.

Lemma led_stable (a b : regex) : plain a -> plain b -> stable (led a b).
Proof.
  intros Ha Hb i1 i2 s1 s2 Hs. rewrite !match_at_led, N.eqb_refl.
  apply rmatch_stem; [exact (conj Ha Hb)| |exact Hs].
  intros c1 c2 j1 j2 t1 t2 _. reflexivity.
Qed.

(** A match of such a pattern: the backslash, then a run of the rest. *)
Lemma led_inv (a b : regex) (i : nat) (s : jsstring) e rest caps :
  match_at (led a b) i s = Some (e, rest, caps) ->
  exists s', s = 92%N :: s' /\ steps (Seq a b) (S i) s' [] e rest caps.
Proof.
  rewrite match_at_led. destruct s as [|c s']; [discriminate|].
  destruct (N.eqb_spec c 92) as [->|Hc]; [|discriminate].
  intros H. apply rmatch_sound in H.
  destruct H as (i' & t & c' & Hs & Hk). unfold accept in Hk.
  inversion Hk; subst. exists s'. auto.
Qed.

Lemma led_progress (a b : regex) (i : nat) (s : jsstring) e rest caps :
  match_at (led a b) i s = Some (e, rest, caps) -> i < e.
Proof.
  intros H. apply led_inv in H. destruct H as (s' & _ & H).
  apply steps_consumes in H. destruct H as (w & _ & ->). lia.
Qed.

End Rewriting.
Import Rewriting.

(** ** The angle rules *)

Module AngleRules.

Lemma re_angle3_led : re_angle3 = led (lit "angle") angle3_rest.
Proof. reflexivity. Qed.

Lemma re_angle1_led : re_angle1 = led (lit "angle") angle1_rest.
Proof. reflexivity. Qed.

Lemma plain_angle : plain (lit "angle").
Proof. simpl. repeat split. Qed.

Lemma plain_angle3_rest : plain angle3_rest.
Proof. simpl. repeat split. Qed.

Lemma plain_angle1_rest : plain angle1_rest.
Proof. simpl. repeat split. Qed.

Lemma upper_stem (c : N) : upper c = true -> stem [c] = [c].
Proof.
  unfold upper. intros H. simpl. destruct (N.eqb_spec c 92) as [->|_];
    [discriminate|reflexivity].
Qed.

Ltac break :=
  repeat match goal with
         | H : exists _, _ |- _ => destruct H
         | H : _ /\ _ |- _ => destruct H
         | H : _ \/ _ |- _ => destruct H
         end; subst.

Lemma firstn_three (i : nat) (a b c : N) (s : jsstring) :
  firstn (S (S (S i)) - i) (a :: b :: c :: s) = [a; b; c].
Proof. replace (S (S (S i)) - i) with 3 by lia. reflexivity. Qed.

Lemma firstn_one (i : nat) (a : N) (s : jsstring) :
  firstn (S i - i) (a :: s) = [a].
Proof. replace (S i - i) with 1 by lia. reflexivity. Qed.

Lemma angle3_captures i s e rest caps :
  match_at re_angle3 i s = Some (e, rest, caps) ->
  exists a b c,
    caps = [(1, [a; b; c])] /\
    upper a = true /\ upper b = true /\ upper c = true.
Proof.
  rewrite re_angle3_led. intros H. apply led_inv in H.
  destruct H as (s' & -> & H). simpl in H. break;
    rewrite firstn_three; eauto 10.
Qed.

Lemma angle1_captures i s e rest caps :
  match_at re_angle1 i s = Some (e, rest, caps) ->
  exists a, caps = [(1, [a])] /\ upper a = true.
Proof.
  rewrite re_angle1_led. intros H. apply led_inv in H.
  destruct H as (s' & -> & H). simpl in H. break;
    rewrite firstn_one; eauto.
Qed.

Lemma upper_not_backslash (c : N) : upper c = true -> (c =? 92)%N = false.
Proof.
  unfold upper. intros H. apply andb_true_iff in H. destruct H as [_ H].
  apply N.leb_le in H. apply N.eqb_neq. lia.
Qed.

(** The replacement of rule 3 is [\widehat{ABC}]. *)
Lemma angle3_replacement i s e rest caps :
  match_at re_angle3 i s = Some (e, rest, caps) ->
  exists a b c,
    substitution re_angle3 (str "\widehat{$1}") (firstn (e - i) s) caps
    = str "\widehat{" ++ [a; b; c] ++ str "}" /\
    upper a = true /\ upper b = true /\ upper c = true.
Proof.
  intros H. destruct (angle3_captures _ _ _ _ _ H) as (a & b & c & -> & ?).
  exists a, b, c. split; [reflexivity|assumption].
Qed.

(** The replacement of rule 4 is [\hat{A}]. *)
Lemma angle1_replacement i s e rest caps :
  match_at re_angle1 i s = Some (e, rest, caps) ->
  exists a,
    substitution re_angle1 (str "\hat{$1}") (firstn (e - i) s) caps
    = str "\hat{" ++ [a] ++ str "}" /\
    upper a = true.
Proof.
  intros H. destruct (angle1_captures _ _ _ _ _ H) as (a & -> & ?).
  exists a. split; [reflexivity|assumption].
Qed.

Lemma angle3_headed : headed re_angle3.
Proof. rewrite re_angle3_led. apply led_headed. Qed.

Lemma angle1_headed : headed re_angle1.
Proof. rewrite re_angle1_led. apply led_headed. Qed.

Lemma angle3_stable : stable re_angle3.
Proof.
  rewrite re_angle3_led.
  apply led_stable; [apply plain_angle|apply plain_angle3_rest].
Qed.

Lemma angle1_stable : stable re_angle1.
Proof.
  rewrite re_angle1_led.
  apply led_stable; [apply plain_angle|apply plain_angle1_rest].
Qed.

(** Neither angle pattern matches at [\widehat] or at [\hat]. *)
Lemma angle_fails_on_widehat (j : nat) (t : jsstring) :
  match_at re_angle3 j (str "\widehat{" ++ t) = None /\
  match_at re_angle1 j (str "\widehat{" ++ t) = None.
Proof. split; reflexivity. Qed.

Lemma angle_fails_on_hat (j : nat) (t : jsstring) :
  match_at re_angle3 j (str "\hat{" ++ t) = None /\
  match_at re_angle1 j (str "\hat{" ++ t) = None.
Proof. split; reflexivity. Qed.

Lemma stem_upper_body (pre : jsstring) (g : jsstring) :
  stem pre = pre -> forallb upper g = true ->
  stem (pre ++ g ++ str "}") = pre ++ g ++ str "}".
Proof.
  intros Hpre Hg. induction pre as [|c pre IH]; simpl in *.
  - induction g as [|a g IHg]; simpl in *; [reflexivity|].
    apply andb_true_iff in Hg. destruct Hg as [Ha Hg].
    rewrite (upper_not_backslash _ Ha), IHg by assumption. reflexivity.
  - destruct (c =? 92)%N; [discriminate|]. inversion Hpre as [Hp].
    rewrite !Hp, IH by assumption. reflexivity.
Qed.

Lemma angle3_mark i s e rest caps :
  match_at re_angle3 i s = Some (e, rest, caps) ->
  exists body,
    substitution re_angle3 (str "\widehat{$1}") (firstn (e - i) s) caps
    = 92%N :: body.
Proof.
  intros H. destruct (angle3_replacement _ _ _ _ _ H) as (a & b & c & -> & _).
  eexists. reflexivity.
Qed.

Lemma angle1_mark i s e rest caps :
  match_at re_angle1 i s = Some (e, rest, caps) ->
  exists body,
    substitution re_angle1 (str "\hat{$1}") (firstn (e - i) s) caps
    = 92%N :: body.
Proof.
  intros H. destruct (angle1_replacement _ _ _ _ _ H) as (a & -> & _).
  eexists. reflexivity.
Qed.

Lemma angle3_progress i s e rest caps :
  match_at re_angle3 i s = Some (e, rest, caps) -> i < e.
Proof. rewrite re_angle3_led. apply led_progress. Qed.

Lemma angle1_progress i s e rest caps :
  match_at re_angle1 i s = Some (e, rest, caps) -> i < e.
Proof. rewrite re_angle1_led. apply led_progress. Qed.

(** The replacements of rule 3 feed neither angle pattern. *)
Lemma angle3_inert (q : regex) :
  q = re_angle3 \/ q = re_angle1 ->
  forall i s e rest caps,
    match_at re_angle3 i s = Some (e, rest, caps) ->
    exists body,
      substitution re_angle3 (str "\widehat{$1}") (firstn (e - i) s) caps
      = 92%N :: body /\
      stem body = body /\
      forall j tail, match_at q j (92%N :: body ++ tail) = None.
Proof.
  intros Hq i s e rest caps H.
  destruct (angle3_replacement _ _ _ _ _ H) as (a & b & c & -> & Ha & Hb & Hc).
  exists (str "widehat{" ++ [a; b; c] ++ str "}"). split; [reflexivity|]. split.
  - apply stem_upper_body; [reflexivity|]. simpl. rewrite Ha, Hb, Hc. reflexivity.
  - intros j tail. destruct Hq as [-> | ->]; reflexivity.
Qed.

(** The replacements of rule 4 feed neither angle pattern. *)
Lemma angle1_inert (q : regex) :
  q = re_angle3 \/ q = re_angle1 ->
  forall i s e rest caps,
    match_at re_angle1 i s = Some (e, rest, caps) ->
    exists body,
      substitution re_angle1 (str "\hat{$1}") (firstn (e - i) s) caps
      = 92%N :: body /\
      stem body = body /\
      forall j tail, match_at q j (92%N :: body ++ tail) = None.
Proof.
  intros Hq i s e rest caps H.
  destruct (angle1_replacement _ _ _ _ _ H) as (a & -> & Ha).
  exists (str "hat{" ++ [a] ++ str "}"). split; [reflexivity|]. split.
  - apply stem_upper_body; [reflexivity|]. simpl. rewrite Ha. reflexivity.
  - intros j tail. destruct Hq as [-> | ->]; reflexivity.
Qed.

(** After rule 3, pattern 3 matches nowhere. *)
Lemma rule3_settles (u : jsstring) : nomatch re_angle3 (rule3 u).
Proof.
  unfold rule3, String_replaceAll.
  apply (replace_all_nomatch re_angle3 (str "\widehat{$1}")
           angle3_headed angle3_progress angle3_mark re_angle3
           angle3_headed angle3_stable (angle3_inert _ (or_introl eq_refl))).
  - lia.
  - apply dominated_self; [apply angle3_headed|apply angle3_stable].
Qed.

(** Rule 4 keeps a text free of pattern 3 free of it. *)
Lemma rule4_keeps (v : jsstring) :
  nomatch re_angle3 v -> nomatch re_angle3 (rule4 v).
Proof.
  intros Hv. unfold rule4, String_replaceAll.
  apply (replace_all_nomatch re_angle1 (str "\hat{$1}")
           angle1_headed angle1_progress angle1_mark re_angle3
           angle3_headed angle3_stable (angle1_inert _ (or_introl eq_refl))).
  - lia.
  - apply nomatch_dominated. exact Hv.
Qed.

(** After rule 4, pattern 4 matches nowhere. *)
Lemma rule4_settles (v : jsstring) : nomatch re_angle1 (rule4 v).
Proof.
  unfold rule4, String_replaceAll.
  apply (replace_all_nomatch re_angle1 (str "\hat{$1}")
           angle1_headed angle1_progress angle1_mark re_angle1
           angle1_headed angle1_stable (angle1_inert _ (or_intror eq_refl))).
  - lia.
  - apply dominated_self; [apply angle1_headed|apply angle1_stable].
Qed.

Lemma rule3_fixed (t : jsstring) : nomatch re_angle3 t -> rule3 t = t.
Proof. intros H. apply nomatch_replace_all. exact H. Qed.

Lemma rule4_fixed (t : jsstring) : nomatch re_angle1 t -> rule4 t = t.
Proof. intros H. apply nomatch_replace_all. exact H. Qed.


End AngleRules.
Import AngleRules.

(* ================================================================== *)
(** * Specified properties *)
(* ================================================================== *)

(** ** The LaTeX normalizer *)

(** C4: the normalizer maps [\( x^2 \)] to [$ x^2 $], [\angle ABC] to
    [\widehat{ABC}], [\angle A] to [\hat{A}], and leaves [\angle AB]
    unchanged. *)
Theorem C4_normalize_known_inputs :
  normalize (str "\( x^2 \)") = str "$ x^2 $" /\
  normalize (str "\angle ABC") = str "\widehat{ABC}" /\
  normalize (str "\angle A") = str "\hat{A}" /\
  normalize (str "\angle AB") = str "\angle AB".
Proof. repeat split; vm_compute; reflexivity. Qed.




(** ** [JSON.parse] has fuel enough *)

Module JSONFacts.

Lemma skip_ws_length (s : jsstring) :
  List.length (skip_ws s) <= List.length s.
Proof.
  induction s as [|c s IH]; simpl; [lia|].
  destruct (is_ws c); simpl; lia.
Qed.

Lemma strip_prefix_length (p s r : jsstring) :
  strip_prefix p s = Some r -> List.length s = List.length p + List.length r.
Proof.
  revert s. induction p as [|a p IH]; intros s H; simpl in *.
  - inversion H. reflexivity.
  - destruct s as [|b s]; [discriminate|].
    destruct (char_eqb a b); [|discriminate].
    apply IH in H. simpl. lia.
Qed.

Lemma parse_chars_length :
  forall s v r, parse_chars s = Some (v, r) -> List.length r < List.length s.
Proof.
  intros s. remember (List.length s) as n eqn:Hn. revert s Hn.
  induction n as [n IH] using lt_wf_ind. intros s Hn v r H. subst n.
  destruct s as [|c s']; simpl in H; [discriminate|].
  destruct (c =? 34)%N.
  { inversion H; subst. simpl. lia. }
  destruct (c =? 92)%N.
  { destruct s' as [|e s'']; [discriminate|].
    destruct (e =? 117)%N.
    - destruct s'' as [|h1 [|h2 [|h3 [|h4 s3]]]]; try discriminate.
      destruct (hex4 h1 h2 h3 h4); [|discriminate].
      destruct (parse_chars s3) as [[v' r']|] eqn:Hrec; [|discriminate].
      inversion H; subst.
      apply (IH (List.length s3)) in Hrec; simpl in *; try lia.
    - destruct (escape e); [|discriminate].
      destruct (parse_chars s'') as [[v' r']|] eqn:Hrec; [|discriminate].
      inversion H; subst.
      apply (IH (List.length s'')) in Hrec; simpl in *; try lia. }
  destruct (c <? 32)%N; [discriminate|].
  destruct (parse_chars s') as [[v' r']|] eqn:Hrec; [|discriminate].
  inversion H; subst.
  apply (IH (List.length s')) in Hrec; simpl in *; try lia.
Qed.

Lemma digits_length :
  forall s acc n a k r,
    digits acc n s = (a, k, r) -> List.length r <= List.length s.
Proof.
  induction s as [|c s IH]; intros acc n a k r H; simpl in H.
  - inversion H; subst. simpl. lia.
  - destruct (is_digit c).
    + apply IH in H. simpl. lia.
    + inversion H; subst. simpl. lia.
Qed.

Lemma digits_length_digit :
  forall d s acc n a k r,
    is_digit d = true ->
    digits acc n (d :: s) = (a, k, r) -> List.length r <= List.length s.
Proof.
  intros d s acc n a k r Hd H. simpl in H. rewrite Hd in H.
  apply digits_length in H. exact H.
Qed.

Lemma int_part_length (s : jsstring) m r :
  int_part s = Some (m, r) -> List.length r < List.length s.
Proof.
  unfold int_part. destruct s as [|d s']; [discriminate|].
  destruct (is_digit d) eqn:Hd; [|discriminate].
  destruct (d =? 48)%N.
  - intros H. inversion H; subst. simpl. lia.
  - destruct (digits 0 0 (d :: s')) as [[a k] r'] eqn:Hg.
    intros H. inversion H; subst.
    apply (digits_length_digit _ _ _ _ _ _ _ Hd) in Hg. simpl. lia.
Qed.

Lemma frac_part_length (m : Z) (s : jsstring) m' k r :
  frac_part m s = (m', k, r) -> List.length r <= List.length s.
Proof.
  unfold frac_part. destruct s as [|dot [|d1 s']].
  - intros H. inversion H; subst. lia.
  - intros H. inversion H; subst. lia.
  - destruct ((dot =? 46)%N && is_digit d1).
    + intros H. apply digits_length in H. simpl in *. lia.
    + intros H. inversion H; subst. lia.
Qed.

Lemma exp_sign_length (s' : jsstring) eneg s'' :
  (match s' with
   | sg :: t =>
       if (sg =? 45)%N then (true, t)
       else if (sg =? 43)%N then (false, t) else (false, s')
   | [] => (false, s')
   end) = (eneg, s'') ->
  List.length s'' <= List.length s'.
Proof.
  intros H. destruct s' as [|sg t].
  - inversion H; subst. lia.
  - destruct (sg =? 45)%N; [inversion H; subst; simpl; lia|].
    destruct (sg =? 43)%N; inversion H; subst; simpl; lia.
Qed.

Lemma exp_part_length (s : jsstring) x r :
  exp_part s = Some (x, r) -> List.length r <= List.length s.
Proof.
  unfold exp_part. destruct s as [|e s'].
  - intros H. inversion H; subst. lia.
  - destruct ((e =? 101) || (e =? 69))%N.
    + destruct (match s' with
                | sg :: t =>
                    if (sg =? 45)%N then (true, t)
                    else if (sg =? 43)%N then (false, t) else (false, s')
                | [] => (false, s')
                end) as [eneg s''] eqn:Hs.
      apply exp_sign_length in Hs. destruct s'' as [|d1 t]; [discriminate|].
      destruct (is_digit d1); [|discriminate].
      destruct (digits 0 0 (d1 :: t)) as [[a k] r'] eqn:Hg.
      intros H. inversion H; subst. apply digits_length in Hg. simpl in *. lia.
    + intros H. inversion H; subst. lia.
Qed.

Lemma minus_sign_length (s : jsstring) neg s1 :
  (match s with
   | c :: s' => if (c =? 45)%N then (true, s') else (false, s)
   | [] => (false, s)
   end) = (neg, s1) ->
  List.length s1 <= List.length s.
Proof.
  intros H. destruct s as [|c s'].
  - inversion H; subst. lia.
  - destruct (c =? 45)%N; inversion H; subst; simpl; lia.
Qed.

Lemma parse_number_length (s : jsstring) v r :
  parse_number s = Some (v, r) -> List.length r < List.length s.
Proof.
  unfold parse_number.
  destruct (match s with
            | c :: s' => if (c =? 45)%N then (true, s') else (false, s)
            | [] => (false, s)
            end) as [neg s1] eqn:Hs.
  apply minus_sign_length in Hs.
  destruct (int_part s1) as [[m s3]|] eqn:Hi; [|discriminate].
  apply int_part_length in Hi.
  destruct (frac_part m s3) as [[m' fl] s4] eqn:Hf.
  apply frac_part_length in Hf.
  destruct (exp_part s4) as [[x s5]|] eqn:He; [|discriminate].
  apply exp_part_length in He.
  intros H. inversion H; subst. lia.
Qed.

Lemma parse_value_S (f : nat) (s : jsstring) :
  parse_value (S f) s =
  match s with
  | [] => None
  | c :: s' =>
      if (c =? 123)%N then
        match skip_ws s' with
        | d :: r =>
            if (d =? 125)%N then Some (JObject [], r)
            else match parse_members f (d :: r) with
                 | Some (ps, r') => Some (JObject ps, r')
                 | None => None
                 end
        | [] => None
        end
      else if (c =? 91)%N then
        match skip_ws s' with
        | d :: r =>
            if (d =? 93)%N then Some (JArray [], r)
            else match parse_elements f (d :: r) with
                 | Some (vs, r') => Some (JArray vs, r')
                 | None => None
                 end
        | [] => None
        end
      else if (c =? 34)%N then
        match parse_chars s' with
        | Some (v, r) => Some (JString v, r)
        | None => None
        end
      else if (c =? 116)%N then
        match strip_prefix (str "true") s with
        | Some r => Some (JBool true, r)
        | None => None
        end
      else if (c =? 102)%N then
        match strip_prefix (str "false") s with
        | Some r => Some (JBool false, r)
        | None => None
        end
      else if (c =? 110)%N then
        match strip_prefix (str "null") s with
        | Some r => Some (JNull, r)
        | None => None
        end
      else
        match parse_number s with
        | Some (v, r) => Some (JNumber v, r)
        | None => None
        end
  end.
Proof. reflexivity. Qed.

Lemma parse_elements_S (f : nat) (s : jsstring) :
  parse_elements (S f) s =
  match parse_value f s with
  | Some (v, r) =>
      match skip_ws r with
      | c :: r' =>
          if (c =? 44)%N then
            match parse_elements f (skip_ws r') with
            | Some (vs, r'') => Some (v :: vs, r'')
            | None => None
            end
          else if (c =? 93)%N then Some ([v], r')
          else None
      | [] => None
      end
  | None => None
  end.
Proof. reflexivity. Qed.

Lemma parse_members_S (f : nat) (s : jsstring) :
  parse_members (S f) s =
  match s with
  | q :: s' =>
      if (q =? 34)%N then
        match parse_chars s' with
        | Some (key, r) =>
            match skip_ws r with
            | c :: r' =>
                if (c =? 58)%N then
                  match parse_value f (skip_ws r') with
                  | Some (v, r'') =>
                      match skip_ws r'' with
                      | d :: r3 =>
                          if (d =? 44)%N then
                            match parse_members f (skip_ws r3) with
                            | Some (ps, r4) => Some ((key, v) :: ps, r4)
                            | None => None
                            end
                          else if (d =? 125)%N then Some ([(key, v)], r3)
                          else None
                      | [] => None
                      end
                  | None => None
                  end
                else None
            | [] => None
            end
        | None => None
        end
      else None
  | [] => None
  end.
Proof. reflexivity. Qed.

Ltac lengths := cbn [List.length] in *.

Lemma settled_value_step (f : nat) :
  settled_elements f -> settled_members f -> settled_value (S f).
Proof.
  intros He Hm s v r H. rewrite parse_value_S in H.
  destruct s as [|c s']; [discriminate|].
  destruct (c =? 123)%N eqn:C1.
  { pose proof (skip_ws_length s') as Hws.
    destruct (skip_ws s') as [|d rr] eqn:Hs; [discriminate|].
    destruct (d =? 125)%N eqn:D1.
    - inversion H; subst. lengths. split; [lia|].
      intros m Hle. destruct m as [|m]; [lia|].
      rewrite parse_value_S, C1, Hs, D1. reflexivity.
    - destruct (parse_members f (d :: rr)) as [[ps r']|] eqn:Hp; [|discriminate].
      inversion H; subst. destruct (Hm _ _ _ Hp) as [Hlt Hst].
      lengths. split; [lia|].
      intros m Hle. destruct m as [|m]; [lia|].
      rewrite parse_value_S, C1, Hs, D1, Hst by (lengths; lia). reflexivity. }
  destruct (c =? 91)%N eqn:C2.
  { pose proof (skip_ws_length s') as Hws.
    destruct (skip_ws s') as [|d rr] eqn:Hs; [discriminate|].
    destruct (d =? 93)%N eqn:D1.
    - inversion H; subst. lengths. split; [lia|].
      intros m Hle. destruct m as [|m]; [lia|].
      rewrite parse_value_S, C1, C2, Hs, D1. reflexivity.
    - destruct (parse_elements f (d :: rr)) as [[vs r']|] eqn:Hp; [|discriminate].
      inversion H; subst. destruct (He _ _ _ Hp) as [Hlt Hst].
      lengths. split; [lia|].
      intros m Hle. destruct m as [|m]; [lia|].
      rewrite parse_value_S, C1, C2, Hs, D1, Hst by (lengths; lia).
      reflexivity. }
  destruct (c =? 34)%N eqn:C3.
  { destruct (parse_chars s') as [[w r']|] eqn:Hp; [|discriminate].
    inversion H; subst. apply parse_chars_length in Hp as Hlt.
    lengths. split; [lia|].
    intros m Hle. destruct m as [|m]; [lia|].
    rewrite parse_value_S, C1, C2, C3, Hp. reflexivity. }
  destruct (c =? 116)%N eqn:C4.
  { destruct (strip_prefix (str "true") (c :: s')) as [r'|] eqn:Hp; [|discriminate].
    inversion H; subst. apply strip_prefix_length in Hp as Hlt.
    change (List.length (str "true")) with 4 in Hlt. split; [lia|].
    intros m Hle. destruct m as [|m]; [lia|].
    rewrite parse_value_S, C1, C2, C3, C4, Hp. reflexivity. }
  destruct (c =? 102)%N eqn:C5.
  { destruct (strip_prefix (str "false") (c :: s')) as [r'|] eqn:Hp; [|discriminate].
    inversion H; subst. apply strip_prefix_length in Hp as Hlt.
    change (List.length (str "false")) with 5 in Hlt. split; [lia|].
    intros m Hle. destruct m as [|m]; [lia|].
    rewrite parse_value_S, C1, C2, C3, C4, C5, Hp. reflexivity. }
  destruct (c =? 110)%N eqn:C6.
  { destruct (strip_prefix (str "null") (c :: s')) as [r'|] eqn:Hp; [|discriminate].
    inversion H; subst. apply strip_prefix_length in Hp as Hlt.
    change (List.length (str "null")) with 4 in Hlt. split; [lia|].
    intros m Hle. destruct m as [|m]; [lia|].
    rewrite parse_value_S, C1, C2, C3, C4, C5, C6, Hp. reflexivity. }
  destruct (parse_number (c :: s')) as [[w r']|] eqn:Hp; [|discriminate].
  inversion H; subst. apply parse_number_length in Hp as Hlt.
  split; [lia|].
  intros m Hle. destruct m as [|m]; [lia|].
  rewrite parse_value_S, C1, C2, C3, C4, C5, C6, Hp. reflexivity.
Qed.

Lemma settled_elements_step (f : nat) :
  settled_value f -> settled_elements f -> settled_elements (S f).
Proof.
  intros Hv He s v r H. rewrite parse_elements_S in H.
  destruct (parse_value f s) as [[x r1]|] eqn:Hx; [|discriminate].
  destruct (Hv _ _ _ Hx) as [Hlt1 Hst1].
  pose proof (skip_ws_length r1) as Hws.
  destruct (skip_ws r1) as [|c r2] eqn:Hs; [discriminate|].
  destruct (c =? 44)%N eqn:C1.
  - pose proof (skip_ws_length r2) as Hws2.
    destruct (parse_elements f (skip_ws r2)) as [[vs r3]|] eqn:Hp; [|discriminate].
    inversion H; subst. destruct (He _ _ _ Hp) as [Hlt2 Hst2].
    lengths. split; [lia|].
    intros m Hle. destruct m as [|m]; [lia|].
    rewrite parse_elements_S, Hst1 by lia. rewrite Hs, C1, Hst2 by lia.
    reflexivity.
  - destruct (c =? 93)%N eqn:C2; [|discriminate].
    inversion H; subst. lengths. split; [lia|].
    intros m Hle. destruct m as [|m]; [lia|].
    rewrite parse_elements_S, Hst1 by lia. rewrite Hs, C1, C2. reflexivity.
Qed.

Lemma settled_members_step (f : nat) :
  settled_value f -> settled_members f -> settled_members (S f).
Proof.
  intros Hv Hm s v r H. rewrite parse_members_S in H.
  destruct s as [|q s']; [discriminate|].
  destruct (q =? 34)%N eqn:Q; [|discriminate].
  destruct (parse_chars s') as [[key r1]|] eqn:Hk; [|discriminate].
  apply parse_chars_length in Hk as Hlt0.
  pose proof (skip_ws_length r1) as Hws1.
  destruct (skip_ws r1) as [|c r2] eqn:Hs1; [discriminate|].
  destruct (c =? 58)%N eqn:C1; [|discriminate].
  pose proof (skip_ws_length r2) as Hws2.
  destruct (parse_value f (skip_ws r2)) as [[x r3]|] eqn:Hx; [|discriminate].
  destruct (Hv _ _ _ Hx) as [Hlt1 Hst1].
  pose proof (skip_ws_length r3) as Hws3.
  destruct (skip_ws r3) as [|d r4] eqn:Hs3; [discriminate|].
  destruct (d =? 44)%N eqn:D1.
  - pose proof (skip_ws_length r4) as Hws4.
    destruct (parse_members f (skip_ws r4)) as [[ps r5]|] eqn:Hp; [|discriminate].
    inversion H; subst. destruct (Hm _ _ _ Hp) as [Hlt2 Hst2].
    lengths. split; [lia|].
    intros m Hle. destruct m as [|m]; [lia|].
    rewrite parse_members_S, Q, Hk, Hs1, C1, Hst1 by lia.
    rewrite Hs3, D1, Hst2 by lia. reflexivity.
  - destruct (d =? 125)%N eqn:D2; [|discriminate].
    inversion H; subst. lengths. split; [lia|].
    intros m Hle. destruct m as [|m]; [lia|].
    rewrite parse_members_S, Q, Hk, Hs1, C1, Hst1 by lia.
    rewrite Hs3, D1, D2. reflexivity.
Qed.

Lemma parse_settled (n : nat) :
  settled_value n /\ settled_elements n /\ settled_members n.
Proof.
  induction n as [|f (Hv & He & Hm)].
  - split; [|split]; intros s v r H; discriminate.
  - split; [|split].
    + apply settled_value_step; assumption.
    + apply settled_elements_step; assumption.
    + apply settled_members_step; assumption.
Qed.

(** The fuel of [JSON_parse] is enough: a text it turns down is turned
    down with any amount of fuel. *)
Lemma JSON_parse_fuel (text : jsstring) :
  JSON_parse text = None ->
  forall n v r,
    parse_value n (skip_ws text) = Some (v, r) -> skip_ws r <> [].
Proof.
  unfold JSON_parse. intros H n v r Hn.
  destruct (parse_settled n) as (Hv & _ & _).
  destruct (Hv _ _ _ Hn) as [Hlt Hst].
  pose proof (skip_ws_length text) as Hws.
  rewrite (Hst (S (List.length text))) in H by lia.
  destruct (skip_ws r); [discriminate|]. discriminate.
Qed.

End JSONFacts.
Import JSONFacts.

(** ** The response parser *)

Module ParserFacts.

Lemma fenced_hello_stripped : strip_fences fenced_hello = str "hello".
Proof. vm_compute. reflexivity. Qed.

Lemma only_true (a : ascii) (c : N) : only a c = true -> c = ch a.
Proof. unfold only, char_eqb. intros H. apply N.eqb_eq in H. exact H. Qed.

Lemma fence_open_backtick j t e rest caps :
  match_at re_fence_open j t = Some (e, rest, caps) -> In 96%N t.
Proof.
  intros H. apply match_at_sound in H. simpl in H. break.
  repeat match goal with
         | H : only _ _ = true |- _ => apply only_true in H; subst
         end.
  left. reflexivity.
Qed.

Lemma fence_close_backtick j t e rest caps :
  match_at re_fence_close j t = Some (e, rest, caps) -> In 96%N t.
Proof.
  intros H. apply match_at_sound in H. simpl in H. break.
  repeat match goal with
         | H : only _ _ = true |- _ => apply only_true in H; subst
         end.
  apply in_or_app. right. left. reflexivity.
Qed.

(** A text without backtick has no fence to strip. *)
Lemma strip_fences_without_backtick (t : jsstring) :
  ~ In 96%N t -> strip_fences t = t.
Proof.
  intros H. unfold strip_fences, String_replace.
  rewrite (nomatch_replace_first re_fence_open).
  - apply nomatch_replace_first.
    apply (nomatch_without _ 96%N); [apply fence_close_backtick|exact H].
  - apply (nomatch_without _ 96%N); [apply fence_open_backtick|exact H].
Qed.

(** A text part followed by a figure whose box is turned down: the page
    is the normalized text alone. *)
Example page_with_bad_figure :
  transcribeImage page_browser (fun _ _ => Pending) (Some (str "key"))
                  (fun _ _ => Fulfilled (Some response_with_bad_figure))
                  [] (str "image/jpeg")
  = Fulfilled (str "In \widehat{ABC}, $ x^2 $" ++ [newline; newline]).
Proof. vm_compute. reflexivity. Qed.

(** A text part followed by a figure of the page: the normalized text,
    then the reference to the cropped image. *)
Example page_with_figure :
  transcribeImage page_browser (fun _ _ => Pending) (Some (str "key"))
                  (fun _ _ => Fulfilled (Some response_with_figure))
                  [] (str "image/jpeg")
  = Fulfilled (str "In \widehat{ABC}, $ x^2 $" ++ [newline; newline]
               ++ str "![Figure](data:image/jpeg;base64,QUJD)"
               ++ [newline; newline]).
Proof. vm_compute. reflexivity. Qed.

Lemma default_text_parses : JSON_parse (strip_fences (str "{}")) = Some (JObject []).
Proof. vm_compute. reflexivity. Qed.

(** When parsing fails the response had a non-empty text. *)
Lemma failing_text_given (text : option jsstring) :
  JSON_parse (strip_fences (text_or_default text)) = None ->
  exists t, text = Some t /\ text_or_default text = t.
Proof.
  destruct text as [[|c t]|]; simpl; intros H.
  - rewrite default_text_parses in H. discriminate.
  - exists (c :: t). auto.
  - rewrite default_text_parses in H. discriminate.
Qed.

(** Data other than [null] without a usable [parts] list gives the empty
    document. *)
Lemma reconstruct_without_parts B untyped img (data : json) :
  data <> JNull ->
  Array_isArray (get data (str "parts")) = false ->
  reconstruct B untyped img data = Fulfilled [].
Proof.
  intros Hd Ha. unfold reconstruct. rewrite Ha, orb_true_r.
  destruct data; try reflexivity. contradiction.
Qed.

(** A text part without content leaves the Markdown as it is. *)
Lemma part_step_empty_text B untyped img (part : json) (md : jsstring) :
  get part (str "type") = Some (JString (str "text")) ->
  truthy (get part (str "content")) = false ->
  part_step B untyped img part md = Fulfilled md.
Proof.
  intros Ht Hc. unfold part_step. rewrite Ht, Hc.
  destruct part; try reflexivity. discriminate.
Qed.

Lemma parts_loop_app B untyped img (pre post : list json) (md : jsstring) :
  parts_loop B untyped img (pre ++ post) md =
  await (parts_loop B untyped img pre md) (parts_loop B untyped img post).
Proof.
  revert md. induction pre as [|p pre IH]; intros md; simpl; [reflexivity|].
  destruct (part_step B untyped img p md); simpl; auto.
Qed.

End ParserFacts.
Import ParserFacts.

(** C2, as stated, fails: the text handed back after a parse failure is
    the text with its code fences stripped, not the raw text.  The
    fenced text below parses neither raw nor stripped, and the parser
    answers [hello]. *)
Lemma C2_fenced_text_is_not_returned_raw :
  JSON_parse fenced_hello = None /\
  JSON_parse (strip_fences fenced_hello) = None /\
  (forall B untyped img,
      parse_response B untyped img (Some fenced_hello) = Fulfilled (str "hello")) /\
  ~ (forall B untyped img text,
        JSON_parse text = None ->
        parse_response B untyped img (Some text) = Fulfilled text).
Proof.
  split; [vm_compute; reflexivity|]. split; [vm_compute; reflexivity|].
  split; [intros B untyped img; vm_compute; reflexivity|].
  intros H.
  specialize (H page_browser (fun _ _ => Pending) [] fenced_hello).
  vm_compute in H. specialize (H eq_refl). discriminate.
Qed.

(** C2, amended: for every response text whose fence-stripped form fails
    to parse as JSON, the parser step returns that fence-stripped text as
    the page's Markdown and the promise of [transcribeImage] is
    fulfilled; the result is the raw text whenever the text contains no
    backtick (code unit 96), hence no fence. *)
Theorem C2_parse_failure_returns_stripped_text :
  forall B untyped key generateContent img mime text,
    truthy_result key = true ->
    generateContent img mime = Fulfilled text ->
    JSON_parse (strip_fences (text_or_default text)) = None ->
    exists raw,
      text = Some raw /\
      parse_response B untyped img text = Fulfilled (strip_fences raw) /\
      transcribeImage B untyped key generateContent img mime
      = Fulfilled (strip_fences raw) /\
      (~ In 96%N raw ->
       transcribeImage B untyped key generateContent img mime = Fulfilled raw).
Proof.
  intros B untyped key gen img mime text Hkey Hgen Hfail.
  destruct (failing_text_given text Hfail) as (raw & Htext & Hraw).
  exists raw. rewrite Hraw in Hfail.
  assert (Hp : parse_response B untyped img text = Fulfilled (strip_fences raw)).
  { unfold parse_response. rewrite Hraw, Hfail. reflexivity. }
  assert (Ht : transcribeImage B untyped key gen img mime
               = Fulfilled (strip_fences raw)).
  { unfold transcribeImage. rewrite Hkey, Hgen. simpl. rewrite Hp.
    reflexivity. }
  repeat split; try assumption. intros Hs.
  rewrite Ht, strip_fences_without_backtick by assumption. reflexivity.
Qed.

Lemma C2_parse_failure_witness :
  exists raw,
    Some (str "Sorry, no JSON today") = Some raw /\
    parse_response page_browser (fun _ _ => Pending) [] (Some (str "Sorry, no JSON today"))
    = Fulfilled (strip_fences raw) /\
    transcribeImage page_browser (fun _ _ => Pending) (Some (str "key"))
                    (fun _ _ => Fulfilled (Some (str "Sorry, no JSON today")))
                    [] (str "image/jpeg")
    = Fulfilled (strip_fences raw) /\
    (~ In 96%N raw ->
     transcribeImage page_browser (fun _ _ => Pending) (Some (str "key"))
                     (fun _ _ => Fulfilled (Some (str "Sorry, no JSON today")))
                     [] (str "image/jpeg")
     = Fulfilled raw).
Proof.
  apply (C2_parse_failure_returns_stripped_text
           page_browser (fun _ _ => Pending) (Some (str "key"))
           (fun _ _ => Fulfilled (Some (str "Sorry, no JSON today")))
           [] (str "image/jpeg") (Some (str "Sorry, no JSON today")));
    vm_compute; reflexivity.
Defined.

(** C7 fails on the response text [null]: it parses as JSON and has no
    [parts] field, yet reading [data.parts] raises a [TypeError], which
    [transcribeImage] rethrows as its processing error. *)
Theorem C7_null_response_raises :
  JSON_parse (strip_fences (str "null")) = Some JNull /\
  (forall B untyped img,
      parse_response B untyped img (Some (str "null")) = Rejected TypeError) /\
  (forall B untyped img mime,
      transcribeImage B untyped (Some (str "key"))
                      (fun _ _ => Fulfilled (Some (str "null"))) img mime
      = Rejected (ProcessError TypeError)).
Proof.
  split; [vm_compute; reflexivity|]. split.
  - intros B untyped img. vm_compute. reflexivity.
  - intros B untyped img mime. vm_compute. reflexivity.
Qed.

(** C9: an item of [parts] whose type is [text] and whose content is
    absent or the empty string contributes nothing: the assembled
    Markdown is the one of the list without that item. *)
Theorem C9_empty_text_part_is_skipped :
  forall B untyped img (pre post : list json) (item : json) (md : jsstring),
    get item (str "type") = Some (JString (str "text")) ->
    get item (str "content") = None \/
    get item (str "content") = Some (JString []) ->
    part_step B untyped img item md = Fulfilled md /\
    parts_loop B untyped img (pre ++ item :: post) md
    = parts_loop B untyped img (pre ++ post) md /\
    reconstruct B untyped img (JObject [(str "parts", JArray (pre ++ item :: post))])
    = reconstruct B untyped img (JObject [(str "parts", JArray (pre ++ post))]).
Proof.
  intros B untyped img pre post item md Ht Hc.
  assert (Hfalsy : truthy (get item (str "content")) = false).
  { destruct Hc as [-> | ->]; reflexivity. }
  assert (Hstep : forall m, part_step B untyped img item m = Fulfilled m).
  { intros m. apply part_step_empty_text; assumption. }
  assert (Hloop : forall m,
             parts_loop B untyped img (pre ++ item :: post) m
             = parts_loop B untyped img (pre ++ post) m).
  { intros m. rewrite !parts_loop_app.
    destruct (parts_loop B untyped img pre m); simpl; try reflexivity.
    rewrite Hstep. reflexivity. }
  split; [apply Hstep|]. split; [apply Hloop|].
  unfold reconstruct.
  change (get (JObject [(str "parts", JArray (pre ++ item :: post))]) (str "parts"))
    with (Some (JArray (pre ++ item :: post))).
  change (get (JObject [(str "parts", JArray (pre ++ post))]) (str "parts"))
    with (Some (JArray (pre ++ post))).
  simpl. apply Hloop.
Qed.

Lemma C9_empty_text_part_witness :
  part_step page_browser (fun _ _ => Pending) [] empty_text_part []
  = Fulfilled [] /\
  parts_loop page_browser (fun _ _ => Pending) []
             ([angle_part] ++ empty_text_part :: [figure_part]) []
  = parts_loop page_browser (fun _ _ => Pending) []
               ([angle_part] ++ [figure_part]) [] /\
  reconstruct page_browser (fun _ _ => Pending) []
    (JObject [(str "parts",
               JArray ([angle_part] ++ empty_text_part :: [figure_part]))])
  = reconstruct page_browser (fun _ _ => Pending) []
      (JObject [(str "parts", JArray ([angle_part] ++ [figure_part]))]).
Proof.
  apply (C9_empty_text_part_is_skipped page_browser (fun _ _ => Pending) []
           [angle_part] [figure_part] empty_text_part []).
  - reflexivity.
  - right. reflexivity.
Defined.

(** ** The region cropper *)

Module CropperFacts.

Local Open Scope Q_scope.






End CropperFacts.
Import CropperFacts.






(** ** The exporters *)

Module ExportFacts.


Lemma firstn_exact (n : nat) (a b : jsstring) :
  n = List.length a -> firstn n (a ++ b) = a.
Proof.
  intros ->. rewrite firstn_app, Nat.sub_diag, firstn_all. simpl.
  apply app_nil_r.
Qed.

Lemma data_url_unfold (mime payload rest : jsstring) :
  data_url mime payload ++ rest =
  str "data:image/" ++ mime ++ str ";base64," ++ payload ++ rest.
Proof. unfold data_url. rewrite <- !app_assoc. reflexivity. Qed.

Lemma image_reference_unfold (alt mime payload rest : jsstring) :
  image_reference alt mime payload ++ rest =
  str "![" ++ alt ++ str "](" ++ str "data:image/" ++ mime
  ++ str ";base64," ++ payload ++ str ")" ++ rest.
Proof.
  unfold image_reference. rewrite <- !app_assoc.
  rewrite data_url_unfold. reflexivity.
Qed.

Lemma data_url_length (mime payload : jsstring) :
  List.length (data_url mime payload)
  = 19 + List.length mime + List.length payload.
Proof.
  unfold data_url. rewrite !length_app. simpl. lia.
Qed.

(** A match of the image pattern is an image reference; its captures
    are the data URL and the payload. *)
Lemma image_match_inv (j : nat) (t : jsstring) e rest caps :
  match_at re_image j t = Some (e, rest, caps) ->
  exists alt mime payload,
    t = image_reference alt mime payload ++ rest /\
    caps = [(1, data_url mime payload); (2, payload)].
Proof.
  intros H. apply match_at_sound in H. simpl in H. break.
  repeat match goal with
         | H : only _ _ = true |- _ => apply only_true in H; subst
         end.
  match goal with
  | |- exists _ _ _, ch "!" :: ch "[" :: ?alt ++ _ :: _ :: _ :: _ :: _ :: _ :: _ :: _ :: _ :: _ :: _ :: _ :: _ :: ?mime ++ _ :: _ :: _ :: _ :: _ :: _ :: _ :: _ :: ?payload ++ _ = _ /\ _ =>
      exists alt, mime, payload; split;
      [ rewrite image_reference_unfold; reflexivity
      | f_equal; [f_equal|f_equal; f_equal];
        [ change (ch "d" :: ch "a" :: ch "t" :: ch "a" :: ch ":" :: ch "i"
                     :: ch "m" :: ch "a" :: ch "g" :: ch "e" :: ch "/"
                     :: mime ++ ch ";" :: ch "b" :: ch "a" :: ch "s"
                     :: ch "e" :: ch "6" :: ch "4" :: ch ","
                     :: payload ++ ch ")" :: rest)
            with (str "data:image/" ++ mime ++ str ";base64," ++ payload
                      ++ str ")" ++ rest);
          rewrite <- data_url_unfold; apply firstn_exact;
          rewrite data_url_length; lia
        | apply firstn_exact; lia ] ]
  end.
Qed.


Lemma drop_space_keeps (c : N) (s : jsstring) :
  In c s -> is_space c = false -> In c (drop_space s).
Proof.
  intros Hin Hc. induction s as [|a s IH]; simpl in *; [contradiction|].
  destruct Hin as [->|Hin].
  - rewrite Hc. left. reflexivity.
  - destruct (is_space a); [auto|right; exact Hin].
Qed.

(** A line with a character that is not white space is not blank. *)
Lemma trim_truthy (c : N) (s : jsstring) :
  In c s -> is_space c = false -> truthy_string (trim s) = true.
Proof.
  intros Hin Hc. unfold trim.
  assert (H : In c (rev (drop_space (rev (drop_space s))))).
  { apply -> in_rev. apply drop_space_keeps; [|exact Hc].
    apply -> in_rev. apply drop_space_keeps; assumption. }
  destruct (rev (drop_space (rev (drop_space s)))); [contradiction|reflexivity].
Qed.

Lemma image_line_not_blank (pre alt mime payload post : jsstring) :
  truthy_string (trim (pre ++ image_reference alt mime payload ++ post)) = true.
Proof.
  apply (trim_truthy 33%N); [|reflexivity].
  apply in_or_app. right. left. reflexivity.
Qed.


Lemma join_cons (sep x : jsstring) (rest : list jsstring) :
  join sep (x :: rest) = x ++ List.concat (map (fun y => sep ++ y) rest).
Proof.
  revert x. induction rest as [|y rest IH]; intros x.
  - simpl. rewrite app_nil_r. reflexivity.
  - change (join sep (x :: y :: rest)) with (x ++ sep ++ join sep (y :: rest)).
    rewrite IH. simpl. rewrite <- app_assoc. reflexivity.
Qed.

Local Open Scope Q_scope.



End ExportFacts.
Import ExportFacts.

(** C8: the plain-text representation is the pages' Markdown, in page
    order, with a blank-line separator between consecutive pages, and it
    is what a successful copy writes as [text/plain]. *)
Theorem C8_plain_text_joins_pages :
  forall pages,
    plainText pages = join [newline; newline] (map markdown pages) /\
    plainText pages
    = match pages with
      | [] => []
      | p :: rest =>
          markdown p
          ++ List.concat (map (fun q => [newline; newline] ++ markdown q) rest)
      end /\
    written (copyToClipboard true pages)
    = Some {| text_plain := plainText pages; text_html := fullHtml pages |}.
Proof.
  intros pages. split; [reflexivity|]. split; [|reflexivity].
  unfold plainText. destruct pages as [|p rest]; [reflexivity|].
  simpl map. rewrite join_cons, map_map. reflexivity.
Qed.






(* ================================================================== *)
(** * Further properties *)
(* ================================================================== *)

(** ** The assembler *)

Module AssemblerFacts.

Lemma crop_of_box B untyped img (box : BoundingBox) :
  crop B untyped img
       (JArray [JNumber (ymin box); JNumber (xmin box);
                JNumber (ymax box); JNumber (xmax box)])
  = settled (cropImageFromBase64 B img box).
Proof. destruct box. reflexivity. Qed.

(** The cropper always settles. *)
Lemma cropper_settles B img (box : BoundingBox) :
  settled (cropImageFromBase64 B img box) <> Pending.
Proof.
  unfold cropImageFromBase64. destruct (load B (jpeg_url img)); simpl;
    [|discriminate].
  destruct (_ || _); simpl; [discriminate|].
  destruct (getContext B _); simpl; discriminate.
Qed.

Lemma part_step_segment B untyped img (seg : segment) (md : jsstring) :
  speaks seg ->
  part_step B untyped img (part_of seg) md
  = Fulfilled (md ++ rendering B img seg).
Proof.
  destruct seg as [content|box]; simpl; intros Hs.
  - unfold part_step. simpl.
    destruct content as [|c content]; [contradiction|]. reflexivity.
  - pose proof (cropper_settles B img box) as Hp. destruct box as [a b c d].
    unfold part_step, crop. simpl.
    destruct (settled (cropImageFromBase64 B img _)) as [r|e|].
    + destruct (truthy_result r); [reflexivity|].
      rewrite app_nil_r. reflexivity.
    + rewrite app_nil_r. reflexivity.
    + contradiction.
Qed.

Lemma parts_loop_segments B untyped img (segs : list segment) :
  Forall speaks segs ->
  forall md,
    parts_loop B untyped img (map part_of segs) md
    = Fulfilled (md ++ List.concat (map (rendering B img) segs)).
Proof.
  induction 1 as [|seg segs Hs _ IH]; intros md; simpl.
  - rewrite app_nil_r. reflexivity.
  - rewrite part_step_segment by assumption. simpl.
    rewrite IH, <- app_assoc. reflexivity.
Qed.

Lemma part_step_broken B untyped img (part : json) (md : jsstring) :
  broken_part part -> part_step B untyped img part md = Rejected TypeError.
Proof.
  intros [->|(Ht & Hc & Hs)]; [reflexivity|].
  unfold part_step. rewrite Ht, Hc. simpl.
  destruct part; try discriminate.
  destruct (get (JObject props) (str "content")) as [[| | |s| |]|];
    try reflexivity.
  exfalso. apply (Hs s). reflexivity.
Qed.

End AssemblerFacts.
Import AssemblerFacts.

(** X1: a response made of text parts with non-empty content and of
    figure parts with a box of four numbers is assembled in source
    order: the promise is fulfilled with the concatenation of the
    normalized texts, each followed by a blank line, and of the image
    references of the figures whose crop gives an image; a figure whose
    crop is turned down or fails adds nothing. *)
Theorem X1_segments_are_assembled_in_order :
  forall B untyped img (segs : list segment),
    Forall speaks segs ->
    reconstruct B untyped img
      (JObject [(str "parts", JArray (map part_of segs))])
    = Fulfilled (List.concat (map (rendering B img) segs)).
Proof.
  intros B untyped img segs Hs. unfold reconstruct.
  change (get (JObject [(str "parts", JArray (map part_of segs))]) (str "parts"))
    with (Some (JArray (map part_of segs))).
  simpl. apply (parts_loop_segments B untyped img segs Hs []).
Qed.

Lemma X1_segments_witness :
  reconstruct page_browser (fun _ _ => Pending) []
    (JObject [(str "parts",
               JArray (map part_of [TextSegment (str "\angle A");
                                    FigureSegment inverted_box;
                                    FigureSegment figure_box;
                                    TextSegment (str "x")]))])
  = Fulfilled (List.concat
                 (map (rendering page_browser [])
                      [TextSegment (str "\angle A");
                       FigureSegment inverted_box;
                       FigureSegment figure_box;
                       TextSegment (str "x")])).
Proof.
  apply X1_segments_are_assembled_in_order.
  repeat constructor; simpl; discriminate.
Defined.

(** X2: when the page image does not load, every figure of such a
    response is dropped and the page is the text alone, in order. *)
Theorem X2_unloadable_page_keeps_the_text :
  forall B untyped img (segs : list segment),
    load B (jpeg_url img) = None ->
    Forall speaks segs ->
    parts_loop B untyped img (map part_of segs) []
    = Fulfilled
        (List.concat
           (map (fun seg =>
                   match seg with
                   | TextSegment content => normalize content ++ [newline; newline]
                   | FigureSegment _ => []
                   end) segs)).
Proof.
  intros B untyped img segs Hload Hs.
  rewrite (parts_loop_segments B untyped img segs Hs []). simpl.
  f_equal. f_equal. apply map_ext. intros [content|box]; [reflexivity|].
  unfold rendering, cropImageFromBase64. rewrite Hload. reflexivity.
Qed.

Lemma X2_unloadable_page_witness :
  parts_loop blind_browser (fun _ _ => Pending) []
             (map part_of [TextSegment (str "a"); FigureSegment figure_box]) []
  = Fulfilled
      (List.concat
         (map (fun seg =>
                 match seg with
                 | TextSegment content => normalize content ++ [newline; newline]
                 | FigureSegment _ => []
                 end) [TextSegment (str "a"); FigureSegment figure_box])).
Proof.
  apply X2_unloadable_page_keeps_the_text.
  - reflexivity.
  - repeat constructor; simpl; discriminate.
Defined.

(** X3: a part that is [null], or a text part whose content is truthy
    but not a string, aborts the page: the loop is rejected with a
    [TypeError] even after parts that were assembled, and what they
    gave is lost. *)
Theorem X3_broken_part_aborts_the_page :
  forall B untyped img (pre post : list json) (part : json) (md md' : jsstring),
    parts_loop B untyped img pre md = Fulfilled md' ->
    broken_part part ->
    parts_loop B untyped img (pre ++ part :: post) md = Rejected TypeError /\
    reconstruct B untyped img
      (JObject [(str "parts", JArray (pre ++ part :: post))])
    = match parts_loop B untyped img pre [] with
      | Fulfilled _ => Rejected TypeError
      | other => other
      end.
Proof.
  intros B untyped img pre post part md md' Hpre Hbad. split.
  - rewrite parts_loop_app, Hpre. simpl.
    rewrite part_step_broken by assumption. reflexivity.
  - unfold reconstruct.
    change (get (JObject [(str "parts", JArray (pre ++ part :: post))]) (str "parts"))
      with (Some (JArray (pre ++ part :: post))).
    simpl. rewrite parts_loop_app.
    destruct (parts_loop B untyped img pre []); simpl; try reflexivity.
    rewrite part_step_broken by assumption. reflexivity.
Qed.

Lemma X3_broken_part_witness :
  parts_loop page_browser (fun _ _ => Pending) []
             ([angle_part] ++ JNull :: [figure_part]) []
  = Rejected TypeError /\
  reconstruct page_browser (fun _ _ => Pending) []
    (JObject [(str "parts", JArray ([angle_part] ++ JNull :: [figure_part]))])
  = match parts_loop page_browser (fun _ _ => Pending) [] [angle_part] [] with
    | Fulfilled _ => Rejected TypeError
    | other => other
    end.
Proof.
  apply (X3_broken_part_aborts_the_page page_browser (fun _ _ => Pending) []
           [angle_part] [figure_part] JNull []
           (str "\hat{A}" ++ [newline; newline])).
  - vm_compute. reflexivity.
  - left. reflexivity.
Defined.

(** X4: without an API key (absent or empty) [transcribeImage] is
    rejected with its own error, whatever the model call would do. *)
Theorem X4_missing_key_is_reported :
  forall B untyped key generateContent img mime,
    truthy_result key = false ->
    transcribeImage B untyped key generateContent img mime
    = Rejected (Error (str "API Key is missing. Please set the API_KEY environment variable.")).
Proof.
  intros B untyped key gen img mime Hkey. unfold transcribeImage.
  rewrite Hkey. reflexivity.
Qed.

Lemma X4_missing_key_witness :
  transcribeImage page_browser (fun _ _ => Pending) (Some [])
                  (fun _ _ => Fulfilled (Some response_with_figure))
                  [] (str "image/jpeg")
  = Rejected (Error (str "API Key is missing. Please set the API_KEY environment variable.")).
Proof.
  apply X4_missing_key_is_reported. reflexivity.
Defined.

(** X5: with an API key every failure is wrapped: a rejection of the
    model call with [e] gives the processing error of [e], and whatever
    else rejects [transcribeImage] is a processing error too. *)
Theorem X5_failures_are_wrapped :
  forall B untyped key generateContent img mime,
    truthy_result key = true ->
    (forall e, generateContent img mime = Rejected e ->
               transcribeImage B untyped key generateContent img mime
               = Rejected (ProcessError e)) /\
    (forall e, transcribeImage B untyped key generateContent img mime
               = Rejected e ->
               exists cause, e = ProcessError cause).
Proof.
  intros B untyped key gen img mime Hkey. unfold transcribeImage.
  rewrite Hkey. simpl. split.
  - intros e He. rewrite He. reflexivity.
  - intros e H.
    destruct (await (gen img mime) (parse_response B untyped img))
      as [a|e'|]; try discriminate.
    inversion H. exists e'. reflexivity.
Qed.

Lemma X5_failures_witness :
  (forall e, failing_backend [] (str "image/jpeg") = Rejected e ->
             transcribeImage page_browser (fun _ _ => Pending) (Some (str "key"))
                             failing_backend [] (str "image/jpeg")
             = Rejected (ProcessError e)) /\
  (forall e, transcribeImage page_browser (fun _ _ => Pending) (Some (str "key"))
                             failing_backend [] (str "image/jpeg")
             = Rejected e ->
             exists cause, e = ProcessError cause).
Proof.
  apply (X5_failures_are_wrapped page_browser (fun _ _ => Pending)
           (Some (str "key")) failing_backend [] (str "image/jpeg")).
  reflexivity.
Defined.

(** ** Data URLs, the cropper and the files *)

Module DataUrlFacts.

Lemma split_without (sep : N) (s : jsstring) :
  ~ In sep s -> split sep s = [s].
Proof.
  induction s as [|c s IH]; intros H; simpl; [reflexivity|].
  unfold char_eqb. destruct (N.eqb_spec c sep) as [->|Hc].
  - exfalso. apply H. left. reflexivity.
  - rewrite IH; [reflexivity|]. intros Hin. apply H. right. exact Hin.
Qed.

Lemma split_at_first (sep : N) (a b : jsstring) :
  ~ In sep a -> split sep (a ++ sep :: b) = a :: split sep b.
Proof.
  induction a as [|c a IH]; intros H; simpl.
  - unfold char_eqb. rewrite N.eqb_refl. reflexivity.
  - unfold char_eqb. destruct (N.eqb_spec c sep) as [->|Hc].
    + exfalso. apply H. left. reflexivity.
    + rewrite IH; [reflexivity|]. intros Hin. apply H. right. exact Hin.
Qed.

(** The text after the first comma of a data URL is its payload. *)
Lemma after_comma_payload (media payload : jsstring) :
  ~ In 44%N media -> ~ In 44%N payload ->
  after_comma (media ++ 44%N :: payload) = Some payload.
Proof.
  intros Hm Hp. unfold after_comma.
  change (ch ",") with 44%N.
  rewrite split_at_first, split_without by assumption. reflexivity.
Qed.

Lemma render_pages_skip (pages : list PdfPage) :
  forall images,
    render_pages pages images
    = render_pages (filter page_context pages) images.
Proof.
  induction pages as [|p pages IH]; intros images; simpl; [reflexivity|].
  destruct (page_context p) eqn:Hp; simpl.
  - rewrite Hp. destruct (page_render p); simpl; auto.
  - apply IH.
Qed.

Lemma render_pages_all (pages : list PdfPage) :
  forall urls images,
    Forall (fun p => page_context p = true) pages ->
    map page_render pages = map Fulfilled urls ->
    render_pages pages images = Fulfilled (images ++ map after_comma urls).
Proof.
  induction pages as [|p pages IH]; intros urls images Hc Hr; simpl.
  - destruct urls; [|discriminate]. simpl. rewrite app_nil_r. reflexivity.
  - destruct urls as [|u urls]; [discriminate|]. simpl in Hr.
    inversion Hr as [[Hu Hrest]]. inversion Hc as [|? ? Hp Hc']; subst.
    rewrite Hp, Hu. simpl. rewrite (IH urls) by assumption.
    rewrite <- app_assoc. reflexivity.
Qed.

Local Open Scope Q_scope.



End DataUrlFacts.
Import DataUrlFacts.





(** X8: for a file that a reader reads as the data URL media type,
    comma, payload (neither holding a comma), [blobToBase64] is
    fulfilled with the payload and [getPreviewUrl] with the whole URL;
    when the reader fails, [blobToBase64] is rejected while
    [getPreviewUrl], which has no error handler, never settles. *)
Theorem X8_reading_a_file :
  forall (file : File),
    (forall media payload,
        read_result file = Some (media ++ 44%N :: payload) ->
        ~ In 44%N media -> ~ In 44%N payload ->
        blobToBase64 file = Fulfilled (Some payload) /\
        getPreviewUrl file = Fulfilled (media ++ 44%N :: payload)) /\
    (read_result file = None ->
     blobToBase64 file = Rejected ErrorEvent /\
     getPreviewUrl file = Pending).
Proof.
  intros file. split.
  - intros media payload Hr Hm Hp. unfold blobToBase64, getPreviewUrl.
    rewrite Hr. split; [|reflexivity].
    rewrite after_comma_payload by assumption. reflexivity.
  - intros Hr. unfold blobToBase64, getPreviewUrl. rewrite Hr. auto.
Qed.

Lemma X8_reading_witness :
  blobToBase64 png_file = Fulfilled (Some (str "iVBORw0KGgo=")) /\
  getPreviewUrl png_file
  = Fulfilled (str "data:image/png;base64" ++ 44%N :: str "iVBORw0KGgo=").
Proof.
  apply (proj1 (X8_reading_a_file png_file)).
  - reflexivity.
  - vm_compute. intuition discriminate.
  - vm_compute. intuition discriminate.
Defined.

(** X9: [convertPdfToImages] silently skips the pages whose canvas
    gives no context: the result is that of the document without them,
    so that later pages move up.  When all the remaining pages render,
    the images are their payloads in page order, at most one per page. *)
Theorem X9_pdf_pages_without_context_are_skipped :
  forall (file : File) (pages : list PdfPage),
    pdf_document file = Fulfilled pages ->
    convertPdfToImages file
    = render_pages (filter page_context pages) [] /\
    (forall urls,
        map page_render (filter page_context pages) = map Fulfilled urls ->
        convertPdfToImages file = Fulfilled (map after_comma urls) /\
        List.length urls <= List.length pages).
Proof.
  intros file pages Hdoc. unfold convertPdfToImages. rewrite Hdoc. simpl.
  split; [apply render_pages_skip|].
  intros urls Hr. split.
  - rewrite render_pages_skip.
    rewrite (render_pages_all _ urls []); [reflexivity| |exact Hr].
    apply Forall_forall. intros p Hp. apply filter_In in Hp. tauto.
  - apply (f_equal (@List.length _)) in Hr. rewrite !length_map in Hr.
    rewrite <- Hr. apply filter_length_le.
Qed.

Lemma X9_pdf_pages_witness :
  convertPdfToImages three_page_pdf
  = render_pages (filter page_context three_pages) [] /\
  (forall urls,
      map page_render (filter page_context three_pages) = map Fulfilled urls ->
      convertPdfToImages three_page_pdf = Fulfilled (map after_comma urls) /\
      List.length urls <= List.length three_pages).
Proof.
  apply (X9_pdf_pages_without_context_are_skipped three_page_pdf three_pages).
  reflexivity.
Defined.

(** ** Lines without image reference, and the shape of the documents *)

Module LineFacts.

Lemma nomatch_exec (q : regex) :
  forall s i, nomatch q s -> exec q i s = None.
Proof.
  induction s as [|c s IH]; intros i [H0 H1]; simpl; rewrite H0;
    [reflexivity|]. apply IH. exact H1.
Qed.

Lemma image_match_bang j t e rest caps :
  match_at re_image j t = Some (e, rest, caps) -> In 33%N t.
Proof.
  intros H. apply image_match_inv in H.
  destruct H as (alt & mime & payload & -> & _).
  rewrite image_reference_unfold. left. reflexivity.
Qed.

(** A line without exclamation mark holds no image reference. *)
Lemma no_bang_no_image (line : jsstring) :
  ~ In 33%N line -> String_match line re_image = None.
Proof.
  intros H. unfold String_match. apply nomatch_exec.
  apply (nomatch_without _ 33%N); [apply image_match_bang|exact H].
Qed.

Lemma drop_space_blank (s : jsstring) :
  forallb is_space s = true -> drop_space s = [].
Proof.
  induction s as [|c s IH]; simpl; [reflexivity|].
  destruct (is_space c); simpl; [exact IH|discriminate].
Qed.

Lemma nonspace_in (s : jsstring) :
  forallb is_space s = false -> exists c, In c s /\ is_space c = false.
Proof.
  induction s as [|c s IH]; simpl; [discriminate|].
  destruct (is_space c) eqn:Hc; simpl.
  - intros H. destruct (IH H) as (d & Hd & Hs). exists d. auto.
  - intros _. exists c. auto.
Qed.

(** A line is blank exactly when all its characters are white space. *)
Lemma trim_truthy_iff (s : jsstring) :
  truthy_string (trim s) = negb (forallb is_space s).
Proof.
  destruct (forallb is_space s) eqn:H; simpl.
  - unfold trim. rewrite (drop_space_blank s H). reflexivity.
  - destruct (nonspace_in s H) as (c & Hin & Hc).
    apply (trim_truthy c); assumption.
Qed.

Lemma blank_no_bang (line : jsstring) :
  forallb is_space line = true -> ~ In 33%N line.
Proof.
  intros H Hin. rewrite forallb_forall in H. apply H in Hin.
  vm_compute in Hin. discriminate.
Qed.

(** Replacing every character of a class by a fixed text. *)
Lemma replace_all_class (p : cclass) (repl out : jsstring) :
  (forall whole, substitution (Cls p) repl whole [] = out) ->
  forall fuel s i,
    List.length s < fuel ->
    replace_all fuel (Cls p) repl i s
    = flat_map (fun c => if p c then out else [c]) s.
Proof.
  intros Hout. induction fuel as [|f IH]; intros s i Hlen; [lia|].
  destruct s as [|c s]; [reflexivity|].
  simpl in Hlen. cbn [replace_all match_at rmatch accept flat_map].
  destruct (p c) eqn:Hc.
  - unfold accept. rewrite Hout.
    replace (i <? S i) with true by (symmetry; apply Nat.ltb_lt; lia).
    rewrite IH by lia. reflexivity.
  - rewrite IH by lia. reflexivity.
Qed.

Lemma flat_map_compose {A : Type} (f g : A -> list A) (s : list A) :
  flat_map g (flat_map f s) = flat_map (fun c => flat_map g (f c)) s.
Proof.
  induction s as [|c s IH]; simpl; [reflexivity|].
  rewrite flat_map_app, IH. reflexivity.
Qed.

(** The three replacements amount to one pass over the characters. *)
Lemma escape_html_chars (line : jsstring) :
  escape_html line = flat_map escape_char line.
Proof.
  unfold escape_html, String_replaceAll.
  rewrite (replace_all_class (only "&") (str "&amp;") (str "&amp;"))
    by (reflexivity || lia).
  rewrite (replace_all_class (only "<") (str "&lt;") (str "&lt;"))
    by (reflexivity || lia).
  rewrite (replace_all_class (only ">") (str "&gt;") (str "&gt;"))
    by (reflexivity || lia).
  rewrite !flat_map_compose. apply flat_map_ext. intros c.
  unfold escape_char, only, char_eqb. change (ch "&") with 38%N.
  change (ch "<") with 60%N. change (ch ">") with 62%N.
  destruct (N.eqb_spec c 38) as [->|H1]; [reflexivity|].
  simpl. destruct (N.eqb_spec c 60) as [->|H2]; [reflexivity|].
  simpl. rewrite app_nil_r. destruct (N.eqb_spec c 62) as [->|H3]; reflexivity.
Qed.

Lemma escape_char_space (c : N) : is_space c = true -> escape_char c = [c].
Proof.
  intros H. unfold escape_char.
  destruct (N.eqb_spec c 38) as [->|_]; [vm_compute in H; discriminate|].
  destruct (N.eqb_spec c 60) as [->|_]; [vm_compute in H; discriminate|].
  destruct (N.eqb_spec c 62) as [->|_]; [vm_compute in H; discriminate|].
  reflexivity.
Qed.

Lemma escape_char_nonspace (c : N) :
  is_space c = false -> forallb is_space (escape_char c) = false.
Proof.
  intros H. unfold escape_char.
  destruct (c =? 38)%N; [reflexivity|].
  destruct (c =? 60)%N; [reflexivity|].
  destruct (c =? 62)%N; [reflexivity|]. simpl. rewrite H. reflexivity.
Qed.

(** Escaping keeps blank lines blank and other lines not blank. *)
Lemma escape_blank (line : jsstring) :
  forallb is_space (flat_map escape_char line) = forallb is_space line.
Proof.
  induction line as [|c line IH]; simpl; [reflexivity|].
  rewrite forallb_app, IH. destruct (is_space c) eqn:Hc.
  - rewrite escape_char_space by assumption. simpl. rewrite Hc. reflexivity.
  - rewrite escape_char_nonspace by assumption. reflexivity.
Qed.

Lemma escape_char_brackets (c : N) :
  ~ In 60%N (escape_char c) /\ ~ In 62%N (escape_char c).
Proof.
  unfold escape_char.
  destruct (N.eqb_spec c 38); [vm_compute; intuition discriminate|].
  destruct (N.eqb_spec c 60); [vm_compute; intuition discriminate|].
  destruct (N.eqb_spec c 62); [vm_compute; intuition discriminate|].
  simpl. split; intros [H|[]]; congruence.
Qed.

Lemma paragraph_of_line_not_break B (line : jsstring) :
  is_page_break (paragraph_of_line B line) = false.
Proof.
  unfold paragraph_of_line. destruct (negb _); [reflexivity|].
  destruct (matched_group _ 2); [|reflexivity].
  unfold image_paragraph. destruct (final_size _).
  destruct (atob B _); reflexivity.
Qed.

Lemma split_length (sep : N) (s : jsstring) :
  List.length (split sep s) = S (occurrences sep s).
Proof.
  unfold occurrences. induction s as [|c s IH]; simpl; [reflexivity|].
  unfold char_eqb. rewrite (N.eqb_sym sep c).
  destruct (c =? sep)%N; simpl.
  - rewrite IH. reflexivity.
  - destruct (split sep s) as [|l ls]; simpl in *; [discriminate|exact IH].
Qed.

Lemma page_breaks_of_page B (page : ProcessedPage) :
  filter is_page_break (paragraphs_of_page B page) = [ParagraphPageBreak].
Proof.
  unfold paragraphs_of_page. rewrite filter_app. simpl.
  induction (split newline (markdown page)) as [|l ls IH]; simpl;
    [reflexivity|].
  rewrite paragraph_of_line_not_break. exact IH.
Qed.

Local Open Scope Q_scope.

(** The width after scaling is at most the maximum and at most the
    natural width, and the proportions are kept. *)
Lemma final_size_bounds (dims : Image) :
  fst (final_size dims) <= 600 /\
  fst (final_size dims) <= img_width dims /\
  fst (final_size dims) * img_height dims
  == snd (final_size dims) * img_width dims.
Proof.
  unfold final_size, MAX_WIDTH, greater.
  destruct (Qle_bool (img_width dims) 600) eqn:H; simpl.
  - apply Qle_bool_iff in H. repeat split; try lra.
  - assert (600 < img_width dims).
    { destruct (Qlt_le_dec 600 (img_width dims)) as [Hl|Hl]; [exact Hl|].
      apply Qle_bool_iff in Hl. congruence. }
    repeat split; try lra. field. lra.
Qed.

End LineFacts.
Import LineFacts.

(** X10: the three replacements of the HTML escaping amount to one pass
    that turns every ampersand, less-than and greater-than sign into its
    entity and keeps every other character, so that an ampersand is
    never escaped twice and the escaped text holds no angle bracket. *)
Theorem X10_escaping_is_one_pass :
  forall line,
    escape_html line = flat_map escape_char line /\
    ~ In 60%N (escape_html line) /\ ~ In 62%N (escape_html line).
Proof.
  intros line. rewrite escape_html_chars. split; [reflexivity|].
  split; intros H; apply in_flat_map in H; destruct H as (c & _ & H);
    destruct (escape_char_brackets c) as [H1 H2]; contradiction.
Qed.

(** X11: a line without exclamation mark is never taken for an image by
    the word-processor exporter: a line of white space only gives an
    empty paragraph, any other such line a text paragraph with the line
    verbatim (nothing is escaped or trimmed). *)
Theorem X11_plain_line_in_the_document :
  forall B line,
    ~ In 33%N line ->
    paragraph_of_line B line
    = if forallb is_space line then ParagraphText []
      else ParagraphChildren [TextRun line (str "Times New Roman") 24].
Proof.
  intros B line H. unfold paragraph_of_line.
  rewrite trim_truthy_iff, negb_involutive, no_bang_no_image by assumption.
  reflexivity.
Qed.

Lemma X11_plain_line_witness :
  paragraph_of_line page_browser (str "  a < b  ")
  = if forallb is_space (str "  a < b  ") then ParagraphText []
    else ParagraphChildren [TextRun (str "  a < b  ") (str "Times New Roman") 24].
Proof.
  apply X11_plain_line_in_the_document. vm_compute. intuition discriminate.
Defined.

(** X12: for a line without exclamation mark the clipboard exporter
    emits nothing when the line is white space only, and otherwise one
    paragraph element around the escaped line, white space at the ends
    included. *)
Theorem X12_plain_line_in_the_clipboard :
  forall line,
    ~ In 33%N line ->
    html_of_line line
    = if forallb is_space line then []
      else text_element (flat_map escape_char line).
Proof.
  intros line H. unfold html_of_line.
  rewrite no_bang_no_image by assumption. simpl.
  rewrite escape_html_chars, trim_truthy_iff, escape_blank.
  destruct (forallb is_space line); reflexivity.
Qed.

Lemma X12_plain_line_witness :
  html_of_line (str "  a < b  ")
  = if forallb is_space (str "  a < b  ") then []
    else text_element (flat_map escape_char (str "  a < b  ")).
Proof.
  apply X12_plain_line_in_the_clipboard. vm_compute. intuition discriminate.
Defined.

(** X13: the document of [generateDocx] holds exactly one page break
    per page, the last paragraph of a non-empty document is a page
    break, and each page gives one paragraph per line of its Markdown
    (one more than its line feeds) plus the break. *)
Theorem X13_one_page_break_per_page :
  forall B pages,
    List.length (filter is_page_break (generateDocx B pages))
    = List.length pages /\
    List.length (generateDocx B pages)
    = list_sum (map (fun page => occurrences newline (markdown page) + 2)
                    pages) /\
    (forall page, last (generateDocx B (pages ++ [page])) (ParagraphText [])
                  = ParagraphPageBreak).
Proof.
  intros B pages. split; [|split].
  - unfold generateDocx. induction pages as [|p pages IH]; [reflexivity|].
    simpl. rewrite filter_app, length_app, page_breaks_of_page, IH.
    reflexivity.
  - unfold generateDocx. induction pages as [|p pages IH]; [reflexivity|].
    simpl. rewrite length_app, IH. f_equal.
    unfold paragraphs_of_page. rewrite length_app, length_map, split_length.
    simpl. lia.
  - intros page. unfold generateDocx.
    rewrite map_app, concat_app. simpl. rewrite app_nil_r.
    unfold paragraphs_of_page. rewrite app_assoc. apply last_last.
Qed.

(** X14: no image of the document is wider than 600: every image run
    that [generateDocx] inserts has a width of at most 600, whatever the
    pages and the browser. *)
Theorem X14_no_image_is_wider_than_the_maximum :
  forall B pages data width height,
    In (ParagraphChildren [ImageRun data width height]) (generateDocx B pages) ->
    (width <= 600)%Q.
Proof.
  intros B pages data w h Hin. unfold generateDocx in Hin.
  apply in_concat in Hin. destruct Hin as (ps & Hps & Hin).
  apply in_map_iff in Hps. destruct Hps as (page & <- & _).
  unfold paragraphs_of_page in Hin. apply in_app_or in Hin.
  destruct Hin as [Hin|[Hin|[]]]; [|discriminate].
  apply in_map_iff in Hin. destruct Hin as (line & Hline & _).
  unfold paragraph_of_line in Hline.
  destruct (negb _); [discriminate|].
  destruct (matched_group _ 2) as [b|]; [|discriminate].
  unfold image_paragraph in Hline.
  pose proof (final_size_bounds (getImageDimensions B b)) as (Hb & _).
  destruct (final_size (getImageDimensions B b)) as [fw fh].
  destruct (atob B b); [|discriminate].
  inversion Hline; subst. exact Hb.
Qed.

Lemma X14_no_image_witness :
  (600 <= 600)%Q.
Proof.
  apply (X14_no_image_is_wider_than_the_maximum wide_browser
           [ {| pageNumber := 1%Q; imageUrl := [];
                markdown := figure_line (str "QUJD") |} ]
           (str "QUJD") 600%Q (800 * (600 / 1200))%Q).
  vm_compute. left. reflexivity.
Defined.


(** ** From the assembler to the exporters *)

Module ReferenceFacts.

Lemma only_same (a : ascii) : only a (ch a) = true.
Proof. unfold only, char_eqb. apply N.eqb_refl. Qed.

Lemma only_other (a : ascii) (c : N) : c <> ch a -> only a c = false.
Proof. unfold only, char_eqb. intros H. apply N.eqb_neq. exact H. Qed.

(** A literal consumes itself. *)
Lemma rmatch_lit_chars (l : list ascii) :
  forall i t caps k,
    rmatch (lit_chars l) i (map ch l ++ t) caps k
    = k (i + List.length l) t caps.
Proof.
  induction l as [|a l IH]; intros i t caps k.
  - simpl. rewrite Nat.add_0_r. reflexivity.
  - destruct l as [|b l].
    + simpl. rewrite only_same. f_equal. lia.
    + change (lit_chars (a :: b :: l))
        with (Seq (Cls (only a)) (lit_chars (b :: l))).
      change (map ch (a :: b :: l) ++ t)
        with (ch a :: (map ch (b :: l) ++ t)).
      cbn [rmatch]. rewrite only_same. rewrite IH.
      f_equal. simpl. lia.
Qed.

Lemma rmatch_lit (s : string) i t caps k :
  rmatch (lit s) i (str s ++ t) caps k
  = k (i + List.length (str s)) t caps.
Proof.
  unfold lit, str. rewrite (rmatch_lit_chars _ i t caps k), length_map.
  reflexivity.
Qed.

(** A literal fails on another first character. *)
Lemma rmatch_lit_fails (a : ascii) (l : list ascii) i c s caps k :
  c <> ch a -> rmatch (lit_chars (a :: l)) i (c :: s) caps k = None.
Proof.
  intros H. destruct l as [|b l]; simpl; rewrite only_other by assumption;
    reflexivity.
Qed.

Lemma lit_fails (l : string) (a : ascii) (l' : string) i c s caps k :
  l = String a l' -> c <> ch a -> rmatch (lit l) i (c :: s) caps k = None.
Proof. intros -> H. unfold lit. simpl. apply rmatch_lit_fails. exact H. Qed.

Lemma starL_first (p : cclass) k i s r :
  k i s = Some r -> starL p k i s = Some r.
Proof. intros H. destruct s; simpl; rewrite H; reflexivity. Qed.

(** A lazy star runs over a text in which its continuation cannot
    start. *)
Lemma starL_until (p : cclass) (k : nat -> jsstring -> option result) (x : N) :
  (forall j c s, c <> x -> k j (c :: s) = None) ->
  forall w i t,
    forallb p w = true -> ~ In x w ->
    starL p k i (w ++ t) = starL p k (i + List.length w) t.
Proof.
  intros Hk. induction w as [|c w IH]; intros i t Hp Hx.
  - simpl. rewrite Nat.add_0_r. reflexivity.
  - simpl in Hp. apply andb_true_iff in Hp. destruct Hp as [Hc Hp].
    cbn [app starL]. rewrite Hk, Hc.
    + simpl orelse. rewrite IH; [f_equal; simpl; lia|exact Hp|].
      intros H. apply Hx. right. exact H.
    + intros ->. apply Hx. left. reflexivity.
Qed.

(** A greedy star takes a whole run when the continuation succeeds
    behind it. *)
Lemma starG_max (p : cclass) (k : nat -> jsstring -> option result) :
  forall w i t r,
    forallb p w = true ->
    match t with c :: _ => p c = false | [] => True end ->
    k (i + List.length w) t = Some r ->
    starG p k i (w ++ t) = Some r.
Proof.
  induction w as [|c w IH]; intros i t r Hp Ht Hk.
  - simpl in *. rewrite Nat.add_0_r in Hk.
    destruct t as [|c t]; simpl; [exact Hk|]. rewrite Ht. exact Hk.
  - simpl in Hp. apply andb_true_iff in Hp. destruct Hp as [Hc Hp].
    cbn [app starG]. rewrite Hc.
    rewrite (IH (S i) t r Hp Ht); [reflexivity|].
    rewrite <- Hk. f_equal. simpl. lia.
Qed.

Lemma rmatch_lit_nil (s : string) i caps k :
  rmatch (lit s) i (str s) caps k = k (i + List.length (str s)) [] caps.
Proof.
  rewrite <- (app_nil_r (str s)) at 1. apply rmatch_lit.
Qed.

Lemma exec_found (r : regex) (i : nat) (s : jsstring) e rest caps :
  match_at r i s = Some (e, rest, caps) ->
  exec r i s
  = Some {| m_index := i; m_text := firstn (e - i) s; m_caps := caps |}.
Proof. intros H. destruct s; simpl; rewrite H; reflexivity. Qed.

Lemma replace_first_found (r : regex) (repl : jsstring) (i : nat)
      (s : jsstring) e rest caps :
  match_at r i s = Some (e, rest, caps) ->
  replace_first r repl i s
  = substitution r repl (firstn (e - i) s) caps ++ rest.
Proof. intros H. destruct s; simpl; rewrite H; reflexivity. Qed.

Ltac run_star x :=
  rewrite (starL_until dot _ x);
  [|intros; eapply lit_fails; [reflexivity|assumption]|assumption..].

(** The image pattern matches a reference whose alternative text holds
    no closing bracket, whose type holds no semicolon and whose payload
    holds no closing parenthesis, and captures its URL and payload. *)
Lemma image_reference_match (alt mime payload post : jsstring) (j : nat) :
  forallb dot alt = true -> ~ In 93%N alt ->
  forallb dot mime = true -> ~ In 59%N mime ->
  forallb dot payload = true -> ~ In 41%N payload ->
  match_at re_image j (image_reference alt mime payload ++ post)
  = Some (j + List.length (image_reference alt mime payload), post,
          [(1, data_url mime payload); (2, payload)]).
Proof.
  intros Ha1 Ha2 Hm1 Hm2 Hp1 Hp2.
  rewrite image_reference_unfold. unfold match_at, re_image.
  cbn [seq rmatch]. rewrite rmatch_lit. run_star 93%N.
  apply starL_first; cbv beta. rewrite !rmatch_lit. run_star 59%N.
  apply starL_first; cbv beta. rewrite rmatch_lit. run_star 41%N.
  apply starL_first; cbv beta. rewrite rmatch_lit. unfold accept.
  rewrite <- data_url_unfold.
  rewrite (firstn_exact _ (data_url mime payload))
    by (rewrite data_url_length; simpl; lia).
  rewrite (firstn_exact _ payload) by lia.
  match goal with
  | |- Some (?n, _, _) = _ =>
      replace n with (j + List.length (image_reference alt mime payload))
  end; [reflexivity|].
  unfold image_reference. rewrite !length_app, data_url_length. simpl. lia.
Qed.

Lemma image_needs_bang (c : N) (s : jsstring) (i : nat) :
  c <> 33%N -> match_at re_image i (c :: s) = None.
Proof.
  intros H. unfold match_at, re_image. cbn [seq rmatch].
  eapply lit_fails; [reflexivity|exact H].
Qed.

Lemma exec_image_skip (pre : jsstring) :
  forall i t, ~ In 33%N pre ->
    exec re_image i (pre ++ t) = exec re_image (i + List.length pre) t.
Proof.
  induction pre as [|c pre IH]; intros i t H.
  - simpl. rewrite Nat.add_0_r. reflexivity.
  - cbn [app exec]. rewrite image_needs_bang.
    + rewrite IH; [f_equal; simpl; lia|]. intros Hin. apply H. right. exact Hin.
    + intros ->. apply H. left. reflexivity.
Qed.

(** The first reference of a line is the one that is found. *)
Lemma image_line_match (pre alt mime payload post : jsstring) :
  ~ In 33%N pre ->
  forallb dot alt = true -> ~ In 93%N alt ->
  forallb dot mime = true -> ~ In 59%N mime ->
  forallb dot payload = true -> ~ In 41%N payload ->
  String_match (pre ++ image_reference alt mime payload ++ post) re_image
  = Some {| m_index := List.length pre;
            m_text := image_reference alt mime payload;
            m_caps := [(1, data_url mime payload); (2, payload)] |}.
Proof.
  intros Hpre Ha1 Ha2 Hm1 Hm2 Hp1 Hp2. unfold String_match.
  rewrite exec_image_skip by assumption. simpl Nat.add.
  rewrite (exec_found _ _ _ _ _ _
             (image_reference_match alt mime payload post (List.length pre)
                Ha1 Ha2 Hm1 Hm2 Hp1 Hp2)).
  f_equal. f_equal. apply firstn_exact. lia.
Qed.

Lemma figure_line_reference (b : jsstring) :
  figure_line b = [] ++ image_reference (str "Figure") (str "jpeg") b ++ [].
Proof.
  unfold figure_line, image_reference, data_url. rewrite app_nil_r.
  rewrite <- !app_assoc. reflexivity.
Qed.

Lemma no_terminator_no_newline (s : jsstring) :
  forallb dot s = true -> ~ In newline s.
Proof.
  intros H Hin. rewrite forallb_forall in H. apply H in Hin.
  discriminate.
Qed.

(** Splitting undoes joining. *)
Lemma split_join (sep : N) (lines : list jsstring) :
  lines <> [] -> Forall (fun l => ~ In sep l) lines ->
  split sep (join [sep] lines) = lines.
Proof.
  induction lines as [|x rest IH]; intros Hne Hall; [contradiction|].
  inversion Hall as [|? ? Hx Hrest]; subst.
  destruct rest as [|y rest].
  - simpl. apply split_without. exact Hx.
  - change (join [sep] (x :: y :: rest))
      with (x ++ sep :: join [sep] (y :: rest)).
    rewrite split_at_first by exact Hx. rewrite IH; [reflexivity| |exact Hrest].
    discriminate.
Qed.

Lemma figure_line_match (b : jsstring) :
  forallb dot b = true -> ~ In 41%N b ->
  String_match (figure_line b) re_image
  = Some {| m_index := 0;
            m_text := image_reference (str "Figure") (str "jpeg") b;
            m_caps := [(1, jpeg_url b); (2, b)] |}.
Proof.
  intros Hdot Hpar. rewrite figure_line_reference.
  apply (image_line_match [] (str "Figure") (str "jpeg") b []);
    try assumption; try reflexivity; vm_compute; intuition discriminate.
Qed.

Lemma figure_line_html (b : jsstring) :
  forallb dot b = true -> ~ In 41%N b ->
  html_of_line (figure_line b) = img_element (jpeg_url b).
Proof.
  intros Hdot Hpar. unfold html_of_line, matched_group.
  rewrite figure_line_match by assumption. reflexivity.
Qed.

Lemma figure_line_paragraph B (b : jsstring) :
  b <> [] -> forallb dot b = true -> ~ In 41%N b ->
  paragraph_of_line B (figure_line b) = image_paragraph B b.
Proof.
  intros Hne Hdot Hpar. unfold paragraph_of_line, matched_group.
  rewrite figure_line_match by assumption.
  rewrite figure_line_reference at 1. rewrite image_line_not_blank. simpl.
  destruct b; [contradiction|reflexivity].
Qed.

End ReferenceFacts.
Import ReferenceFacts.

(** X16: a reference is recognised.  In a line
    [pre ![alt](data:image/mime;base64,payload) post] where [pre] holds
    no exclamation mark, [alt] no closing bracket, [mime] no semicolon,
    [payload] no closing parenthesis and none of the three a line
    terminator, the exporters find this reference and no other: the
    clipboard exporter emits the image element of its data URL, and the
    word-processor exporter the image paragraph of its payload when the
    payload is not empty. *)
Theorem X16_reference_is_recognised :
  forall pre alt mime payload post,
    ~ In 33%N pre ->
    forallb dot alt = true -> ~ In 93%N alt ->
    forallb dot mime = true -> ~ In 59%N mime ->
    forallb dot payload = true -> ~ In 41%N payload ->
    html_of_line (pre ++ image_reference alt mime payload ++ post)
    = img_element (data_url mime payload) /\
    forall B,
      paragraph_of_line B (pre ++ image_reference alt mime payload ++ post)
      = if truthy_string payload then image_paragraph B payload
        else text_paragraph (pre ++ image_reference alt mime payload ++ post).
Proof.
  intros pre alt mime payload post Hpre Ha1 Ha2 Hm1 Hm2 Hp1 Hp2.
  pose proof (image_line_match pre alt mime payload post
                Hpre Ha1 Ha2 Hm1 Hm2 Hp1 Hp2) as Hm.
  split.
  - unfold html_of_line, matched_group. rewrite Hm. reflexivity.
  - intros B. unfold paragraph_of_line, matched_group. rewrite Hm.
    rewrite image_line_not_blank. simpl.
    destruct (truthy_string payload); reflexivity.
Qed.

Lemma X16_reference_witness :
  html_of_line (str "Figure 1: "
                ++ image_reference (str "x") (str "png") (str "QUJD")
                ++ str " (see text)")
  = img_element (data_url (str "png") (str "QUJD")) /\
  forall B,
    paragraph_of_line B (str "Figure 1: "
                ++ image_reference (str "x") (str "png") (str "QUJD")
                ++ str " (see text)")
    = if truthy_string (str "QUJD") then image_paragraph B (str "QUJD")
      else text_paragraph (str "Figure 1: "
                ++ image_reference (str "x") (str "png") (str "QUJD")
                ++ str " (see text)").
Proof.
  apply (X16_reference_is_recognised
           (str "Figure 1: ") (str "x") (str "png") (str "QUJD")
           (str " (see text)")).
  - vm_compute. intuition discriminate.
  - reflexivity.
  - vm_compute. intuition discriminate.
  - reflexivity.
  - vm_compute. intuition discriminate.
  - reflexivity.
  - vm_compute. intuition discriminate.
Defined.

(** X17: the figure the assembler writes reaches both exports.  When the
    Markdown of a page is made of lines and one of them is the line
    [![Figure](data:image/jpeg;base64,b)] that the assembler writes for a
    crop [b] (not empty, free of line terminators and of closing
    parentheses, as a Base64 text is), the document holds the image
    paragraph of [b] at the place of that line, between the paragraphs
    of the lines above and below, and the clipboard markup holds the
    image element of the JPEG data URL of [b] at the same place. *)
Theorem X17_cropped_figure_is_exported :
  forall B (page : ProcessedPage) (above below : list jsstring) (b : jsstring),
    markdown page = join [newline] (above ++ figure_line b :: below) ->
    Forall (fun l => ~ In newline l) above ->
    Forall (fun l => ~ In newline l) below ->
    b <> [] -> forallb dot b = true -> ~ In 41%N b ->
    paragraphs_of_page B page
    = map (paragraph_of_line B) above
      ++ image_paragraph B b
      :: map (paragraph_of_line B) below ++ [ParagraphPageBreak] /\
    html_of_page page
    = List.concat (map html_of_line above)
      ++ img_element (jpeg_url b)
      ++ List.concat (map html_of_line below) ++ str "<br/><hr/><br/>".
Proof.
  intros B page above below b Hmd Ha Hb Hne Hdot Hpar.
  assert (Hlines : split newline (markdown page)
                   = above ++ figure_line b :: below).
  { rewrite Hmd. apply split_join; [destruct above; discriminate|].
    apply Forall_app. split; [exact Ha|]. constructor; [|exact Hb].
    apply no_terminator_no_newline. unfold figure_line.
    rewrite !forallb_app, Hdot. reflexivity. }
  split.
  - unfold paragraphs_of_page. rewrite Hlines, map_app. cbn [map].
    rewrite figure_line_paragraph by assumption.
    rewrite <- app_assoc. reflexivity.
  - unfold html_of_page. rewrite Hlines, map_app, concat_app.
    cbn [map List.concat]. rewrite figure_line_html by assumption.
    rewrite <- !app_assoc. reflexivity.
Qed.

Lemma X17_cropped_figure_witness :
  paragraphs_of_page page_browser
    {| pageNumber := 1%Q; imageUrl := [];
       markdown := str "Text" ++ [newline; newline]
                   ++ figure_markdown (Some (str "QUJD")) |}
  = map (paragraph_of_line page_browser) [str "Text"; []]
    ++ image_paragraph page_browser (str "QUJD")
    :: map (paragraph_of_line page_browser) [[]; []]
    ++ [ParagraphPageBreak] /\
  html_of_page
    {| pageNumber := 1%Q; imageUrl := [];
       markdown := str "Text" ++ [newline; newline]
                   ++ figure_markdown (Some (str "QUJD")) |}
  = List.concat (map html_of_line [str "Text"; []])
    ++ img_element (jpeg_url (str "QUJD"))
    ++ List.concat (map html_of_line [[]; []]) ++ str "<br/><hr/><br/>".
Proof.
  apply (X17_cropped_figure_is_exported page_browser
           {| pageNumber := 1%Q; imageUrl := [];
              markdown := str "Text" ++ [newline; newline]
                          ++ figure_markdown (Some (str "QUJD")) |}
           [str "Text"; []] [[]; []] (str "QUJD")).
  - reflexivity.
  - repeat constructor; vm_compute; intuition discriminate.
  - repeat constructor; vm_compute; intuition discriminate.
  - discriminate.
  - reflexivity.
  - vm_compute. intuition discriminate.
Defined.

(** ** Code fences *)

Module FenceFacts.

(** The opening fence is only looked for at the start. *)
Lemma fence_open_later (repl : jsstring) :
  forall s i, 0 < i -> replace_first re_fence_open repl i s = s.
Proof.
  induction s as [|c s IH]; intros i Hi;
    (destruct i as [|i]; [lia|]); [reflexivity|].
  cbn [replace_first]. unfold match_at, re_fence_open. cbn [seq rmatch].
  simpl Nat.eqb. cbv iota. rewrite IH by lia. reflexivity.
Qed.

Lemma fence_open_other (repl : jsstring) (c : N) (s : jsstring) :
  c <> 96%N -> String_replace (c :: s) re_fence_open repl = c :: s.
Proof.
  intros Hc. unfold String_replace. cbn [replace_first].
  unfold match_at, re_fence_open. cbn [seq rmatch]. simpl Nat.eqb. cbv iota.
  erewrite lit_fails; [|reflexivity|exact Hc].
  rewrite fence_open_later by lia. reflexivity.
Qed.

(** The opening fence and the white space behind it are removed. *)
Lemma fence_open_removed (ws : jsstring) (c : N) (s : jsstring) :
  forallb is_space ws = true -> is_space c = false ->
  String_replace (str "```json" ++ ws ++ c :: s) re_fence_open [] = c :: s.
Proof.
  intros Hws Hc. unfold String_replace.
  erewrite replace_first_found; [reflexivity|].
  unfold match_at, re_fence_open. cbn [seq rmatch]. simpl Nat.eqb. cbv iota.
  rewrite rmatch_lit. apply starG_max; [exact Hws|exact Hc|reflexivity].
Qed.

(** What the closing pattern matches: white space and three backticks
    at the end. *)
Lemma fence_close_inv j t e rest caps :
  match_at re_fence_close j t = Some (e, rest, caps) ->
  exists u, t = u ++ str "```" /\ forallb is_space u = true.
Proof.
  intros H. apply match_at_sound in H. simpl in H. break.
  repeat match goal with
         | H : only _ _ = true |- _ => apply only_true in H; subst
         end.
  eexists. split; [reflexivity|assumption].
Qed.

(** No closing fence is found in front of a character that is not
    white space. *)
Lemma fence_close_before (x : jsstring) (z : N) (ws : jsstring) j :
  is_space z = false ->
  match_at re_fence_close j (x ++ z :: ws ++ str "```") = None.
Proof.
  intros Hz.
  destruct (match_at re_fence_close j (x ++ z :: ws ++ str "```"))
    as [[[e rest] caps]|] eqn:Hm; [|reflexivity].
  apply fence_close_inv in Hm. destruct Hm as (u & Hu & Hsp).
  change (x ++ z :: ws ++ str "```") with (x ++ (z :: ws) ++ str "```") in Hu.
  rewrite app_assoc in Hu. apply app_inv_tail in Hu. subst u.
  rewrite !forallb_app in Hsp. simpl in Hsp. rewrite Hz in Hsp.
  rewrite andb_false_r in Hsp. discriminate.
Qed.

(** The closing fence and the white space in front of it are removed. *)
Lemma fence_close_removed (ws : jsstring) (z : N) :
  forallb is_space ws = true -> is_space z = false ->
  forall x i,
    replace_first re_fence_close [] i (x ++ z :: ws ++ str "```") = x ++ [z].
Proof.
  intros Hws Hz. induction x as [|c x IH]; intros i.
  - pose proof (fence_close_before [] z ws i Hz) as E.
    cbn [app replace_first] in *. rewrite E. f_equal.
    erewrite replace_first_found; [reflexivity|].
    unfold match_at, re_fence_close. cbn [seq rmatch].
    apply starG_max; [exact Hws|reflexivity|]. 
    rewrite (rmatch_lit_nil "```"). reflexivity.
  - pose proof (fence_close_before (c :: x) z ws i Hz) as E.
    cbn [app replace_first] in *. rewrite E. f_equal. apply IH.
Qed.

(** No closing fence is found in a text that does not end with a
    backtick. *)
Lemma fence_close_last (z : N) (x : jsstring) j :
  z <> 96%N -> match_at re_fence_close j (x ++ [z]) = None.
Proof.
  intros Hz.
  destruct (match_at re_fence_close j (x ++ [z]))
    as [[[e rest] caps]|] eqn:Hm; [|reflexivity].
  apply fence_close_inv in Hm. destruct Hm as (u & Hu & _).
  change (u ++ str "```") with (u ++ str "``" ++ [96%N]) in Hu.
  rewrite app_assoc in Hu. apply app_inj_tail in Hu.
  destruct Hu as [_ Hu]. contradiction.
Qed.

Lemma fence_close_other (z : N) :
  z <> 96%N ->
  forall x i, replace_first re_fence_close [] i (x ++ [z]) = x ++ [z].
Proof.
  intros Hz x i. apply nomatch_replace_first.
  induction x as [|c x IH].
  - split; [intros j; apply (fence_close_last z [] j Hz)|].
    split; [intros j; reflexivity|exact I].
  - split; [intros j; apply (fence_close_last z (c :: x) j Hz)|exact IH].
Qed.

(** A body in fences is stripped to the body. *)
Lemma strip_fenced (ws1 ws2 : jsstring) (a : N) (mid : jsstring) (z : N) :
  forallb is_space ws1 = true -> forallb is_space ws2 = true ->
  is_space a = false -> is_space z = false ->
  strip_fences (str "```json" ++ ws1 ++ (a :: mid ++ [z]) ++ ws2 ++ str "```")
  = a :: mid ++ [z].
Proof.
  intros H1 H2 Ha Hz. unfold strip_fences.
  change ((a :: mid ++ [z]) ++ ws2 ++ str "```")
    with (a :: (mid ++ [z]) ++ ws2 ++ str "```").
  rewrite fence_open_removed by assumption.
  unfold String_replace.
  change (a :: (mid ++ [z]) ++ ws2 ++ str "```")
    with (((a :: mid) ++ [z]) ++ ws2 ++ str "```").
  rewrite <- app_assoc.
  apply (fence_close_removed ws2 z H2 Hz (a :: mid) 0).
Qed.

End FenceFacts.
Import FenceFacts.

(** X18: code fences are unwrapped.  For a body that neither starts nor
    ends with white space, the fence stripper maps the body between an
    opening fence [```json] and a closing fence [```], each separated
    from it by any white space, to the body itself. *)
Theorem X18_fences_are_unwrapped :
  forall (ws1 ws2 : jsstring) (a : N) (mid : jsstring) (z : N),
    forallb is_space ws1 = true -> forallb is_space ws2 = true ->
    is_space a = false -> is_space z = false ->
    strip_fences (str "```json" ++ ws1 ++ (a :: mid ++ [z]) ++ ws2 ++ str "```")
    = a :: mid ++ [z].
Proof.
  intros ws1 ws2 a mid z H1 H2 Ha Hz.
  apply strip_fenced; assumption.
Qed.

Lemma X18_fences_witness :
  strip_fences (str "```json" ++ [newline] ++ (123%N :: str " }" ++ [125%N])
                ++ [newline] ++ str "```")
  = 123%N :: str " }" ++ [125%N].
Proof.
  apply (X18_fences_are_unwrapped [newline] [newline] 123%N (str " }") 125%N);
    reflexivity.
Defined.

(** X19: a fenced response is read like the bare one.  When the text of
    the response is a body in code fences, and the body starts and ends
    with a character that is neither white space nor a backtick (as a
    JSON object does), the parser step gives what it gives for the body
    alone. *)
Theorem X19_fenced_response_is_read_like_the_bare_one :
  forall B untyped img (ws1 ws2 : jsstring) (a : N) (mid : jsstring) (z : N),
    forallb is_space ws1 = true -> forallb is_space ws2 = true ->
    is_space a = false -> is_space z = false ->
    a <> 96%N -> z <> 96%N ->
    parse_response B untyped img
      (Some (str "```json" ++ ws1 ++ (a :: mid ++ [z]) ++ ws2 ++ str "```"))
    = parse_response B untyped img (Some (a :: mid ++ [z])).
Proof.
  intros B untyped img ws1 ws2 a mid z H1 H2 Ha Hz Ha' Hz'.
  unfold parse_response.
  change (text_or_default
            (Some (str "```json" ++ ws1 ++ (a :: mid ++ [z]) ++ ws2 ++ str "```")))
    with (str "```json" ++ ws1 ++ (a :: mid ++ [z]) ++ ws2 ++ str "```").
  change (text_or_default (Some (a :: mid ++ [z]))) with (a :: mid ++ [z]).
  assert (Hbare : strip_fences (a :: mid ++ [z]) = a :: mid ++ [z]).
  { unfold strip_fences. rewrite fence_open_other by exact Ha'.
    apply (fence_close_other z Hz' (a :: mid) 0). }
  rewrite Hbare, strip_fenced by assumption. reflexivity.
Qed.

Lemma X19_fenced_response_witness :
  parse_response page_browser (fun _ _ => Fulfilled None) []
    (Some (str "```json" ++ [newline] ++ (123%N :: str " " ++ [125%N])
           ++ [newline] ++ str "```"))
  = parse_response page_browser (fun _ _ => Fulfilled None) []
      (Some (123%N :: str " " ++ [125%N])).
Proof.
  apply (X19_fenced_response_is_read_like_the_bare_one
           page_browser (fun _ _ => Fulfilled None) []
           [newline] [newline] 123%N (str " ") 125%N);
    try reflexivity; discriminate.
Defined.

(** ** The normalizer on texts of a known shape *)

Module NormalizerFacts.

Lemma re_inline_led :
  re_inline = led (Cls (only "(")) (Seq (Grp 1 (StarL any)) (lit "\)")).
Proof. reflexivity. Qed.

Lemma re_display_led :
  re_display = led (Cls (only "[")) (Seq (Grp 1 (StarL any)) (lit "\]")).
Proof. reflexivity. Qed.

Lemma inline_headed : headed re_inline.
Proof. rewrite re_inline_led. apply led_headed. Qed.

Lemma display_headed : headed re_display.
Proof. rewrite re_display_led. apply led_headed. Qed.

(** A pattern that only matches at a backslash matches nowhere in a
    text without backslash. *)
Lemma headed_nomatch (q : regex) (s : jsstring) :
  headed q -> ~ In 92%N s -> nomatch q s.
Proof.
  intros Hq. induction s as [|c s IH]; intros Hs.
  - split; [|exact I]. intros j. apply headed_nil. exact Hq.
  - split.
    + intros j. apply headed_other; [exact Hq|].
      intros ->. apply Hs. left. reflexivity.
    + apply IH. intros H. apply Hs. right. exact H.
Qed.

Lemma rule1_plain (s : jsstring) : ~ In 92%N s -> rule1 s = s.
Proof.
  intros H. apply nomatch_replace_all. apply headed_nomatch;
    [apply inline_headed|exact H].
Qed.

Lemma rule2_plain (s : jsstring) : ~ In 92%N s -> rule2 s = s.
Proof.
  intros H. apply nomatch_replace_all. apply headed_nomatch;
    [apply display_headed|exact H].
Qed.

Lemma rule3_plain (s : jsstring) : ~ In 92%N s -> rule3 s = s.
Proof.
  intros H. apply rule3_fixed. apply headed_nomatch;
    [apply angle3_headed|exact H].
Qed.

Lemma rule4_plain (s : jsstring) : ~ In 92%N s -> rule4 s = s.
Proof.
  intros H. apply rule4_fixed. apply headed_nomatch;
    [apply angle1_headed|exact H].
Qed.

Lemma normalize_plain (s : jsstring) : ~ In 92%N s -> normalize s = s.
Proof.
  intros H. unfold normalize.
  rewrite (rule1_plain s H), (rule2_plain s H), (rule3_plain s H).
  apply rule4_plain. exact H.
Qed.

End NormalizerFacts.
Import NormalizerFacts.

(** X20: a text without backslash is left as it is by the normalizer,
    so the page of a text segment without backslash is that text and
    the two line feeds that close it. *)
Theorem X20_text_without_backslash_is_kept :
  forall B img (content : jsstring),
    ~ In 92%N content ->
    normalize content = content /\
    rendering B img (TextSegment content) = content ++ [newline; newline].
Proof.
  intros B img content H. split; [apply normalize_plain; exact H|].
  simpl. rewrite normalize_plain by exact H. reflexivity.
Qed.

Lemma X20_text_without_backslash_witness :
  normalize (str "a < b") = str "a < b" /\
  rendering page_browser [] (TextSegment (str "a < b"))
  = str "a < b" ++ [newline; newline].
Proof.
  apply (X20_text_without_backslash_is_kept page_browser [] (str "a < b")).
  vm_compute. intuition discriminate.
Defined.

(** X21: in a normalized text neither angle pattern matches anywhere:
    no [\angle] followed by three capitals, and no [\angle] followed by
    a single capital, is left. *)
Theorem X21_no_angle_is_left :
  forall s,
    String_match (normalize s) re_angle3 = None /\
    String_match (normalize s) re_angle1 = None.
Proof.
  intros s. unfold normalize, String_match. split; apply nomatch_exec.
  - apply rule4_keeps. apply rule3_settles.
  - apply rule4_settles.
Qed.

(** ** Global replacement, piece by piece *)

Module ReplaceFacts.

Lemma shifted_orelse (d : nat) (a b : option result) :
  shifted d (orelse a b) = orelse (shifted d a) (shifted d b).
Proof. destruct a as [[[e rest] caps]|]; reflexivity. Qed.

Lemma starG_shift (p : cclass) (d : nat) k k' :
  (forall j t, k' (j + d) t = shifted d (k j t)) ->
  forall s i, starG p k' (i + d) s = shifted d (starG p k i s).
Proof.
  intros Hk. induction s as [|c s IH]; intros i; simpl; [apply Hk|].
  destruct (p c); [|apply Hk].
  rewrite shifted_orelse, <- Hk, <- IH. reflexivity.
Qed.

Lemma starL_shift (p : cclass) (d : nat) k k' :
  (forall j t, k' (j + d) t = shifted d (k j t)) ->
  forall s i, starL p k' (i + d) s = shifted d (starL p k i s).
Proof.
  intros Hk. induction s as [|c s IH]; intros i; simpl;
    rewrite shifted_orelse, <- Hk; [reflexivity|].
  destruct (p c); [|reflexivity]. rewrite <- IH. reflexivity.
Qed.

(** Matching does not depend on the index. *)
Lemma rmatch_shift (d : nat) :
  forall r, unanchored r ->
  forall i s caps k k',
    (forall j t c, k' (j + d) t c = shifted d (k j t c)) ->
    rmatch r (i + d) s caps k' = shifted d (rmatch r i s caps k).
Proof.
  induction r as [|p|r1 IH1 r2 IH2|p|p|p|n r IH|p| |];
    intros Hr i s caps k k' Hk; simpl.
  - apply Hk.
  - destruct s as [|c s]; [reflexivity|]. destruct (p c); [|reflexivity].
    apply (Hk (S i)).
  - destruct Hr as [H1 H2]. apply IH1; [exact H1|].
    intros j t c. apply IH2; [exact H2|exact Hk].
  - apply starG_shift. intros j t. apply Hk.
  - apply starL_shift. intros j t. apply Hk.
  - destruct s as [|c s]; [apply Hk|]. destruct (p c); [|apply Hk].
    rewrite shifted_orelse, <- (Hk (S i)), <- Hk. reflexivity.
  - apply IH; [exact Hr|]. intros j t c.
    replace (j + d - (i + d)) with (j - i) by lia. apply Hk.
  - destruct s as [|c s]; [apply Hk|]. destruct (p c); [reflexivity|apply Hk].
  - contradiction.
  - destruct s; [apply Hk|reflexivity].
Qed.

Lemma match_at_shift (r : regex) (d i : nat) (s : jsstring) :
  unanchored r -> match_at r (i + d) s = shifted d (match_at r i s).
Proof.
  intros Hr. unfold match_at. apply rmatch_shift; [exact Hr|].
  intros j t c. reflexivity.
Qed.

Lemma replace_all_shift (r : regex) (repl : jsstring) (d : nat) :
  unanchored r ->
  forall fuel i s,
    replace_all fuel r repl (i + d) s = replace_all fuel r repl i s.
Proof.
  intros Hr. induction fuel as [|f IH]; intros i s; simpl; [reflexivity|].
  rewrite match_at_shift by exact Hr.
  destruct (match_at r i s) as [[[e rest] caps]|]; simpl.
  - replace (e + d - (i + d)) with (e - i) by lia.
    replace (Nat.ltb (i + d) (e + d)) with (Nat.ltb i e).
    + rewrite IH. destruct s as [|c s]; [reflexivity|].
      rewrite (IH (S i)). reflexivity.
    + destruct (Nat.ltb_spec i e), (Nat.ltb_spec (i + d) (e + d));
        try reflexivity; lia.
  - destruct s as [|c s]; [reflexivity|]. rewrite (IH (S i)). reflexivity.
Qed.

Lemma replace_all_index (r : regex) (repl : jsstring) fuel i s :
  unanchored r -> replace_all fuel r repl i s = replace_all fuel r repl 0 s.
Proof. intros Hr. apply (replace_all_shift r repl i Hr fuel 0 s). Qed.

(** Any fuel above the length of the text gives the same result. *)
Lemma replace_all_fuel (r : regex) (repl : jsstring) :
  forall f1 f2 i s,
    List.length s < f1 -> List.length s < f2 ->
    replace_all f1 r repl i s = replace_all f2 r repl i s.
Proof.
  induction f1 as [|f1 IH]; intros f2 i s H1 H2; [lia|].
  destruct f2 as [|f2]; [lia|]. simpl.
  destruct (match_at r i s) as [[[e rest] caps]|] eqn:Hm.
  - f_equal. destruct (Nat.ltb_spec i e) as [Hlt|Hge].
    + destruct (match_at_consumes _ _ _ _ _ _ Hm) as (w & Hw & He).
      assert (List.length rest < List.length s).
      { rewrite Hw, length_app. lia. }
      apply IH; lia.
    + destruct s as [|c s]; [reflexivity|]. simpl in H1, H2.
      f_equal. apply IH; lia.
  - destruct s as [|c s]; [reflexivity|]. simpl in H1, H2.
    f_equal. apply IH; lia.
Qed.

Section Global.

Variable r : regex.
Variable repl : jsstring.
Hypothesis r_unanchored : unanchored r.

(** Where the pattern does not match, the code unit is kept. *)
Lemma replaceAll_keep (c : N) (s : jsstring) :
  match_at r 0 (c :: s) = None ->
  String_replaceAll (c :: s) r repl = c :: String_replaceAll s r repl.
Proof.
  intros H. unfold String_replaceAll.
  change (replace_all (S (List.length (c :: s))) r repl 0 (c :: s))
    with (match match_at r 0 (c :: s) with
          | Some (e, rest, caps) =>
              substitution r repl (firstn (e - 0) (c :: s)) caps ++
              (if Nat.ltb 0 e
               then replace_all (List.length (c :: s)) r repl e rest
               else c :: replace_all (List.length (c :: s)) r repl 1 s)
          | None => c :: replace_all (List.length (c :: s)) r repl 1 s
          end).
  rewrite H. f_equal. rewrite replace_all_index by exact r_unanchored.
  reflexivity.
Qed.

(** Where it matches, the replacement is written and the search resumes
    behind the match. *)
Lemma replaceAll_found (s : jsstring) e rest caps :
  match_at r 0 s = Some (e, rest, caps) -> 0 < e ->
  String_replaceAll s r repl
  = substitution r repl (firstn e s) caps ++ String_replaceAll rest r repl.
Proof.
  intros H He. unfold String_replaceAll.
  set (R := replace_all (S (List.length rest)) r repl 0 rest).
  cbn [replace_all]. rewrite H.
  rewrite Nat.sub_0_r. apply Nat.ltb_lt in He. rewrite He.
  apply Nat.ltb_lt in He. f_equal. subst R.
  rewrite replace_all_index by exact r_unanchored.
  destruct (match_at_consumes _ _ _ _ _ _ H) as (w & Hw & Hew).
  apply replace_all_fuel; [|lia]. rewrite Hw, length_app. lia.
Qed.

(** A text without backslash in front is kept by a pattern that only
    matches at a backslash. *)
Lemma replaceAll_plain_prefix (pre t : jsstring) :
  headed r -> ~ In 92%N pre ->
  String_replaceAll (pre ++ t) r repl = pre ++ String_replaceAll t r repl.
Proof.
  intros Hh. induction pre as [|c pre IH]; intros Hpre; [reflexivity|].
  cbn [app]. rewrite replaceAll_keep.
  - rewrite IH; [reflexivity|]. intros H. apply Hpre. right. exact H.
  - apply headed_other; [exact Hh|]. intros ->. apply Hpre. left. reflexivity.
Qed.

End Global.

End ReplaceFacts.
Import ReplaceFacts.

Module DelimiterFacts.

Lemma inline_unanchored : unanchored re_inline.
Proof. simpl. tauto. Qed.

Lemma display_unanchored : unanchored re_display.
Proof. simpl. tauto. Qed.

Lemma angle3_unanchored : unanchored re_angle3.
Proof. simpl. tauto. Qed.

Lemma angle1_unanchored : unanchored re_angle1.
Proof. simpl. tauto. Qed.

Lemma forallb_any (s : jsstring) : forallb any s = true.
Proof. induction s; [reflexivity|exact IHs]. Qed.

Lemma rule1_plain_prefix (pre t : jsstring) :
  ~ In 92%N pre -> rule1 (pre ++ t) = pre ++ rule1 t.
Proof.
  apply replaceAll_plain_prefix; [apply inline_unanchored|apply inline_headed].
Qed.

Lemma rule2_plain_prefix (pre t : jsstring) :
  ~ In 92%N pre -> rule2 (pre ++ t) = pre ++ rule2 t.
Proof.
  apply replaceAll_plain_prefix;
    [apply display_unanchored|apply display_headed].
Qed.

Lemma rule3_plain_prefix (pre t : jsstring) :
  ~ In 92%N pre -> rule3 (pre ++ t) = pre ++ rule3 t.
Proof.
  apply replaceAll_plain_prefix; [apply angle3_unanchored|apply angle3_headed].
Qed.

Lemma rule4_plain_prefix (pre t : jsstring) :
  ~ In 92%N pre -> rule4 (pre ++ t) = pre ++ rule4 t.
Proof.
  apply replaceAll_plain_prefix; [apply angle1_unanchored|apply angle1_headed].
Qed.

(** The normalizer keeps a text without backslash in front and goes on
    behind it. *)
Lemma normalize_plain_prefix (pre t : jsstring) :
  ~ In 92%N pre -> normalize (pre ++ t) = pre ++ normalize t.
Proof.
  intros H. unfold normalize.
  rewrite rule1_plain_prefix, rule2_plain_prefix, rule3_plain_prefix,
    rule4_plain_prefix by exact H.
  reflexivity.
Qed.

Lemma inline_match (body post : jsstring) :
  ~ In 92%N body ->
  match_at re_inline 0 (str "\(" ++ body ++ str "\)" ++ post)
  = Some (4 + List.length body, post, [(1, body)]).
Proof.
  intros Hb. unfold match_at, re_inline. cbn [seq rmatch].
  rewrite rmatch_lit.
  rewrite (starL_until any _ 92%N);
    [|intros; eapply lit_fails; [reflexivity|assumption]
     |apply forallb_any|exact Hb].
  apply starL_first; cbv beta. rewrite rmatch_lit. unfold accept.
  rewrite firstn_exact by lia.
  match goal with
  | |- Some (?n, _, _) = _ =>
      replace n with (4 + List.length body) by (simpl; lia)
  end.
  reflexivity.
Qed.

Lemma display_match (body post : jsstring) :
  ~ In 92%N body ->
  match_at re_display 0 (str "\[" ++ body ++ str "\]" ++ post)
  = Some (4 + List.length body, post, [(1, body)]).
Proof.
  intros Hb. unfold match_at, re_display. cbn [seq rmatch].
  rewrite rmatch_lit.
  rewrite (starL_until any _ 92%N);
    [|intros; eapply lit_fails; [reflexivity|assumption]
     |apply forallb_any|exact Hb].
  apply starL_first; cbv beta. rewrite rmatch_lit. unfold accept.
  rewrite firstn_exact by lia.
  match goal with
  | |- Some (?n, _, _) = _ =>
      replace n with (4 + List.length body) by (simpl; lia)
  end.
  reflexivity.
Qed.

Lemma inline_substitution (whole body : jsstring) :
  substitution re_inline (str "$$$1$$") whole [(1, body)]
  = str "$" ++ body ++ str "$".
Proof. reflexivity. Qed.

Lemma display_substitution (whole body : jsstring) :
  substitution re_display (str "$$$$$1$$$$") whole [(1, body)]
  = str "$$" ++ body ++ str "$$".
Proof. reflexivity. Qed.

Lemma rule1_inline (body post : jsstring) :
  ~ In 92%N body ->
  rule1 (str "\(" ++ body ++ str "\)" ++ post)
  = str "$" ++ body ++ str "$" ++ rule1 post.
Proof.
  intros Hb. unfold rule1.
  rewrite (replaceAll_found re_inline _ inline_unanchored _ _ _ _
             (inline_match body post Hb)) by lia.
  rewrite inline_substitution, <- !app_assoc. reflexivity.
Qed.

Lemma rule2_display (body post : jsstring) :
  ~ In 92%N body ->
  rule2 (str "\[" ++ body ++ str "\]" ++ post)
  = str "$$" ++ body ++ str "$$" ++ rule2 post.
Proof.
  intros Hb. unfold rule2.
  rewrite (replaceAll_found re_display _ display_unanchored _ _ _ _
             (display_match body post Hb)) by lia.
  rewrite display_substitution, <- !app_assoc. reflexivity.
Qed.

(** Rule 1 passes over a backslash that no parenthesis follows. *)
Lemma rule1_other (c : N) (t : jsstring) :
  c <> 40%N -> rule1 (92%N :: c :: t) = 92%N :: rule1 (c :: t).
Proof.
  intros Hc. apply replaceAll_keep; [apply inline_unanchored|].
  rewrite re_inline_led, match_at_led. simpl.
  rewrite only_other by exact Hc. reflexivity.
Qed.

Lemma rule1_display (body post : jsstring) :
  ~ In 92%N body ->
  rule1 (str "\[" ++ body ++ str "\]" ++ post)
  = str "\[" ++ body ++ str "\]" ++ rule1 post.
Proof.
  intros Hb.
  change (str "\[" ++ body ++ str "\]" ++ post)
    with (92%N :: 91%N :: body ++ 92%N :: 93%N :: post).
  rewrite rule1_other by discriminate.
  change (91%N :: body ++ 92%N :: 93%N :: post)
    with ((91%N :: body) ++ 92%N :: 93%N :: post).
  rewrite rule1_plain_prefix
    by (intros [H|H]; [discriminate|contradiction]).
  rewrite rule1_other by discriminate.
  change (93%N :: post) with ([93%N] ++ post).
  rewrite rule1_plain_prefix
    by (intros [H|H]; [discriminate|contradiction]).
  reflexivity.
Qed.

Lemma dollars_plain (d body : jsstring) :
  ~ In 92%N d -> ~ In 92%N body -> ~ In 92%N (d ++ body ++ d).
Proof.
  intros Hd Hb H. apply in_app_or in H. destruct H as [H|H]; [auto|].
  apply in_app_or in H. destruct H; auto.
Qed.

(** The normalizer on a formula in parentheses. *)
Lemma normalize_inline (body post : jsstring) :
  ~ In 92%N body ->
  normalize (str "\(" ++ body ++ str "\)" ++ post)
  = str "$" ++ body ++ str "$" ++ normalize post.
Proof.
  intros Hb. unfold normalize. rewrite rule1_inline by exact Hb.
  assert (Hp : ~ In 92%N (str "$" ++ body ++ str "$")).
  { apply dollars_plain; [|exact Hb]. vm_compute. intuition discriminate. }
  rewrite !app_assoc. rewrite <- (app_assoc (str "$")).
  rewrite rule2_plain_prefix, rule3_plain_prefix, rule4_plain_prefix
    by exact Hp.
  reflexivity.
Qed.

(** The normalizer on a formula in brackets. *)
Lemma normalize_display (body post : jsstring) :
  ~ In 92%N body ->
  normalize (str "\[" ++ body ++ str "\]" ++ post)
  = str "$$" ++ body ++ str "$$" ++ normalize post.
Proof.
  intros Hb. unfold normalize. rewrite rule1_display by exact Hb.
  rewrite rule2_display by exact Hb.
  assert (Hp : ~ In 92%N (str "$$" ++ body ++ str "$$")).
  { apply dollars_plain; [|exact Hb]. vm_compute. intuition discriminate. }
  rewrite !app_assoc. rewrite <- (app_assoc (str "$$")).
  rewrite rule3_plain_prefix, rule4_plain_prefix by exact Hp.
  reflexivity.
Qed.

End DelimiterFacts.
Import DelimiterFacts.

(** X22: inline formulas.  In a text [pre \( body \) post] where
    neither [pre] nor [body] holds a backslash, the normalizer writes
    [pre $ body $] and goes on normalizing [post]. *)
Theorem X22_inline_formula_is_rewritten :
  forall pre body post,
    ~ In 92%N pre -> ~ In 92%N body ->
    normalize (pre ++ str "\(" ++ body ++ str "\)" ++ post)
    = pre ++ str "$" ++ body ++ str "$" ++ normalize post.
Proof.
  intros pre body post Hpre Hb.
  rewrite normalize_plain_prefix by exact Hpre.
  rewrite normalize_inline by exact Hb. reflexivity.
Qed.

Lemma X22_inline_formula_witness :
  normalize (str "so " ++ str "\(" ++ str "x^2" ++ str "\)"
                 ++ str " and \(y\)")
  = str "so " ++ str "$" ++ str "x^2" ++ str "$"
        ++ normalize (str " and \(y\)").
Proof.
  apply (X22_inline_formula_is_rewritten (str "so ") (str "x^2")
           (str " and \(y\)"));
    vm_compute; intuition discriminate.
Defined.

(** X23: display formulas.  In a text [pre \[ body \] post] where
    neither [pre] nor [body] holds a backslash, the normalizer writes
    [pre $$ body $$] and goes on normalizing [post]. *)
Theorem X23_display_formula_is_rewritten :
  forall pre body post,
    ~ In 92%N pre -> ~ In 92%N body ->
    normalize (pre ++ str "\[" ++ body ++ str "\]" ++ post)
    = pre ++ str "$$" ++ body ++ str "$$" ++ normalize post.
Proof.
  intros pre body post Hpre Hb.
  rewrite normalize_plain_prefix by exact Hpre.
  rewrite normalize_display by exact Hb. reflexivity.
Qed.

Lemma X23_display_formula_witness :
  normalize (str "so " ++ str "\[" ++ str "x^2" ++ str "\]"
                 ++ str " and \(y\)")
  = str "so " ++ str "$$" ++ str "x^2" ++ str "$$"
        ++ normalize (str " and \(y\)").
Proof.
  apply (X23_display_formula_is_rewritten (str "so ") (str "x^2")
           (str " and \(y\)"));
    vm_compute; intuition discriminate.
Defined.

(** ** The application state *)

Module AppFacts.

Lemma numbered_length md i (images : list jsstring) :
  List.length (numbered md i images) = List.length images.
Proof.
  revert i. induction images as [|img rest IH]; intros i; simpl;
    [reflexivity|]. rewrite IH. reflexivity.
Qed.

Lemma numbered_nth md (images : list jsstring) :
  forall i j img,
    nth_error images j = Some img ->
    nth_error (numbered md i images) j
    = Some {| pageNumber := page_number (i + j); imageUrl := img;
              markdown := md img |}.
Proof.
  induction images as [|x rest IH]; intros i j img H.
  - destruct j; discriminate.
  - destruct j as [|j]; simpl in *.
    + inversion H; subst. rewrite Nat.add_0_r. reflexivity.
    + rewrite (IH (S i) j img H).
      replace (i + S j) with (S i + j) by lia. reflexivity.
Qed.

(** The loop over images that are all transcribed. *)
Lemma process_images_done B untyped key gen md (done : list jsstring) :
  (forall img, In img done ->
     transcribeImage B untyped key gen img (str "image/jpeg")
     = Fulfilled (md img)) ->
  forall i rest results,
    process_images B untyped key gen i (map Some done ++ rest) results
    = process_images B untyped key gen (i + List.length done) rest
        (results ++ numbered md i done).
Proof.
  induction done as [|img done IH]; intros Hall i rest results.
  - simpl. rewrite Nat.add_0_r, app_nil_r. reflexivity.
  - cbn [map app process_images]. rewrite (Hall img (or_introl eq_refl)).
    rewrite IH by (intros x Hx; apply Hall; right; exact Hx).
    cbn [numbered List.length]. rewrite <- app_assoc.
    replace (S i + List.length done) with (i + S (List.length done)) by lia.
    reflexivity.
Qed.

Lemma update_markdown_length index newMarkdown (pages : list ProcessedPage) :
  List.length (update_markdown index newMarkdown pages) = List.length pages.
Proof.
  revert index. induction pages as [|p rest IH]; intros [|index]; simpl;
    try reflexivity. rewrite IH. reflexivity.
Qed.

Lemma update_markdown_same newMarkdown (pages : list ProcessedPage) :
  forall index page,
    nth_error pages index = Some page ->
    nth_error (update_markdown index newMarkdown pages) index
    = Some {| pageNumber := pageNumber page; imageUrl := imageUrl page;
              markdown := newMarkdown |}.
Proof.
  induction pages as [|p rest IH]; intros [|index] page H; simpl in *;
    try discriminate.
  - inversion H; subst. reflexivity.
  - apply IH. exact H.
Qed.

Lemma update_markdown_other newMarkdown (pages : list ProcessedPage) :
  forall index j,
    j <> index ->
    nth_error (update_markdown index newMarkdown pages) j
    = nth_error pages j.
Proof.
  induction pages as [|p rest IH]; intros [|index] [|j] H; simpl;
    try reflexivity; try contradiction.
  apply IH. intros ->. apply H. reflexivity.
Qed.

End AppFacts.
Import AppFacts.

(** X24: pages come out in order.  When the images of the first file
    are all transcribed, [handleProcess] ends with one page per image,
    in the order of the images: page [j] (from 0) has the number
    [j + 1], the image [j] as its picture and the transcription of that
    image as its Markdown; processing is over and no error is shown. *)
Theorem X24_pages_come_out_in_order :
  forall B untyped key gen (state : AppState) file others
         (images : list jsstring) (md : jsstring -> jsstring),
    files state = file :: others ->
    images_of file = Fulfilled (map Some images) ->
    (forall img, In img images ->
       transcribeImage B untyped key gen img (str "image/jpeg")
       = Fulfilled (md img)) ->
    exists final,
      handleProcess B untyped key gen state = Some final /\
      isProcessing final = false /\ error final = None /\
      files final = files state /\
      List.length (processedPages final) = List.length images /\
      forall j img,
        nth_error images j = Some img ->
        nth_error (processedPages final) j
        = Some {| pageNumber := page_number j; imageUrl := img;
                  markdown := md img |}.
Proof.
  intros B untyped key gen state file others images md Hf Himg Hall.
  unfold handleProcess. rewrite Hf, Himg.
  rewrite <- (app_nil_r (map Some images)).
  rewrite (process_images_done B untyped key gen md images Hall 0 [] []).
  simpl. eexists. split; [reflexivity|]. simpl.
  repeat split; [apply numbered_length|].
  intros j img H. apply (numbered_nth md images 0 j img H).
Qed.

Lemma X24_pages_witness :
  exists final,
    handleProcess page_browser (fun _ _ => Fulfilled None)
                  (Some (str "key")) text_backend (loaded three_page_pdf)
    = Some final /\
    isProcessing final = false /\ error final = None /\
    files final = files (loaded three_page_pdf) /\
    List.length (processedPages final)
    = List.length [str "UDE="; str "UDM="] /\
    forall j img,
      nth_error [str "UDE="; str "UDM="] j = Some img ->
      nth_error (processedPages final) j
      = Some {| pageNumber := page_number j; imageUrl := img;
                markdown := (fun _ => str "page" ++ [newline; newline]) img |}.
Proof.
  apply (X24_pages_come_out_in_order
           page_browser (fun _ _ => Fulfilled None) (Some (str "key"))
           text_backend (loaded three_page_pdf) three_page_pdf []
           [str "UDE="; str "UDM="]
           (fun _ => str "page" ++ [newline; newline])).
  - reflexivity.
  - reflexivity.
  - intros img _. vm_compute. reflexivity.
Defined.

(** X25: a failing page stops the run.  When the images in front of
    some image are transcribed and the transcription of that image is
    rejected, [handleProcess] ends with the pages of the images in
    front, in order, and with the error of the rejection; processing is
    over, and the images behind are not looked at. *)
Theorem X25_failing_page_stops_the_run :
  forall B untyped key gen (state : AppState) file others
         (done : list jsstring) (bad : jsstring)
         (later : list (option jsstring)) (md : jsstring -> jsstring) e,
    files state = file :: others ->
    images_of file = Fulfilled (map Some done ++ Some bad :: later) ->
    (forall img, In img done ->
       transcribeImage B untyped key gen img (str "image/jpeg")
       = Fulfilled (md img)) ->
    transcribeImage B untyped key gen bad (str "image/jpeg") = Rejected e ->
    exists final,
      handleProcess B untyped key gen state = Some final /\
      isProcessing final = false /\ error final = Some e /\
      List.length (processedPages final) = List.length done /\
      forall j img,
        nth_error done j = Some img ->
        nth_error (processedPages final) j
        = Some {| pageNumber := page_number j; imageUrl := img;
                  markdown := md img |}.
Proof.
  intros B untyped key gen state file others done bad later md e
         Hf Himg Hall Hbad.
  unfold handleProcess. rewrite Hf, Himg.
  rewrite (process_images_done B untyped key gen md done Hall 0 _ []).
  cbn [process_images]. rewrite Hbad.
  eexists. split; [reflexivity|]. simpl.
  repeat split; [apply numbered_length|].
  intros j img H. apply (numbered_nth md done 0 j img H).
Qed.

Lemma X25_failing_page_witness :
  exists final,
    handleProcess page_browser (fun _ _ => Fulfilled None)
                  (Some (str "key")) flaky_backend (loaded three_page_pdf)
    = Some final /\
    isProcessing final = false /\
    error final
    = Some (ProcessError (Error (str "503 Service Unavailable"))) /\
    List.length (processedPages final) = List.length [str "UDE="] /\
    forall j img,
      nth_error [str "UDE="] j = Some img ->
      nth_error (processedPages final) j
      = Some {| pageNumber := page_number j; imageUrl := img;
                markdown := (fun _ => str "page" ++ [newline; newline]) img |}.
Proof.
  apply (X25_failing_page_stops_the_run
           page_browser (fun _ _ => Fulfilled None) (Some (str "key"))
           flaky_backend (loaded three_page_pdf) three_page_pdf []
           [str "UDE="] (str "UDM=") []
           (fun _ => str "page" ++ [newline; newline])).
  - reflexivity.
  - reflexivity.
  - intros img [<-|[]]. vm_compute. reflexivity.
  - vm_compute. reflexivity.
Defined.

(** X26: editing a page.  For an index of the list of pages,
    [handleUpdateMarkdown] replaces the Markdown of that page and
    nothing else: the page keeps its number and its picture, the other
    pages and the rest of the state are as before. *)
Theorem X26_editing_changes_one_page :
  forall index newMarkdown (state : AppState) page,
    nth_error (processedPages state) index = Some page ->
    exists final,
      handleUpdateMarkdown index newMarkdown state = Some final /\
      isProcessing final = isProcessing state /\
      files final = files state /\ error final = error state /\
      List.length (processedPages final)
      = List.length (processedPages state) /\
      nth_error (processedPages final) index
      = Some {| pageNumber := pageNumber page; imageUrl := imageUrl page;
                markdown := newMarkdown |} /\
      forall j, j <> index ->
        nth_error (processedPages final) j
        = nth_error (processedPages state) j.
Proof.
  intros index newMarkdown state page H. unfold handleUpdateMarkdown.
  assert (Hlt : index < List.length (processedPages state)).
  { apply nth_error_Some. rewrite H. discriminate. }
  apply Nat.ltb_lt in Hlt. rewrite Hlt.
  eexists. split; [reflexivity|]. simpl.
  repeat split.
  - apply update_markdown_length.
  - apply update_markdown_same. exact H.
  - intros j Hj. apply update_markdown_other. exact Hj.
Qed.

Lemma X26_editing_witness :
  exists final,
    handleUpdateMarkdown 1 (str "zwei") two_pages = Some final /\
    isProcessing final = isProcessing two_pages /\
    files final = files two_pages /\ error final = error two_pages /\
    List.length (processedPages final)
    = List.length (processedPages two_pages) /\
    nth_error (processedPages final) 1
    = Some {| pageNumber := 2%Q; imageUrl := str "UDM=";
              markdown := str "zwei" |} /\
    forall j, j <> 1 ->
      nth_error (processedPages final) j
      = nth_error (processedPages two_pages) j.
Proof.
  apply (X26_editing_changes_one_page 1 (str "zwei") two_pages
           {| pageNumber := 2%Q; imageUrl := str "UDM=";
              markdown := str "two" |}).
  reflexivity.
Defined.

(** ** The normalizer on angles *)

Module AngleFacts.

Section Head.

Variable r : regex.
Variable repl : jsstring.
Variable m : N.
Variable p : cclass.

Hypothesis r_unanchored : unanchored r.
Hypothesis r_headed : headed r.
Hypothesis r_progress :
  forall i s e rest caps, match_at r i s = Some (e, rest, caps) -> i < e.
Hypothesis r_mark :
  forall i s e rest caps,
    match_at r i s = Some (e, rest, caps) ->
    exists body, substitution r repl (firstn (e - i) s) caps = m :: body.
Hypothesis p_mark : p m = false.

(** A global replacement puts nothing of the class [p] in front. *)
Lemma begins_replaceAll (s : jsstring) :
  begins p s = false -> begins p (String_replaceAll s r repl) = false.
Proof.
  intros H. destruct s as [|c s].
  { unfold String_replaceAll. simpl. rewrite headed_nil by exact r_headed.
    reflexivity. }
  destruct (match_at r 0 (c :: s)) as [[[e rest] caps]|] eqn:Hm.
  - rewrite (replaceAll_found r repl r_unanchored _ _ _ _ Hm)
      by (apply (r_progress _ _ _ _ _ Hm)).
    destruct (r_mark _ _ _ _ _ Hm) as (body & Hb).
    rewrite Nat.sub_0_r in Hb. rewrite Hb. exact p_mark.
  - rewrite (replaceAll_keep r repl r_unanchored _ _ Hm). exact H.
Qed.

End Head.

Lemma inline_mark i s e rest caps :
  match_at re_inline i s = Some (e, rest, caps) ->
  exists body,
    substitution re_inline (str "$$$1$$") (firstn (e - i) s) caps
    = 36%N :: body.
Proof.
  rewrite re_inline_led. intros H. apply led_inv in H.
  destruct H as (s' & -> & H). simpl in H. break. eexists. reflexivity.
Qed.

Lemma display_mark i s e rest caps :
  match_at re_display i s = Some (e, rest, caps) ->
  exists body,
    substitution re_display (str "$$$$$1$$$$") (firstn (e - i) s) caps
    = 36%N :: body.
Proof.
  rewrite re_display_led. intros H. apply led_inv in H.
  destruct H as (s' & -> & H). simpl in H. break. eexists. reflexivity.
Qed.

Lemma inline_progress i s e rest caps :
  match_at re_inline i s = Some (e, rest, caps) -> i < e.
Proof. rewrite re_inline_led. apply led_progress. Qed.

Lemma display_progress i s e rest caps :
  match_at re_display i s = Some (e, rest, caps) -> i < e.
Proof. rewrite re_display_led. apply led_progress. Qed.

Lemma begins_rule1 (p : cclass) (s : jsstring) :
  p 36%N = false -> begins p s = false -> begins p (rule1 s) = false.
Proof.
  intros H1. apply (begins_replaceAll re_inline _ 36%N p
    inline_unanchored inline_headed inline_progress inline_mark H1).
Qed.

Lemma begins_rule2 (p : cclass) (s : jsstring) :
  p 36%N = false -> begins p s = false -> begins p (rule2 s) = false.
Proof.
  intros H1. apply (begins_replaceAll re_display _ 36%N p
    display_unanchored display_headed display_progress display_mark H1).
Qed.

Lemma begins_rule3 (p : cclass) (s : jsstring) :
  p 92%N = false -> begins p s = false -> begins p (rule3 s) = false.
Proof.
  intros H2. apply (begins_replaceAll re_angle3 _ 92%N p
    angle3_unanchored angle3_headed angle3_progress angle3_mark H2).
Qed.

Lemma upper_not_space (c : N) : upper c = true -> is_space c = false.
Proof.
  unfold upper, is_space. intros H. apply andb_true_iff in H.
  destruct H as [H1 H2]. apply N.leb_le in H1. apply N.leb_le in H2.
  repeat match goal with
         | |- (_ || _)%bool = false => apply orb_false_iff; split
         end;
    try (apply N.eqb_neq; lia);
    apply andb_false_iff;
    try (left; apply N.leb_gt; lia); try (right; apply N.leb_gt; lia).
Qed.

Lemma space_not_upper (c : N) : is_space c = true -> upper c = false.
Proof.
  intros H. destruct (upper c) eqn:E; [|reflexivity].
  apply upper_not_space in E. congruence.
Qed.

Lemma space_not_brace (c : N) : is_space c = true -> only "{" c = false.
Proof.
  intros H. apply only_other. intros ->. discriminate.
Qed.

Lemma upper_not_brace (c : N) : upper c = true -> only "{" c = false.
Proof.
  intros H. apply only_other. intros ->. discriminate.
Qed.

(** Pattern 3 at an angle of three capitals. *)
Lemma angle3_match (ws : jsstring) (ob cb : bool) (a b c : N)
      (post : jsstring) :
  forallb is_space ws = true ->
  upper a = true -> upper b = true -> upper c = true ->
  (cb = false -> begins (only "}") post = false) ->
  exists e,
    match_at re_angle3 0
      (str "\angle" ++ ws ++ brace ob "{" ++ [a; b; c] ++ brace cb "}" ++ post)
    = Some (e, post, [(1, [a; b; c])]) /\ 0 < e.
Proof.
  intros Hws Ha Hb Hc Hpost.
  unfold match_at, re_angle3. cbn [seq].
  change (rmatch (Seq (lit "\angle") ?r) ?i ?s ?c ?k)
    with (rmatch (lit "\angle") i s c
            (fun i' s' caps' => rmatch r i' s' caps' k)).
  rewrite rmatch_lit. cbn [rmatch].
  set (n := 0 + List.length (str "\angle")).
  assert (Hx : cb = false ->
               match post with x :: _ => only "}" x = false | [] => True end).
  { intros E. specialize (Hpost E). destruct post; [exact I|exact Hpost]. }
  destruct ob, cb; try specialize (Hx eq_refl); destruct post as [|x post];
    cbn [brace app]; eexists;
    (split;
     [apply starG_max;
      [exact Hws
      |try reflexivity; apply upper_not_space; exact Ha
      |cbv beta; cbn [app str map list_ascii_of_string];
       rewrite ?only_same, ?(upper_not_brace a Ha), ?Ha, ?Hb, ?Hc,
         ?firstn_three, ?Hx;
       reflexivity]
     |lia]).
Qed.

(** Pattern 4 at an angle of one capital. *)
Lemma angle1_match (ws : jsstring) (ob cb : bool) (a : N) (post : jsstring) :
  forallb is_space ws = true -> upper a = true ->
  begins upper post = false ->
  (cb = false -> begins (only "}") post = false) ->
  exists e,
    match_at re_angle1 0
      (str "\angle" ++ ws ++ brace ob "{" ++ [a] ++ brace cb "}" ++ post)
    = Some (e, post, [(1, [a])]) /\ 0 < e.
Proof.
  intros Hws Ha Hup Hpost.
  unfold match_at, re_angle1. cbn [seq].
  change (rmatch (Seq (lit "\angle") ?r) ?i ?s ?c ?k)
    with (rmatch (lit "\angle") i s c
            (fun i' s' caps' => rmatch r i' s' caps' k)).
  rewrite rmatch_lit. cbn [rmatch].
  set (n := 0 + List.length (str "\angle")).
  assert (Hx : cb = false ->
               match post with x :: _ => only "}" x = false | [] => True end).
  { intros E. specialize (Hpost E). destruct post; [exact I|exact Hpost]. }
  destruct ob, cb; try specialize (Hx eq_refl); destruct post as [|x post];
    cbn [begins] in Hup;
    cbn [brace app]; eexists;
    (split;
     [apply starG_max;
      [exact Hws
      |try reflexivity; apply upper_not_space; exact Ha
      |cbv beta; cbn [app str map list_ascii_of_string];
       rewrite ?only_same, ?(upper_not_brace a Ha), ?Ha, ?firstn_one,
         ?Hx, ?Hup;
       reflexivity]
     |lia]).
Qed.

(** A greedy star fails when its continuation fails behind every part
    of the run. *)
Lemma starG_none (p : cclass) (k : nat -> jsstring -> option result) :
  (forall j c s, p c = true -> k j (c :: s) = None) ->
  forall w i t,
    forallb p w = true ->
    begins p t = false ->
    k (i + List.length w) t = None ->
    starG p k i (w ++ t) = None.
Proof.
  intros Hk. induction w as [|c w IH]; intros i t Hw Ht Hend.
  - simpl in *. rewrite Nat.add_0_r in Hend.
    destruct t as [|c t]; simpl; [exact Hend|].
    simpl in Ht. rewrite Ht. exact Hend.
  - simpl in Hw. apply andb_true_iff in Hw. destruct Hw as [Hc Hw].
    cbn [app starG]. rewrite Hc, (Hk i c _ Hc).
    rewrite (IH (S i) t Hw Ht); [reflexivity|].
    rewrite <- Hend. f_equal. simpl. lia.
Qed.

(** Pattern 3 fails at an angle of one capital. *)
Lemma angle3_single (ws : jsstring) (ob cb : bool) (a : N) (post : jsstring) :
  forallb is_space ws = true -> upper a = true ->
  begins upper post = false ->
  match_at re_angle3 0
    (str "\angle" ++ ws ++ brace ob "{" ++ [a] ++ brace cb "}" ++ post)
  = None.
Proof.
  intros Hws Ha Hup.
  unfold match_at, re_angle3. cbn [seq].
  change (rmatch (Seq (lit "\angle") ?r) ?i ?s ?c ?k)
    with (rmatch (lit "\angle") i s c
            (fun i' s' caps' => rmatch r i' s' caps' k)).
  rewrite rmatch_lit. cbn [rmatch].
  set (n := 0 + List.length (str "\angle")).
  apply starG_none.
  - intros j c s Hc. rewrite (space_not_brace c Hc), (space_not_upper c Hc).
    reflexivity.
  - exact Hws.
  - destruct ob; [reflexivity|]. apply upper_not_space. exact Ha.
  - destruct ob, cb; destruct post as [|x post]; cbn [begins] in Hup;
      cbn [brace app str map list_ascii_of_string];
      rewrite ?only_same, ?(upper_not_brace a Ha), ?Ha, ?Hup; reflexivity.
Qed.

Lemma rule2_other (c : N) (t : jsstring) :
  c <> 91%N -> rule2 (92%N :: c :: t) = 92%N :: rule2 (c :: t).
Proof.
  intros Hc. apply replaceAll_keep; [apply display_unanchored|].
  rewrite re_display_led, match_at_led. simpl.
  rewrite only_other by exact Hc. reflexivity.
Qed.

Lemma rule1_angle (body post : jsstring) :
  ~ In 92%N body ->
  rule1 (str "\angle" ++ body ++ post) = str "\angle" ++ body ++ rule1 post.
Proof.
  intros Hb.
  change (str "\angle" ++ body ++ post)
    with (92%N :: 97%N :: str "ngle" ++ body ++ post).
  rewrite rule1_other by discriminate.
  change (97%N :: str "ngle" ++ body ++ post)
    with (str "angle" ++ body ++ post).
  rewrite app_assoc, rule1_plain_prefix, <- app_assoc; [reflexivity|].
  intros H. apply in_app_or in H. destruct H as [H|H]; [|auto].
  vm_compute in H. intuition discriminate.
Qed.

Lemma rule2_angle (body post : jsstring) :
  ~ In 92%N body ->
  rule2 (str "\angle" ++ body ++ post) = str "\angle" ++ body ++ rule2 post.
Proof.
  intros Hb.
  change (str "\angle" ++ body ++ post)
    with (92%N :: 97%N :: str "ngle" ++ body ++ post).
  rewrite rule2_other by discriminate.
  change (97%N :: str "ngle" ++ body ++ post)
    with (str "angle" ++ body ++ post).
  rewrite app_assoc, rule2_plain_prefix, <- app_assoc; [reflexivity|].
  intros H. apply in_app_or in H. destruct H as [H|H]; [|auto].
  vm_compute in H. intuition discriminate.
Qed.

Lemma spaces_plain (ws : jsstring) :
  forallb is_space ws = true -> ~ In 92%N ws.
Proof.
  intros H Hin. rewrite forallb_forall in H. apply H in Hin. discriminate.
Qed.

Lemma capitals_plain (l : jsstring) :
  forallb upper l = true -> ~ In 92%N l.
Proof.
  intros H Hin. rewrite forallb_forall in H. apply H in Hin. discriminate.
Qed.

Lemma angle_body_plain (ws : jsstring) (ob cb : bool) (l : jsstring) :
  forallb is_space ws = true -> forallb upper l = true ->
  ~ In 92%N (ws ++ brace ob "{" ++ l ++ brace cb "}").
Proof.
  intros Hws Hl H.
  apply in_app_or in H. destruct H as [H|H]; [exact (spaces_plain _ Hws H)|].
  apply in_app_or in H. destruct H as [H|H].
  { destruct ob; simpl in H; intuition discriminate. }
  apply in_app_or in H. destruct H as [H|H]; [exact (capitals_plain _ Hl H)|].
  destruct cb; simpl in H; intuition discriminate.
Qed.

Lemma hat_plain (h l : jsstring) :
  ~ In 92%N h -> forallb upper l = true -> ~ In 92%N (h ++ l ++ str "}").
Proof.
  intros Hh Hl H. apply in_app_or in H. destruct H as [H|H]; [auto|].
  apply in_app_or in H. destruct H as [H|H]; [exact (capitals_plain _ Hl H)|].
  simpl in H. intuition discriminate.
Qed.

Lemma rule4_widehat (l t : jsstring) :
  forallb upper l = true ->
  rule4 (str "\widehat{" ++ l ++ str "}" ++ t)
  = str "\widehat{" ++ l ++ str "}" ++ rule4 t.
Proof.
  intros Hl.
  change (str "\widehat{" ++ l ++ str "}" ++ t)
    with (92%N :: str "widehat{" ++ l ++ str "}" ++ t).
  unfold rule4 at 1. rewrite replaceAll_keep;
    [|apply angle1_unanchored
     |apply (proj2 (angle_fails_on_widehat 0 (l ++ str "}" ++ t)))].
  fold (rule4 (str "widehat{" ++ l ++ str "}" ++ t)).
  rewrite !app_assoc, <- (app_assoc (str "widehat{")).
  rewrite rule4_plain_prefix; [reflexivity|].
  apply hat_plain; [|exact Hl]. vm_compute. intuition discriminate.
Qed.

(** The normalizer on an angle of three capitals. *)
Lemma normalize_angle3 (ws : jsstring) (ob cb : bool) (a b c : N)
      (post : jsstring) :
  forallb is_space ws = true ->
  upper a = true -> upper b = true -> upper c = true ->
  (cb = false -> begins (only "}") post = false) ->
  normalize (str "\angle" ++ ws ++ brace ob "{" ++ [a; b; c]
                 ++ brace cb "}" ++ post)
  = str "\widehat{" ++ [a; b; c] ++ str "}" ++ normalize post.
Proof.
  intros Hws Ha Hb Hc Hpost.
  assert (Hl : forallb upper [a; b; c] = true).
  { simpl. rewrite Ha, Hb, Hc. reflexivity. }
  pose proof (angle_body_plain ws ob cb [a; b; c] Hws Hl) as Hplain.
  assert (Hshape : forall t,
             str "\angle" ++ ws ++ brace ob "{" ++ [a; b; c]
                 ++ brace cb "}" ++ t
             = str "\angle" ++ (ws ++ brace ob "{" ++ [a; b; c]
                 ++ brace cb "}") ++ t).
  { intros t. rewrite <- !app_assoc. reflexivity. }
  unfold normalize.
  rewrite Hshape, rule1_angle, rule2_angle by exact Hplain.
  rewrite <- Hshape.
  assert (Hpost' : cb = false ->
                   begins (only "}") (rule2 (rule1 post)) = false).
  { intros E. apply begins_rule2; [reflexivity|].
    apply begins_rule1; [reflexivity|]. apply Hpost. exact E. }
  destruct (angle3_match ws ob cb a b c (rule2 (rule1 post))
              Hws Ha Hb Hc Hpost') as (e & Hm & He).
  unfold rule3 at 1.
  rewrite (replaceAll_found re_angle3 _ angle3_unanchored _ _ _ _ Hm He).
  fold (rule3 (rule2 (rule1 post))).
  change (substitution re_angle3 (str "\widehat{$1}") ?w [(1, [a; b; c])])
    with (str "\widehat{" ++ [a; b; c] ++ str "}").
  rewrite <- !app_assoc. apply rule4_widehat. exact Hl.
Qed.

(** The normalizer on an angle of one capital. *)
Lemma normalize_angle1 (ws : jsstring) (ob cb : bool) (a : N)
      (post : jsstring) :
  forallb is_space ws = true -> upper a = true ->
  begins upper post = false ->
  (cb = false -> begins (only "}") post = false) ->
  normalize (str "\angle" ++ ws ++ brace ob "{" ++ [a]
                 ++ brace cb "}" ++ post)
  = str "\hat{" ++ [a] ++ str "}" ++ normalize post.
Proof.
  intros Hws Ha Hup Hpost.
  assert (Hl : forallb upper [a] = true).
  { simpl. rewrite Ha. reflexivity. }
  pose proof (angle_body_plain ws ob cb [a] Hws Hl) as Hplain.
  assert (Hshape : forall t,
             str "\angle" ++ ws ++ brace ob "{" ++ [a] ++ brace cb "}" ++ t
             = str "\angle" ++ (ws ++ brace ob "{" ++ [a] ++ brace cb "}")
                   ++ t).
  { intros t. rewrite <- !app_assoc. reflexivity. }
  unfold normalize.
  rewrite Hshape, rule1_angle, rule2_angle by exact Hplain.
  assert (Hup2 : begins upper (rule2 (rule1 post)) = false).
  { apply begins_rule2; [reflexivity|].
    apply begins_rule1; [reflexivity|exact Hup]. }
  (* rule 3 passes *)
  assert (H3 : rule3 (str "\angle"
                        ++ (ws ++ brace ob "{" ++ [a] ++ brace cb "}")
                        ++ rule2 (rule1 post))
               = str "\angle"
                   ++ (ws ++ brace ob "{" ++ [a] ++ brace cb "}")
                   ++ rule3 (rule2 (rule1 post))).
  { pose proof (angle3_single ws ob cb a (rule2 (rule1 post)) Hws Ha Hup2)
      as Hfail.
    rewrite Hshape in Hfail.
    change (str "\angle" ++ ?t) with (92%N :: str "angle" ++ t) in *.
    unfold rule3 at 1.
    rewrite (replaceAll_keep re_angle3 _ angle3_unanchored _ _ Hfail).
    fold (rule3 (str "angle"
                   ++ (ws ++ brace ob "{" ++ [a] ++ brace cb "}")
                   ++ rule2 (rule1 post))).
    rewrite app_assoc, rule3_plain_prefix, <- app_assoc; [reflexivity|].
    intros H. apply in_app_or in H. destruct H as [H|H]; [|auto].
    vm_compute in H. intuition discriminate. }
  rewrite H3, <- Hshape.
  assert (Hup3 : begins upper (rule3 (rule2 (rule1 post))) = false).
  { apply begins_rule3; [reflexivity|exact Hup2]. }
  assert (Hpost3 : cb = false ->
                   begins (only "}") (rule3 (rule2 (rule1 post))) = false).
  { intros E. apply begins_rule3; [reflexivity|].
    apply begins_rule2; [reflexivity|].
    apply begins_rule1; [reflexivity|]. apply Hpost. exact E. }
  destruct (angle1_match ws ob cb a (rule3 (rule2 (rule1 post)))
              Hws Ha Hup3 Hpost3) as (e & Hm & He).
  unfold rule4 at 1.
  rewrite (replaceAll_found re_angle1 _ angle1_unanchored _ _ _ _ Hm He).
  fold (rule4 (rule3 (rule2 (rule1 post)))).
  change (substitution re_angle1 (str "\hat{$1}") ?w [(1, [a])])
    with (str "\hat{" ++ [a] ++ str "}").
  rewrite <- !app_assoc. reflexivity.
Qed.

End AngleFacts.
Import AngleFacts.

(** X27: angles of three capitals.  In a text
    [pre \angle ws ABC post], where [pre] holds no backslash, [ws] is
    any white space, the three capitals may stand behind an opening
    brace and in front of a closing brace, and [post] does not begin
    with a closing brace when none closes the capitals, the normalizer
    writes [pre \widehat{ABC}] and goes on normalizing [post]. *)
Theorem X27_angle_of_three_capitals :
  forall pre ws (opened closed : bool) a b c post,
    ~ In 92%N pre ->
    forallb is_space ws = true ->
    upper a = true -> upper b = true -> upper c = true ->
    (closed = false -> begins (only "}") post = false) ->
    normalize (pre ++ str "\angle" ++ ws ++ brace opened "{" ++ [a; b; c]
                   ++ brace closed "}" ++ post)
    = pre ++ str "\widehat{" ++ [a; b; c] ++ str "}" ++ normalize post.
Proof.
  intros pre ws opened closed a b c post Hpre Hws Ha Hb Hc Hpost.
  rewrite normalize_plain_prefix by exact Hpre.
  rewrite normalize_angle3 by assumption. reflexivity.
Qed.

Lemma X27_angle_witness :
  normalize (str "In " ++ str "\angle" ++ str "  " ++ brace true "{"
                 ++ [65%N; 66%N; 67%N] ++ brace true "}"
                 ++ str " and \angle X")
  = str "In " ++ str "\widehat{" ++ [65%N; 66%N; 67%N] ++ str "}"
        ++ normalize (str " and \angle X").
Proof.
  apply (X27_angle_of_three_capitals (str "In ") (str "  ") true true
           65%N 66%N 67%N (str " and \angle X")); try reflexivity.
  vm_compute. intuition discriminate.
Defined.

(** X28: angles of one capital.  In a text [pre \angle ws A post],
    where [pre] holds no backslash, [ws] is any white space, the capital
    may stand behind an opening brace and in front of a closing brace,
    and [post] begins neither with a capital nor, when no brace closes
    the capital, with a closing brace, the normalizer writes
    [pre \hat{A}] and goes on normalizing [post]. *)
Theorem X28_angle_of_one_capital :
  forall pre ws (opened closed : bool) a post,
    ~ In 92%N pre ->
    forallb is_space ws = true -> upper a = true ->
    begins upper post = false ->
    (closed = false -> begins (only "}") post = false) ->
    normalize (pre ++ str "\angle" ++ ws ++ brace opened "{" ++ [a]
                   ++ brace closed "}" ++ post)
    = pre ++ str "\hat{" ++ [a] ++ str "}" ++ normalize post.
Proof.
  intros pre ws opened closed a post Hpre Hws Ha Hup Hpost.
  rewrite normalize_plain_prefix by exact Hpre.
  rewrite normalize_angle1 by assumption. reflexivity.
Qed.

Lemma X28_angle_witness :
  normalize (str "In " ++ str "\angle" ++ str " " ++ brace false "{"
                 ++ [88%N] ++ brace false "}" ++ str " and \angle ABC")
  = str "In " ++ str "\hat{" ++ [88%N] ++ str "}"
        ++ normalize (str " and \angle ABC").
Proof.
  apply (X28_angle_of_one_capital (str "In ") (str " ") false false
           88%N (str " and \angle ABC")); try reflexivity.
  vm_compute. intuition discriminate.
Defined.

(** ** Files that fail, files that are one image *)

Module FileFacts.

(** A page that fails to render fails the loop, whatever was rendered
    before. *)
Lemma render_pages_failing (before : list PdfPage) :
  forall urls images bad after e,
    map page_render (filter page_context before) = map Fulfilled urls ->
    page_context bad = true -> page_render bad = Rejected e ->
    render_pages (before ++ bad :: after) images = Rejected e.
Proof.
  induction before as [|p before IH]; intros urls images bad after e Hr Hc He.
  - simpl. rewrite Hc, He. reflexivity.
  - cbn [app render_pages]. simpl in Hr.
    destruct (page_context p) eqn:Hp.
    + destruct urls as [|u urls]; [discriminate|]. simpl in Hr.
      inversion Hr as [[Hu Hrest]]. rewrite Hu. simpl.
      apply (IH urls); assumption.
    + apply (IH urls); assumption.
Qed.

Lemma images_of_image (file : File) (media payload : jsstring) :
  jsstring_eqb (file_type file) (str "application/pdf") = false ->
  read_result file = Some (media ++ 44%N :: payload) ->
  ~ In 44%N media -> ~ In 44%N payload ->
  images_of file = Fulfilled (map Some [payload]).
Proof.
  intros Ht Hr Hm Hp. unfold images_of, blobToBase64. rewrite Ht, Hr. simpl.
  rewrite after_comma_payload by assumption. reflexivity.
Qed.

End FileFacts.
Import FileFacts.

(** X29: a PDF is converted as a whole or not at all.  When a page
    that gets a canvas context fails to render, [convertPdfToImages] is
    rejected with the error of that page, whatever the pages in front
    gave and whatever comes behind; [handleProcess] on such a PDF then
    ends without any page, with that error, and processing is over. *)
Theorem X29_unrenderable_page_fails_the_pdf :
  forall (file : File) (before : list PdfPage) (bad : PdfPage)
         (after : list PdfPage) (urls : list jsstring) e,
    pdf_document file = Fulfilled (before ++ bad :: after) ->
    map page_render (filter page_context before) = map Fulfilled urls ->
    page_context bad = true -> page_render bad = Rejected e ->
    convertPdfToImages file = Rejected e /\
    forall B untyped key gen (state : AppState) others,
      file_type file = str "application/pdf" ->
      files state = file :: others ->
      handleProcess B untyped key gen state
      = Some {| isProcessing := false; files := files state;
                processedPages := []; error := Some e |}.
Proof.
  intros file before bad after urls e Hdoc Hr Hc He.
  assert (Hconv : convertPdfToImages file = Rejected e).
  { unfold convertPdfToImages. rewrite Hdoc. simpl.
    apply (render_pages_failing before urls); assumption. }
  split; [exact Hconv|].
  intros B untyped key gen state others Ht Hf.
  unfold handleProcess, images_of. rewrite Hf, Ht, Hconv. reflexivity.
Qed.

Lemma X29_unrenderable_page_witness :
  convertPdfToImages torn_pdf = Rejected (Error (str "Invalid page")) /\
  forall B untyped key gen (state : AppState) others,
    file_type torn_pdf = str "application/pdf" ->
    files state = torn_pdf :: others ->
    handleProcess B untyped key gen state
    = Some {| isProcessing := false; files := files state;
              processedPages := [];
              error := Some (Error (str "Invalid page")) |}.
Proof.
  apply (X29_unrenderable_page_fails_the_pdf torn_pdf
           [ {| page_context := true;
                page_render := Fulfilled (str "data:image/jpeg;base64,UDE=") |} ]
           {| page_context := true;
              page_render := Rejected (Error (str "Invalid page")) |}
           [ {| page_context := true;
                page_render := Fulfilled (str "data:image/jpeg;base64,UDM=") |} ]
           [str "data:image/jpeg;base64,UDE="]);
    reflexivity.
Defined.

(** X30: a file that is one image gives one page.  For a file whose
    type is not [application/pdf] and that the reader reads as a data
    URL (media type, comma, payload, neither holding a comma), when the
    transcription of the payload is fulfilled, [handleProcess] ends with
    exactly one page: number 1, the payload as its picture, the
    transcription as its Markdown; no error is set and processing is
    over. *)
Theorem X30_image_file_gives_one_page :
  forall B untyped key gen (state : AppState) file others
         (media payload md : jsstring),
    files state = file :: others ->
    jsstring_eqb (file_type file) (str "application/pdf") = false ->
    read_result file = Some (media ++ 44%N :: payload) ->
    ~ In 44%N media -> ~ In 44%N payload ->
    transcribeImage B untyped key gen payload (str "image/jpeg")
    = Fulfilled md ->
    handleProcess B untyped key gen state
    = Some {| isProcessing := false; files := files state;
              processedPages :=
                [ {| pageNumber := 1%Q; imageUrl := payload;
                     markdown := md |} ];
              error := None |}.
Proof.
  intros B untyped key gen state file others media payload md
         Hf Ht Hr Hm Hp Hmd.
  unfold handleProcess. rewrite Hf.
  rewrite (images_of_image file media payload Ht Hr Hm Hp).
  cbn [map process_images]. rewrite Hmd. reflexivity.
Qed.

Lemma X30_image_file_witness :
  handleProcess page_browser (fun _ _ => Fulfilled None)
                (Some (str "key")) text_backend (loaded png_file)
  = Some {| isProcessing := false; files := files (loaded png_file);
            processedPages :=
              [ {| pageNumber := 1%Q; imageUrl := str "iVBORw0KGgo=";
                   markdown := str "page" ++ [newline; newline] |} ];
            error := None |}.
Proof.
  apply (X30_image_file_gives_one_page
           page_browser (fun _ _ => Fulfilled None) (Some (str "key"))
           text_backend (loaded png_file) png_file []
           (str "data:image/png;base64") (str "iVBORw0KGgo=")
           (str "page" ++ [newline; newline])).
  - reflexivity.
  - reflexivity.
  - reflexivity.
  - vm_compute. intuition discriminate.
  - vm_compute. intuition discriminate.
  - vm_compute. reflexivity.
Defined.
